(** * Subaru telemetry platform: SSM2 codec, spool, parameter engine,
      chunked reads, lap timing, records store and the shared HUD state.

    A shallow embedding of [src/telemetry/ssm_logger.py] and
    [src/gps/mqtt_gps_map_server_latest.py].  Python integers are [Z],
    byte strings are lists of [Z] (each element a byte value), dictionaries
    are [gmap]s, exceptions are [None] / [Raise] results, and mutable
    objects are records threaded through the functions that mutate them. *)

From Stdlib Require Import ZArith List Bool String Ascii Lia QArith Floats.
From stdpp Require Import base option list gmap strings sorting.

Local Open Scope Z_scope.
#[local] Set Warnings "-clear-no-such-hyp,-inexact-float".

(** ** Python helpers shared by the modules *)

(** [seq[start:]] for a Python slice whose start may be negative. *)
Definition py_slice_from {A} (start : Z) (l : list A) : list A :=
  let n := Z.of_nat (length l) in
  if start <? 0 then drop (Z.to_nat (Z.max (n + start) 0)) l
  else drop (Z.to_nat (Z.min start n)) l.

(** [seq[:-1]] and [seq[-1]]. *)
Definition py_init {A} (l : list A) : list A := take (length l - 1)%nat l.
Definition py_last {A} (l : list A) : option A := l !! (length l - 1)%nat.

(** The values [bytes(...)] accepts. *)
Definition is_byte (b : Z) : bool := (0 <=? b) && (b <=? 255).

(** * SSM2 wire framing ([checksum], [SSM2Client._build_frame],
      [SSM2Client._parse_frames]) *)
Module Frame.

(** [sum(data) & 0xFF] *)
Definition checksum (data : list Z) : Z := Z.land (foldr Z.add 0 data) 255.

(** [_build_frame]: [None] stands for the [ValueError] raised for a payload
    longer than 255 bytes (and the one [bytes([...])] raises when the ECU
    address is not a byte value). *)
Definition _build_frame (ecu_addr : Z) (payload : list Z) : option (list Z) :=
  if Z.of_nat (length payload) >? 255 then None
  else if negb (is_byte ecu_addr) then None
  else
    let head := [128; ecu_addr; 240; Z.of_nat (length payload)] in
    let msg := head ++ payload in
    Some (msg ++ [checksum msg]).

(** One iteration of the [while i + 5 <= len(buf)] loop. *)
Inductive step_result :=
| Continue (i : nat) (frames : list (list Z))
| Stop (i : nat) (frames : list (list Z))
| IndexError.

Definition parse_step (buf : list Z) (i : nat) (frames : list (list Z))
  : step_result :=
  if negb (i + 5 <=? length buf)%nat then Stop i frames
  else
    match buf !! i with
    | None => IndexError
    | Some b =>
      if negb (b =? 128) then Continue (i + 1) frames
      else
        match buf !! (i + 3)%nat with
        | None => IndexError
        | Some payload_len =>
          let end_ := (i + 4 + Z.to_nat payload_len + 1)%nat in
          if (length buf <? end_)%nat then Stop i frames
          else
            let frame := take (end_ - i) (drop i buf) in
            match py_last frame with
            | None => IndexError
            | Some ck =>
              if checksum (py_init frame) =? ck
              then Continue end_ (frames ++ [frame])
              else Continue (i + 1) frames
            end
        end
    end.

Fixpoint parse_loop (fuel : nat) (buf : list Z) (i : nat)
    (frames : list (list Z)) : option (nat * list (list Z)) :=
  match fuel with
  | O => None
  | S fuel' =>
    match parse_step buf i frames with
    | Continue i' frames' => parse_loop fuel' buf i' frames'
    | Stop i' frames' => Some (i', frames')
    | IndexError => None
    end
  end.

(** [_parse_frames(buf)]: the frames found and the buffer left after
    [del buf[:i]].  The loop counter grows at every iteration, so
    [length buf + 1] iterations are enough. *)
Definition _parse_frames (buf : list Z) : option (list (list Z) * list Z) :=
  match parse_loop (S (length buf)) buf 0 [] with
  | Some (i, frames) => Some (frames, drop i buf)
  | None => None
  end.

(** [frame[4:-1]], the payload [request] hands back. *)
Definition frame_payload (frame : list Z) : list Z := drop 4 (py_init frame).

(** A sentinel byte met at position [j] is passed over by the parser when
    the candidate frame it announces fits in the buffer and its checksum
    does not match. *)
Definition false_header_rejected (buf : list Z) (j : nat) : Prop :=
  buf !! j = Some 128 ->
  exists payload_len ck,
    buf !! (j + 3)%nat = Some payload_len /\
    (j + 4 + Z.to_nat payload_len + 1 <= length buf)%nat /\
    py_last (take (4 + Z.to_nat payload_len + 1) (drop j buf)) = Some ck /\
    checksum (py_init (take (4 + Z.to_nat payload_len + 1) (drop j buf))) <> ck.

(** The round trip as the specification words it: whatever the garbage,
    the parser yields exactly the one frame. *)
Definition recovers (garbage : list Z) (ecu_addr : Z) (payload : list Z) : Prop :=
  exists frame rest,
    _build_frame ecu_addr payload = Some frame /\
    _parse_frames (garbage ++ frame) = Some ([frame], rest) /\
    frame_payload frame = payload.

End Frame.

(** * Text helpers ([str.strip], [in], JSON values) *)
Module Text.

(** Python strings are modelled as [string]s whose characters are the code
    points below 256; [str.isspace] holds there for TAB..CR, FS..US, space,
    NEL and NBSP. *)
Definition is_space (c : ascii) : bool :=
  let n := Z.of_N (N_of_ascii c) in
  ((9 <=? n) && (n <=? 13)) || ((28 <=? n) && (n <=? 32))
  || (n =? 133) || (n =? 160).

Fixpoint lstrip (s : string) : string :=
  match s with
  | EmptyString => EmptyString
  | String c s' => if is_space c then lstrip s' else s
  end.

Fixpoint rstrip (s : string) : string :=
  match s with
  | EmptyString => EmptyString
  | String c s' =>
    match rstrip s' with
    | EmptyString => if is_space c then EmptyString else String c EmptyString
    | r => String c r
    end
  end.

(** [s.strip()] *)
Definition strip (s : string) : string := lstrip (rstrip s).

(** [c in s] for a one-character needle. *)
Fixpoint contains_char (c : ascii) (s : string) : bool :=
  match s with
  | EmptyString => false
  | String d s' => Ascii.eqb c d || contains_char c s'
  end.

Definition is_empty (s : string) : bool :=
  match s with EmptyString => true | _ => false end.

(** What [json.loads] returns.  Numbers keep their text. *)
#[local] Unset Elimination Schemes.
Inductive json :=
| JNull
| JBool (b : bool)
| JNum (repr : string)
| JStr (s : string)
| JList (items : list json)
| JDict (items : list (string * json)).
#[local] Set Elimination Schemes.

(** [d.get(key, default)] on the items of a dict. *)
Fixpoint dict_get (key : string) (items : list (string * json)) (default : json)
  : json :=
  match items with
  | [] => default
  | (k, v) :: rest => if String.eqb k key then v else dict_get key rest default
  end.

End Text.

(** * The on-disk spool ([JsonlSpool]) and its flush ([flush_spool]) *)
Module Spool.
Import Text.

(** The spool object together with the file at its path: [file = None] when
    the file does not exist, otherwise its lines in order (each without its
    terminating newline). *)
Record JsonlSpool := mkSpool {
  file : option (list string);
  max_entries : Z;
  append_counter : Z
}.

(** [JsonlSpool(path, max_entries)] on a path where no file exists yet. *)
Definition init (max_entries : Z) : JsonlSpool :=
  mkSpool None max_entries 0.

Definition file_lines (sp : JsonlSpool) : list string :=
  match file sp with Some ls => ls | None => [] end.

Definition depth (sp : JsonlSpool) : Z :=
  match file sp with
  | None => 0
  | Some ls => Z.of_nat (length ls)
  end.

Definition trim (sp : JsonlSpool) : JsonlSpool :=
  match file sp with
  | None => sp
  | Some ls =>
    if Z.of_nat (length ls) <=? max_entries sp then sp
    else
      let kept := py_slice_from (- max_entries sp) ls in
      mkSpool (Some kept) (max_entries sp) (append_counter sp)
  end.

(** [append]: [line] is [json.dumps(payload, ...)], which holds no raw
    newline, so a file whose last line is terminated, as every file that
    [append] has written is, grows by exactly one line. *)
Definition append (sp : JsonlSpool) (line : string) : JsonlSpool :=
  let written := mkSpool (Some (file_lines sp ++ [line])) (max_entries sp)
                         (append_counter sp) in
  let counted := mkSpool (file written) (max_entries sp) (append_counter sp + 1) in
  if append_counter counted >=? 100
  then trim (mkSpool (file counted) (max_entries sp) 0)
  else counted.

(** The [for line in f] loop of [peek_lines], with its [break]. *)
Fixpoint peek_loop (max_lines : Z) (ls : list string) (out : list string)
  : list string :=
  match ls with
  | [] => out
  | line :: rest =>
    let line' := strip line in
    if is_empty line' then peek_loop max_lines rest out
    else
      let out' := out ++ [line'] in
      if Z.of_nat (length out') >=? max_lines then out'
      else peek_loop max_lines rest out'
  end.

Definition peek_lines (sp : JsonlSpool) (max_lines : Z) : list string :=
  if max_lines <=? 0 then []
  else match file sp with
       | None => []
       | Some ls => peek_loop max_lines ls []
       end.

Definition drop_first_lines (sp : JsonlSpool) (count : Z) : JsonlSpool :=
  if count <=? 0 then sp
  else match file sp with
       | None => sp
       | Some ls =>
         if count >=? Z.of_nat (length ls)
         then mkSpool None (max_entries sp) (append_counter sp)
         else mkSpool (Some (drop (Z.to_nat count) ls)) (max_entries sp)
                      (append_counter sp)
       end.

(** A run of [append] calls. *)
Definition append_all (sp : JsonlSpool) (ls : list string) : JsonlSpool :=
  fold_left append ls sp.

(** What a run of appends on a fresh spool maintains. *)
Record spool_inv (m : Z) (all : list string) (sp : JsonlSpool) : Prop := {
  inv_max : max_entries sp = m;
  inv_counter : append_counter sp = Z.of_nat (length all) mod 100;
  inv_suffix : file_lines sp = drop (length all - length (file_lines sp)) all;
  inv_depth : depth sp = Z.of_nat (length (file_lines sp));
  inv_upper : depth sp <= m + append_counter sp;
  inv_lower : Z.min (Z.of_nat (length all)) m <= depth sp
}.

(** The lines [append] writes: not blank, no surrounding white space. *)
Definition clean_line (l : string) : Prop := strip l = l /\ l <> EmptyString.

(** What [json.loads] makes of a line: the value decoded, the
    [JSONDecodeError] of a line that is no JSON, or another exception (the
    [RecursionError] of a line nested deeper than the interpreter allows,
    the [ValueError] of an integer literal of more than 4300 digits). *)
Inductive loaded :=
| Decoded (payload_obj : json)
| JSONDecodeError
| OtherError.

(** A broker that records what it acknowledges and refuses the payload
    ["boom"]; lines are decoded as the object [{"seq": <line>}], except the
    line ["{bad"], which is no JSON. *)
Definition demo_publish (w : list (string * string)) (topic payload : string)
  : list (string * string) * bool :=
  if String.eqb payload "boom" then (w, false) else (w ++ [(topic, payload)], true).

Definition demo_loads (line : string) : loaded :=
  if String.eqb line "{bad" then JSONDecodeError
  else Decoded (JDict [("seq"%string, JNum line)]).

Definition demo_dumps (j : json) : string :=
  match j with
  | JDict [(_, JNum n)] => n
  | _ => EmptyString
  end.

(** One hundred thousand opening brackets: no JSON document, and nested
    deeper than [json.loads] can follow, which raises [RecursionError]. *)
Definition deep_line : string :=
  string_of_list_ascii (replicate (Z.to_nat 100000) "["%char).

Definition deep_loads (line : string) : loaded :=
  if String.eqb line deep_line then OtherError else demo_loads line.

Section Flush.

(** The broker side: [W] is the state of the MQTT client and broker,
    [mqtt_publish_checked w topic payload] sends one message and waits for
    its acknowledgement; [false] stands for any exception it raises.
    [loads] is [json.loads], [dumps] is [json.dumps] and [fmt] the text of
    [f"{value}"]. *)
Context {W : Type}.
Variable mqtt_publish_checked : W -> string -> string -> W * bool.
Variable loads : string -> loaded.
Variable dumps : json -> string.
Variable fmt : json -> string.

Fixpoint publish_metrics (w : W) (base_topic : string)
    (metrics : list (string * json)) : W * bool :=
  match metrics with
  | [] => (w, true)
  | (metric_topic, metric_value) :: rest =>
    let '(w1, ok) := mqtt_publish_checked w (base_topic ++ "/" ++ metric_topic)
                       (fmt metric_value) in
    if ok then publish_metrics w1 base_topic rest else (w1, false)
  end.

(** [publish_payload_and_metrics]; the [.get] raises [AttributeError] when
    the decoded line is not an object. *)
Definition publish_payload_and_metrics (w : W) (base_topic : string)
    (payload_obj : json) : W * bool :=
  let '(w1, ok) := mqtt_publish_checked w (base_topic ++ "/data")
                     (dumps payload_obj) in
  if negb ok then (w1, false)
  else
    match payload_obj with
    | JDict items =>
      match dict_get "metrics" items (JDict []) with
      | JDict metrics => publish_metrics w1 base_topic metrics
      | _ => (w1, true)
      end
    | _ => (w1, false)
    end.

(** How the [for line in lines] loop of [flush_spool] ends: it has run
    through the lines, it has left by [break] after a failed publication,
    or [json.loads] has raised an exception that [except
    json.JSONDecodeError] does not catch. *)
Inductive loop_end :=
| RanThrough
| Broke
| Uncaught.

(** The [for line in lines] loop of [flush_spool]. *)
Fixpoint flush_loop (w : W) (base_topic : string) (ls : list string)
    (sent_lines : Z) : W * Z * loop_end :=
  match ls with
  | [] => (w, sent_lines, RanThrough)
  | line :: rest =>
    match loads line with
    | JSONDecodeError => flush_loop w base_topic rest (sent_lines + 1)
    | OtherError => (w, sent_lines, Uncaught)
    | Decoded payload_obj =>
      let '(w1, ok) := publish_payload_and_metrics w base_topic payload_obj in
      if ok then flush_loop w1 base_topic rest (sent_lines + 1)
      else (w1, sent_lines, Broke)
    end
  end.

(** What [flush_spool] does in the end: it returns [sent_lines], it raises
    [RuntimeError("Spool flush interrupted by publish failure")], or the
    exception of [json.loads] leaves it before any line is dropped. *)
Inductive flush_result :=
| Flushed (sent_lines : Z)
| FlushInterrupted
| FlushRaised.

Definition flush_spool (sp : JsonlSpool) (w : W) (flush_per_loop : Z)
    (base_topic : string) : JsonlSpool * W * flush_result :=
  let ls := peek_lines sp flush_per_loop in
  match ls with
  | [] => (sp, w, Flushed 0)
  | _ =>
    let '(w1, sent_lines, e) := flush_loop w base_topic ls 0 in
    match e with
    | Uncaught => (sp, w1, FlushRaised)
    | _ =>
      let sp1 := if sent_lines =? 0 then sp
                 else drop_first_lines sp sent_lines in
      if sent_lines <? Z.of_nat (length ls)
      then (sp1, w1, FlushInterrupted)
      else (sp1, w1, Flushed sent_lines)
    end
  end.

(** The messages a decoded line stands for: the document under
    [<base>/data], then one message per metric when the document is an
    object whose [metrics] are an object. *)
Definition payload_messages (base_topic : string) (payload_obj : json)
  : list (string * string) :=
  ((base_topic ++ "/data")%string, dumps payload_obj)
  :: match payload_obj with
     | JDict items =>
       match dict_get "metrics" items (JDict []) with
       | JDict metrics =>
         map (fun m : string * json =>
               ((base_topic ++ "/" ++ m.1)%string, fmt m.2)) metrics
       | _ => []
       end
     | _ => []
     end.

(** The messages of a spooled line; none for a line that does not decode. *)
Definition line_messages (base_topic : string) (line : string)
  : list (string * string) :=
  match loads line with
  | Decoded payload_obj => payload_messages base_topic payload_obj
  | _ => []
  end.

(** Messages handed to the broker one after the other, up to the first it
    does not acknowledge. *)
Fixpoint send_all (w : W) (msgs : list (string * string)) : W * bool :=
  match msgs with
  | [] => (w, true)
  | (topic, payload) :: rest =>
    let '(w1, ok) := mqtt_publish_checked w topic payload in
    if ok then send_all w1 rest else (w1, false)
  end.

(** A line [flush_spool] counts as sent: no JSON, or an object. *)
Definition countable (line : string) : Prop :=
  loads line = JSONDecodeError \/ exists items, loads line = Decoded (JDict items).

End Flush.

End Spool.

(** * The RomRaider expression sandbox and the decoder
      ([normalize_expr], [compile_expr], [decode_raw_value],
      [decode_rr_params]) *)
Module Expr.
Import Text.

(** [s.replace(old, new)] for a non-empty [old]: leftmost, non-overlapping
    occurrences.  [skip] counts the characters of a matched [old] still to
    be passed over. *)
Fixpoint replace_from (old new : string) (skip : nat) (s : string) : string :=
  match s with
  | EmptyString => EmptyString
  | String c s' =>
    match skip with
    | S k => replace_from old new k s'
    | O =>
      if String.prefix old s
      then (new ++ replace_from old new (String.length old - 1) s')%string
      else String c (replace_from old new 0 s')
    end
  end.

Definition replace (old new s : string) : string := replace_from old new 0 s.

Definition in_chars (c : ascii) (cs : string) : bool := contains_char c cs.

(** [re.sub(r"(?<![=!<>])!(?!=)", " not ", s)]: [prev] is the character
    before the current one in the text being scanned. *)
Fixpoint sub_not (prev : option ascii) (s : string) : string :=
  match s with
  | EmptyString => EmptyString
  | String c s' =>
    let behind_ok := match prev with
                     | Some b => negb (in_chars b "=!<>")
                     | None => true
                     end in
    let ahead_ok := match s' with
                    | String d _ => negb (Ascii.eqb d "=")
                    | EmptyString => true
                    end in
    if Ascii.eqb c "!" && behind_ok && ahead_ok
    then (" not " ++ sub_not (Some c) s')%string
    else String c (sub_not (Some c) s')
  end.

Definition normalize_expr (expr : string) : string :=
  let out := strip expr in
  if is_empty out then EmptyString
  else if contains_char "?" out then EmptyString
  else
    let out := replace "[value]" "value" out in
    let out := replace "GetLogParam" "getlogparam" out in
    let out := replace "&&" " and " out in
    let out := replace "||" " or " out in
    sub_not None out.

(** The node classes of [ALLOWED_AST_NODES]; every other class of the
    [ast] module is an [OtherClass]. *)
Inductive ast_class :=
| Expression | BinOp | UnaryOp | BoolOp | Compare | Call | Name | Load
| Constant | Add | Sub | Mult | Div | FloorDiv | Mod | Pow | USub | UAdd
| Not | And | Or | Eq | NotEq | Lt | LtE | Gt | GtE
| OtherClass (class_name : string).

(** A syntax tree as [ast.walk] sees it: the class of the node, its [id]
    (of use for [Name] nodes only) and its child nodes in field order, so
    that the first child of a [Call] is its [func]. *)
#[local] Unset Elimination Schemes.
Inductive node :=
| Node (cls : ast_class) (id : string) (children : list node).
#[local] Set Elimination Schemes.

Definition node_cls (n : node) : ast_class := let 'Node c _ _ := n in c.
Definition node_id (n : node) : string := let 'Node _ i _ := n in i.
Definition node_children (n : node) : list node := let 'Node _ _ ch := n in ch.

(** [ast.walk]: the node and all its descendants (the library fixes no
    order; the loop below rejects on any offending node, whatever the
    order). *)
Fixpoint walk (n : node) : list node :=
  let 'Node _ _ ch := n in
  n :: (fix walk_all (l : list node) : list node :=
          match l with
          | [] => []
          | m :: l' => walk m ++ walk_all l'
          end) ch.

Definition ALLOWED_EXPR_NAMES : list string :=
  ["value"; "abs"; "min"; "max"; "round"; "pow"; "getlogparam"]%string.

Definition allowed_name (i : string) : bool :=
  existsb (String.eqb i) ALLOWED_EXPR_NAMES.

Definition is_allowed_class (c : ast_class) : bool :=
  match c with OtherClass _ => false | _ => true end.

Definition is_name (c : ast_class) : bool :=
  match c with Name => true | _ => false end.

Definition is_call (c : ast_class) : bool :=
  match c with Call => true | _ => false end.

(** The body of the [for node in ast.walk(tree)] loop: [true] when the
    node makes [compile_expr] return [None] (a [Call] without [func] would
    raise, which the [except] turns into [None] as well). *)
Definition node_rejected (n : node) : bool :=
  if negb (is_allowed_class (node_cls n)) then true
  else if is_name (node_cls n) && negb (allowed_name (node_id n)) then true
  else if is_call (node_cls n) then
    match node_children n with
    | [] => true
    | func :: _ =>
      if negb (is_name (node_cls func)) then true
      else negb (allowed_name (node_id func))
    end
  else false.

Section Decoder.

(** Python floats and the interpreter.  [F] is the type of floats,
    [float_of_int] is [float(n)], [py_round x n] is [round(x, n)],
    [fzero] is [0.0].  [ast_parse] is [ast.parse(_, mode="eval")] and
    [py_compile] is [compile(tree, "<rr_expr>", "eval")], [None] when they
    raise.  [py_eval code value getlogparam] is
    [float(eval(code, {"__builtins__": {}}, env))] for the environment made
    of [value], the five arithmetic builtins and [getlogparam]; [None] when
    it raises. *)
Context {F code : Type}.
Variable float_of_int : Z -> F.
Variable py_round : F -> Z -> F.
Variable fzero : F.
Variable ast_parse : string -> option node.
Variable py_compile : node -> option code.
Variable py_eval : code -> F -> (string -> F) -> option F.

Definition evaluator := F -> gmap string F -> option F.

(** The closure [_eval] that [compile_expr] returns. *)
Definition _eval (c : code) : evaluator :=
  fun value resolved =>
    let _getlogparam := fun name : string =>
      match resolved !! name with Some got => got | None => fzero end in
    py_eval c value _getlogparam.

Definition compile_expr (expr : string) : option evaluator :=
  let expr_norm := normalize_expr expr in
  if is_empty expr_norm then None
  else
    match ast_parse expr_norm with
    | None => None
    | Some tree =>
      if existsb node_rejected (walk tree) then None
      else match py_compile tree with
           | None => None
           | Some c => Some (_eval c)
           end
    end.

Record RRParam := mkRRParam {
  name : string;
  topic : string;
  addr : Z;
  size : Z;
  storagetype : string;
  kind : string;
  bit : Z;
  decimals : Z;
  unit_ : string;
  expr : string;
  evaluator_ : option evaluator
}.

(** [int.from_bytes(bytes(raw_bytes), byteorder="big", signed=signed)];
    [None] is the [ValueError] of [bytes(...)] on a value that is no byte. *)
Definition decode_raw_value (raw_bytes : list Z) (storagetype : string)
  : option Z :=
  if negb (forallb is_byte raw_bytes) then None
  else
    let signed := String.prefix "int" storagetype in
    let u := fold_left (fun acc b => acc * 256 + b) raw_bytes 0 in
    let bits := 8 * Z.of_nat (length raw_bytes) in
    if signed && (0 <? bits) && (2 ^ (bits - 1) <=? u)
    then Some (u - 2 ^ bits) else Some u.

(** [[data_by_addr.get(p.addr + i) for i in range(p.size)]], [None] when
    one of them is missing. *)
Definition bytes_for_param (data_by_addr : gmap Z Z) (p : RRParam)
  : option (list Z) :=
  mapM (fun i => data_by_addr !! (addr p + i)) (seqZ 0 (size p)).

Definition is_bool_bit (p : RRParam) : bool :=
  String.eqb (kind p) "bool" && (size p =? 1) && (1 <=? bit p) && (bit p <=? 8)
  && (String.eqb (normalize_expr (expr p)) ""
      || String.eqb (normalize_expr (expr p)) "value").

(** The value named [raw_value] once the boolean fast path has been taken
    or not. *)
Definition raw_value (p : RRParam) (bs : list Z) : option F :=
  match decode_raw_value bs (storagetype p) with
  | None => None
  | Some n =>
    if is_bool_bit p then
      match bs with
      | b0 :: _ => Some (float_of_int (Z.land (Z.shiftr b0 (bit p - 1)) 1))
      | [] => None
      end
    else Some (float_of_int n)
  end.

Definition decode_state : Type :=
  gmap string F * gmap string string * gmap string F.

(** The body of the loop over [params]; [None] when it raises. *)
Definition decode_param (data_by_addr : gmap Z Z) (st : decode_state)
    (p : RRParam) : option decode_state :=
  let '(metrics, units, resolved_by_name) := st in
  match bytes_for_param data_by_addr p with
  | None => Some st
  | Some bs =>
    match raw_value p bs with
    | None => None
    | Some raw =>
      let value :=
        match evaluator_ p with
        | None => raw
        | Some ev => match ev raw resolved_by_name with
                     | Some v => v
                     | None => raw
                     end
        end in
      let value := py_round value (Z.max 0 (decimals p)) in
      Some (<[topic p := value]> metrics,
            <[topic p := unit_ p]> units,
            <[name p := value]> resolved_by_name)
    end
  end.

Fixpoint decode_loop (data_by_addr : gmap Z Z) (st : decode_state)
    (params : list RRParam) : option decode_state :=
  match params with
  | [] => Some st
  | p :: rest =>
    match decode_param data_by_addr st p with
    | None => None
    | Some st' => decode_loop data_by_addr st' rest
    end
  end.

Definition decode_rr_params (data_by_addr : gmap Z Z) (params : list RRParam)
  : option decode_state :=
  decode_loop data_by_addr (∅, ∅, ∅) params.

End Decoder.

(** The values of an address map read from the ECU are bytes. *)
Definition bytes_map (data : gmap Z Z) : Prop :=
  forall a v, data !! a = Some v -> 0 <= v <= 255.

(** A parameter whose expression holds a ternary, with integers standing
    for floats. *)
Definition ternary_param : RRParam (F:=Z) :=
  mkRRParam "Engine Load" "engine_load" 8 1 "uint8" "" 0 1 "%"
            "value>100?1:0" None.

End Expr.

(** * Multi-address reads ([SSM2Client.read_multiple], [read_chunked]) *)
Module Chunked.

Inductive error :=
| ValueError
| RuntimeError
| TimeoutError
| SerialException
| OverflowError.

Inductive outcome (A : Type) :=
| Ok (a : A)
| Raise (e : error).
Arguments Ok {A} a.
Arguments Raise {A} e.

(** [seq[start:stop]] with Python's treatment of negative and oversized
    indices. *)
Definition py_index (n : Z) (k : Z) : Z :=
  if k <? 0 then Z.max (n + k) 0 else Z.min k n.

Definition py_slice {A} (start stop : Z) (l : list A) : list A :=
  let n := Z.of_nat (length l) in
  let a := py_index n start in
  let b := py_index n stop in
  take (Z.to_nat (b - a)) (drop (Z.to_nat a) l).

(** [{addr: value for addr, value in zip(addresses, data)}]: a later pair
    overrides an earlier one with the same address. *)
Definition dict_of_zip (addresses data : list Z) : gmap Z Z :=
  fold_left (fun m p => <[p.1 := p.2]> m) (zip addresses data) ∅.

(** [addr.to_bytes(3, byteorder="big")] *)
Definition addr_to_bytes (a : Z) : list Z :=
  [Z.land (Z.shiftr a 16) 255; Z.land (Z.shiftr a 8) 255; Z.land a 255].

(** The request under construction: [None] is the [ValueError] for an
    address out of the 24-bit range. *)
Fixpoint extend_req (req : list Z) (addresses : list Z) : option (list Z) :=
  match addresses with
  | [] => Some req
  | a :: rest =>
    if (a <? 0) || (a >? 16777215) then None
    else extend_req (req ++ addr_to_bytes a) rest
  end.

Section Client.

(** The serial side: [W] is the state of the link and of the ECU behind it,
    [request w payload] is [SSM2Client.request(payload, timeout_s=1.0)],
    the reply payload or the exception raised. *)
Context {W : Type}.
Variable request : W -> list Z -> W * outcome (list Z).
Variable pad_addr : Z.

(** [read_multiple]; [bytearray([0xA8, self.pad_addr])] raises [ValueError]
    when the pad address is no byte value. *)
Definition read_multiple (w : W) (addresses : list Z)
  : W * outcome (gmap Z Z) :=
  match addresses with
  | [] => (w, Ok ∅)
  | _ =>
    if (84 <? length addresses)%nat then (w, Raise ValueError)
    else if negb (is_byte pad_addr) then (w, Raise ValueError)
    else
      match extend_req [168; pad_addr] addresses with
      | None => (w, Raise ValueError)
      | Some req =>
        let '(w1, reply) := request w req in
        match reply with
        | Raise e => (w1, Raise e)
        | Ok [] => (w1, Raise RuntimeError)
        | Ok (tag :: data) =>
          if negb (tag =? 232) then (w1, Raise RuntimeError)
          else if negb (length data =? length addresses)%nat
               then (w1, Raise RuntimeError)
               else (w1, Ok (dict_of_zip addresses data))
        end
      end
  end.

End Client.

Section ReadChunked.

(** [read_chunked] only calls [client.read_multiple]; the client is any
    object with that method.  [time_sleep w seconds] is [time.sleep]: the
    state after the wait, and the exception it raises instead of returning
    ([ValueError] for a negative delay or NaN, [OverflowError] for a delay
    too large), if any.  [D] is the type of the delay. *)
Context {W D : Type}.
Variable client_read_multiple : W -> list Z -> W * outcome (gmap Z Z).
Variable time_sleep : W -> D -> W * option error.

(** How the [for _ in range(max(1, retries))] loop ends: with the map
    read, with the last error after as many failures, or with the exception
    [time.sleep] raised inside the handler, which leaves [read_chunked]. *)
Inductive attempted :=
| Read (m : gmap Z Z)
| Failed (last_error : option error)
| Escaped (e : error).

Fixpoint attempts (n : nat) (inter_delay : D) (w : W) (chunk : list Z)
    (last_error : option error) : W * attempted :=
  match n with
  | O => (w, Failed last_error)
  | S k =>
    match client_read_multiple w chunk with
    | (w1, Ok m) => (w1, Read m)
    | (w1, Raise exc) =>
      match time_sleep w1 inter_delay with
      | (w2, None) => attempts k inter_delay w2 chunk (Some exc)
      | (w2, Some e) => (w2, Escaped e)
      end
    end
  end.

Record loop_state := mkLoop {
  out : gmap Z Z;
  idx : Z;
  chunk_size : Z
}.

Inductive step :=
| Next (w : W) (st : loop_state)
| Return (w : W) (result : gmap Z Z)
| Raised (w : W) (e : error).

(** One iteration of the [while i < len(addresses)] loop. *)
Definition read_chunked_step (addresses : list Z) (retries : Z)
    (inter_delay : D) (best_effort : bool) (w : W) (st : loop_state) : step :=
  if negb (idx st <? Z.of_nat (length addresses)) then Return w (out st)
  else
    let size := Z.min (chunk_size st) (Z.of_nat (length addresses) - idx st) in
    let chunk := py_slice (idx st) (idx st + size) addresses in
    match attempts (Z.to_nat (Z.max 1 retries)) inter_delay w chunk None with
    | (w1, Read m) => Next w1 (mkLoop (m ∪ out st) (idx st + size) (chunk_size st))
    | (w1, Escaped e) => Raised w1 e
    | (w1, Failed last_error) =>
      if 1 <? size then Next w1 (mkLoop (out st) (idx st) (Z.max 1 (size / 2)))
      else if best_effort then Next w1 (mkLoop (out st) (idx st + 1) (chunk_size st))
      else match last_error with
           | Some e => Raised w1 e
           | None => Raised w1 RuntimeError
           end
    end.

(** The loop; [None] when [fuel] iterations did not end it. *)
Fixpoint read_chunked_loop (fuel : nat) (addresses : list Z) (retries : Z)
    (inter_delay : D) (best_effort : bool) (w : W) (st : loop_state)
  : option (W * outcome (gmap Z Z)) :=
  match fuel with
  | O => None
  | S fuel' =>
    match read_chunked_step addresses retries inter_delay best_effort w st with
    | Next w1 st1 =>
      read_chunked_loop fuel' addresses retries inter_delay best_effort w1 st1
    | Return w1 result => Some (w1, Ok result)
    | Raised w1 e => Some (w1, Raise e)
    end
  end.

Definition read_chunked (fuel : nat) (w : W) (addresses : list Z)
    (chunk_size : Z) (retries : Z) (inter_delay : D) (best_effort : bool)
  : option (W * outcome (gmap Z Z)) :=
  read_chunked_loop fuel addresses retries inter_delay best_effort w
    (mkLoop ∅ 0 chunk_size).

End ReadChunked.

(** A client that keeps a journal of its calls: every [read_multiple] is
    recorded with the chunk asked for and whether it succeeded. *)
Definition journal : Type := list (list Z * bool).

Definition journaled {W : Type}
    (rm : W -> list Z -> W * outcome (gmap Z Z))
  : W * journal -> list Z -> (W * journal) * outcome (gmap Z Z) :=
  fun wj chunk =>
    let '(w1, r) := rm wj.1 chunk in
    ((w1, wj.2 ++ [(chunk, match r with Ok _ => true | Raise _ => false end)]), r).

(** [time.sleep] beside the journal, which it leaves alone. *)
Definition journaled_sleep {W D : Type} (sleep : W -> D -> W * option error)
  : W * journal -> D -> (W * journal) * option error :=
  fun wj seconds =>
    let '(w1, e) := sleep wj.1 seconds in ((w1, wj.2), e).

(** The addresses of the chunks the journal records as read. *)
Definition read_ok (j : journal) : list Z :=
  flat_map (fun e : list Z * bool => if e.2 then e.1 else []) j.

(** The result of a journaled run without its journal. *)
Definition erase {W : Type} (r : option ((W * journal) * outcome (gmap Z Z)))
  : option (W * outcome (gmap Z Z)) :=
  match r with
  | Some ((w1, _), o) => Some (w1, o)
  | None => None
  end.

(** An ECU that answers reads of at most two addresses (with the byte 7 for
    each) and stays silent on longer ones. *)
Definition small_reads_only (w : unit) (req : list Z) : unit * outcome (list Z) :=
  if (8 <? length req)%nat then (w, Raise TimeoutError)
  else (w, Ok (232 :: replicate ((length req - 2) / 3) 7)).

(** [time.sleep] on a binary64 delay, which it converts to a whole number
    of nanoseconds: NaN is refused, then a delay that does not fit 64 bits,
    then a negative one. *)
Definition sleep_checked {W : Type} (w : W) (seconds : float)
  : W * option error :=
  let ns := PrimFloat.mul seconds 1000000000 in
  if PrimFloat.is_nan seconds then (w, Some ValueError)
  else if PrimFloat.leb 9223372036854775808 ns
          || PrimFloat.ltb ns (-9223372036854775808)
       then (w, Some OverflowError)
  else if PrimFloat.ltb seconds 0 then (w, Some ValueError)
  else (w, None).

End Chunked.

(** * Python floats *)
Module Num.

(** The float operations the GPS server uses.  [flit q] is the float
    written as the decimal literal [q]; [py_lt a b] is [a < b], [py_le a b]
    is [a <= b]; [fdiv] is only applied to divisors that are not zero.
    [f_of_int n] is the float an integer operand of a float operation is
    converted to, [None] for the [OverflowError] of an integer too large;
    [f_to_int x] is [int(x)], [None] for the exception an infinity or a NaN
    raises. *)
Class PyFloat (F : Type) := {
  fadd : F -> F -> F;
  fsub : F -> F -> F;
  fmul : F -> F -> F;
  fdiv : F -> F -> F;
  fneg : F -> F;
  py_lt : F -> F -> bool;
  py_le : F -> F -> bool;
  flit : Q -> F;
  f_of_int : Z -> option F;
  f_to_int : F -> option Z
}.

Declare Scope pyfloat_scope.
Delimit Scope pyfloat_scope with F.
Infix "+" := fadd : pyfloat_scope.
Infix "-" := fsub : pyfloat_scope.
Infix "*" := fmul : pyfloat_scope.
Infix "/" := fdiv : pyfloat_scope.
Notation "- x" := (fneg x) : pyfloat_scope.
Notation "a <? b" := (py_lt a b) : pyfloat_scope.
Notation "a >? b" := (py_lt b a) : pyfloat_scope.
Notation "a <=? b" := (py_le a b) : pyfloat_scope.
Notation "a >=? b" := (py_le b a) : pyfloat_scope.

(** [max(a, b)] and [min(a, b)] keep their first argument unless the second
    is strictly greater, respectively smaller. *)
Definition py_max {F} `{PyFloat F} (a b : F) : F := if py_lt a b then b else a.
Definition py_min {F} `{PyFloat F} (a b : F) : F := if py_lt b a then b else a.

(** IEEE-754 binary64, the floats of CPython.  [float_of_Z z] is the
    float nearest to [z], ties to even, and infinite from [2^1024 - 2^970]
    on. *)
Definition float_of_Z (z : Z) : float :=
  SF2Prim (SpecFloat.binary_normalize 53 1024 z 0 false).

Definition int_to_float (z : Z) : option float :=
  let x := float_of_Z z in
  if PrimFloat.is_infinity x then None else Some x.

Definition float_trunc (x : float) : option Z :=
  match Prim2SF x with
  | SpecFloat.S754_finite s m e =>
    let v := if 0 <=? e then Z.pos m * 2 ^ e else Z.shiftr (Z.pos m) (- e) in
    Some (if s then - v else v)
  | SpecFloat.S754_zero _ => Some 0
  | _ => None
  end.

(** A [pow] for [x ** 2] on binary64 that rounds the square to nearest;
    the [pow] of a C library may return a neighbour of that float.  [None]
    is the [OverflowError] raised when the square of a finite float is not
    finite. *)
Definition float_pow2 (x : float) : option float :=
  let y := PrimFloat.mul x x in
  if PrimFloat.is_infinity y && negb (PrimFloat.is_infinity x) then None
  else Some y.

#[export] Instance binary64 : PyFloat float := {
  fadd := PrimFloat.add;
  fsub := PrimFloat.sub;
  fmul := PrimFloat.mul;
  fdiv := PrimFloat.div;
  fneg := PrimFloat.opp;
  py_lt := PrimFloat.ltb;
  py_le := PrimFloat.leb;
  flit q := PrimFloat.div (float_of_Z (Qnum q)) (float_of_Z (Z.pos (Qden q)));
  f_of_int := int_to_float;
  f_to_int := float_trunc
}.

End Num.

(** * Lap timing ([LapTiming]) *)
Module Timing.
Import Num.

Definition MIN_VALID_LAP_SEC : Q := 20.
Definition MAX_TRACK_ERROR_M : Q := 120.

Section LapTiming.

Context {F : Type} `{PyFloat F}.

Local Abbreviation splits := (list (option F)).

Record LapTiming := mkTiming {
  lap_len_m : F;
  split_dist : list F;
  lap_count : Z;
  armed : bool;
  lap_start_ts : F;
  lap_progress_m : F;
  current_splits : splits;
  last_splits : splits;
  best_splits : splits;
  best_split_segments : splits;
  last_lap : option F;
  best_lap : option F;
  prev_s : option F
}.

(** [LapTiming(lap_len_m)] *)
Definition new_timing (L : F) : LapTiming :=
  mkTiming L [(L / flit 3)%F; ((flit 2 * L) / flit 3)%F; L] 0 false
           (flit 0) (flit 0)
           [None; None; None] [None; None; None] [None; None; None]
           [None; None; None] None None None.

(** The dict [snapshot] returns. *)
Record Snapshot := mkSnapshot {
  snap_lap_count : Z;
  current_lap_sec : option F;
  last_lap_sec : option F;
  best_lap_sec : option F;
  current_splits_sec : splits;
  last_splits_sec : splits;
  best_splits_sec : splits;
  best_split_segments_sec : splits;
  current_split_idx : Z;
  split_delta_sec : option F;
  snap_lap_progress_m : option F
}.

(** The dict [update] returns for a completed lap. *)
Record CompletedLap := mkLap {
  lap_number : Z;
  lap_time_sec : F;
  splits_sec : splits;
  completed_at_sec : F
}.

(** [l[i] = v]; [None] is the [IndexError]. *)
Definition set_item {A} (l : list A) (i : nat) (v : A) : option (list A) :=
  if (i <? length l)%nat then Some (<[i := v]> l) else None.

(** [_split_segments]; [None] is the [ValueError] of unpacking a list that
    has not three items. *)
Definition _split_segments (cumulative_splits : splits) : option splits :=
  match cumulative_splits with
  | [s1; s2; s3] =>
    let seg2 := match s1, s2 with
                | Some a, Some b => Some (b - a)%F
                | _, _ => None
                end in
    let seg3 := match s2, s3 with
                | Some a, Some b => Some (b - a)%F
                | _, _ => None
                end in
    Some [s1; seg2; seg3]
  | _ => None
  end.

(** [snapshot(ts_sec)]; [None] when an index is out of range. *)
Definition snapshot (t : LapTiming) (ts_sec : F) : option Snapshot :=
  let current_lap :=
    if armed t && (lap_start_ts t >? flit 0)%F
    then Some (py_max (ts_sec - lap_start_ts t)%F (flit 0)) else None in
  idx ← (if armed t then
           d0 ← split_dist t !! 0%nat;
           if (lap_progress_m t <? d0)%F then Some 1
           else d1 ← split_dist t !! 1%nat;
                if (lap_progress_m t <? d1)%F then Some 2 else Some 3
         else Some 0);
  delta ← (match current_lap with
           | Some cl =>
             if armed t && (0 <? idx) then
               current_segment ←
                 (if idx =? 1 then Some (Some cl)
                  else if idx =? 2 then
                    split1 ← current_splits t !! 0%nat;
                    Some (match split1 with
                          | Some s1 => Some (cl - s1)%F
                          | None => None
                          end)
                  else
                    split2 ← current_splits t !! 1%nat;
                    Some (match split2 with
                          | Some s2 => Some (cl - s2)%F
                          | None => None
                          end));
               best_segment ← best_split_segments t !! Z.to_nat (idx - 1);
               Some (match current_segment, best_segment with
                     | Some c, Some b => Some (c - b)%F
                     | _, _ => None
                     end)
             else Some None
           | None => Some None
           end);
  Some (mkSnapshot (lap_count t) current_lap (last_lap t) (best_lap t)
          (current_splits t) (last_splits t) (best_splits t)
          (best_split_segments t) idx delta
          (if armed t then Some (lap_progress_m t) else None)).

(** [ds = s_m - prev_s], wrapped toward the short side. *)
Definition wrap_ds (L s_m prev : F) : F :=
  let ds := (s_m - prev)%F in
  if (ds <? - (L * flit 0.5))%F then (ds + L)%F
  else if (ds >? L * flit 0.5)%F then (ds - L)%F
  else ds.

(** The [for i in range(3)] loop that captures splits. *)
Fixpoint capture_splits (ixs : list nat) (dist : list F) (progress elapsed : F)
    (cur : splits) : option splits :=
  match ixs with
  | [] => Some cur
  | i :: rest =>
    c ← cur !! i;
    match c with
    | None =>
      d ← dist !! i;
      if (progress >=? d)%F
      then cur' ← set_item cur i (Some elapsed);
           capture_splits rest dist progress elapsed cur'
      else capture_splits rest dist progress elapsed cur
    | Some _ => capture_splits rest dist progress elapsed cur
    end
  end.

(** The [for i, split_time in enumerate(self.last_splits)] loop of a valid
    lap: the best cumulative splits and the best segments. *)
Fixpoint update_bests (i : nat) (lasts segments : splits)
    (bests best_segments : splits) : option (splits * splits) :=
  match lasts with
  | [] => Some (bests, best_segments)
  | None :: rest => update_bests (S i) rest segments bests best_segments
  | Some split_time :: rest =>
    b ← bests !! i;
    bests' ← (match b with
              | None => set_item bests i (Some split_time)
              | Some bv => if (split_time <? bv)%F
                           then set_item bests i (Some split_time)
                           else Some bests
              end);
    seg ← segments !! i;
    best_segments' ←
      (match seg with
       | None => Some best_segments
       | Some segment_time =>
         bs ← best_segments !! i;
         match bs with
         | None => set_item best_segments i (Some segment_time)
         | Some bsv => if (segment_time <? bsv)%F
                       then set_item best_segments i (Some segment_time)
                       else Some best_segments
         end
       end);
    update_bests (S i) rest segments bests' best_segments'
  end.

(** [update(ts_sec, s_m)]: the new state, the snapshot and the completed
    lap, if any; [None] when it raises. *)
Definition update (t : LapTiming) (ts_sec s_m : F)
  : option (LapTiming * Snapshot * option CompletedLap) :=
  match prev_s t with
  | None =>
    let t1 := mkTiming (lap_len_m t) (split_dist t) (lap_count t) (armed t)
                (lap_start_ts t) (lap_progress_m t) (current_splits t)
                (last_splits t) (best_splits t) (best_split_segments t)
                (last_lap t) (best_lap t) (Some s_m) in
    snap ← snapshot t1 ts_sec; Some (t1, snap, None)
  | Some prev =>
    let ds := wrap_ds (lap_len_m t) s_m prev in
    if negb (armed t) then
      let t1 :=
        if (ds >? flit 0)%F && (s_m <? lap_len_m t * flit 0.12)%F
        then mkTiming (lap_len_m t) (split_dist t) (lap_count t) true
               ts_sec (flit 0) [None; None; None]
               (last_splits t) (best_splits t) (best_split_segments t)
               (last_lap t) (best_lap t) (Some s_m)
        else mkTiming (lap_len_m t) (split_dist t) (lap_count t) (armed t)
               (lap_start_ts t) (lap_progress_m t) (current_splits t)
               (last_splits t) (best_splits t) (best_split_segments t)
               (last_lap t) (best_lap t) (Some s_m) in
      snap ← snapshot t1 ts_sec; Some (t1, snap, None)
    else
      let progress := (lap_progress_m t + py_max ds (flit 0))%F in
      let elapsed := (ts_sec - lap_start_ts t)%F in
      cur ← capture_splits [0; 1; 2]%nat (split_dist t) progress elapsed
              (current_splits t);
      if (progress >=? lap_len_m t)%F then
        let lap_time := elapsed in
        let is_valid_lap := (lap_time >=? flit MIN_VALID_LAP_SEC)%F in
        let best_lap' :=
          if is_valid_lap
             && match best_lap t with
                | None => true
                | Some b => (lap_time <? b)%F
                end
          then Some lap_time else best_lap t in
        let lap_count' := lap_count t + 1 in
        let last_splits' := cur in
        bests ← (if is_valid_lap then
                   segments ← _split_segments last_splits';
                   update_bests 0 last_splits' segments (best_splits t)
                     (best_split_segments t)
                 else Some (best_splits t, best_split_segments t));
        let completed := mkLap lap_count' lap_time last_splits' ts_sec in
        let t1 := mkTiming (lap_len_m t) (split_dist t) lap_count' (armed t)
                    ts_sec (py_max (progress - lap_len_m t)%F (flit 0))
                    [None; None; None] last_splits' bests.1 bests.2
                    (Some lap_time) best_lap' (Some s_m) in
        snap ← snapshot t1 ts_sec; Some (t1, snap, Some completed)
      else
        let t1 := mkTiming (lap_len_m t) (split_dist t) (lap_count t) (armed t)
                    (lap_start_ts t) progress cur
                    (last_splits t) (best_splits t) (best_split_segments t)
                    (last_lap t) (best_lap t) (Some s_m) in
        snap ← snapshot t1 ts_sec; Some (t1, snap, None)
  end.

(** A timing state as the constructor and the two [apply_*] methods leave
    it: every list has three items. *)
Definition well_formed (t : LapTiming) : Prop :=
  length (split_dist t) = 3%nat /\ length (current_splits t) = 3%nat /\
  length (last_splits t) = 3%nat /\ length (best_splits t) = 3%nat /\
  length (best_split_segments t) = 3%nat.

End LapTiming.

Arguments LapTiming F : clear implicits.
Arguments Snapshot F : clear implicits.
Arguments CompletedLap F : clear implicits.

(** A running lap of a 3000 m circuit, 1550 m in after 8 s, with records
    from earlier laps. *)
Definition short_lap_state : LapTiming float :=
  mkTiming 3000%float [1000; 2000; 3000]%float 4 true 1%float 1550%float
    [Some 3.5%float; None; None]
    [Some 21%float; Some 41%float; Some 62%float]
    [Some 21%float; Some 40%float; Some 61%float]
    [Some 21%float; Some 19%float; Some 20%float]
    (Some 62%float) (Some 61%float) (Some 1600%float).

End Timing.

(** * Files on disk ([Path.write_text], [Path.replace]) *)
Module Disk.

(** Path to content, for the files that exist. *)
Abbreviation fs := (gmap string string).

(** What a process does to files, one system call after the other. *)
Inductive fs_op :=
| OpenTruncate (p : string)
| WriteAppend (p : string) (data : string)
| Rename (src dst : string).

Definition apply_op (d : fs) (op : fs_op) : fs :=
  match op with
  | OpenTruncate p => <[p := EmptyString]> d
  | WriteAppend p data =>
    <[p := (match d !! p with Some old => old | None => EmptyString end
            ++ data)%string]> d
  | Rename src dst =>
    match d !! src with
    | Some content => <[dst := content]> (delete src d)
    | None => d
    end
  end.

Definition run_ops (d : fs) (ops : list fs_op) : fs := fold_left apply_op ops d.

(** The states of the disk an observer (or a crash) can meet while [ops]
    run: after none, one, two, ... of them. *)
Fixpoint states_during (d : fs) (ops : list fs_op) : list fs :=
  match ops with
  | [] => [d]
  | op :: rest => d :: states_during (apply_op d op) rest
  end.

(** [path.write_text(data)]: the file is opened for writing, which creates
    or truncates it, and the text is written. *)
Definition write_text (p : string) (data : string) : list fs_op :=
  [OpenTruncate p; WriteAppend p data].

(** [write_json_atomic(path, payload)] of the telemetry logger, on the
    serialized payload: the text goes to the sibling [path + ".tmp"], which
    then replaces [path]. *)
Definition write_json_atomic (p : string) (serialized : string) : list fs_op :=
  let tmp := (p ++ ".tmp")%string in
  write_text tmp (serialized ++ String "010" EmptyString)%string
  ++ [Rename tmp p].

End Disk.

(** * The records store ([DriverRecordsStore]) *)
Module Records.
Import Num Timing Disk.

Section Store.

Context {F : Type} `{PyFloat F}.

(** A lap as [SharedState.update] stores it. *)
Record LapEntry := mkEntry {
  entry_lap : CompletedLap F;
  entry_driver : string;
  entry_session_id : Z
}.

Record Session := mkSession {
  laps : list LapEntry;
  created_at_sec : F
}.

(** The sessions are keyed by the session number (its decimal text in the
    JSON document). *)
Record DriverData := mkDriver {
  current_session_id : Z;
  sessions : gmap Z Session
}.

Record DriverRecordsStore := mkStore {
  path : string;
  data : gmap string DriverData
}.

(** [json.dumps(self.data, indent=2, sort_keys=True)] *)
Variable dumps : gmap string DriverData -> string.

Definition _empty_driver (now : F) : DriverData :=
  mkDriver 1 {[ 1 := mkSession [] now ]}.

Definition ensure_driver (st : DriverRecordsStore) (driver : string) (now : F)
  : DriverRecordsStore :=
  match data st !! driver with
  | Some _ => st
  | None => mkStore (path st) (<[driver := _empty_driver now]> (data st))
  end.

Definition driver_session_id (st : DriverRecordsStore) (driver : string) : Z :=
  match data st !! driver with
  | Some d => current_session_id d
  | None => 1
  end.

(** [persist]: the document is serialized and written to the records file
    itself. *)
Definition persist_ops (st : DriverRecordsStore) : list fs_op :=
  write_text (path st) (dumps (data st)).

Definition persist (st : DriverRecordsStore) (disk : fs) : fs :=
  run_ops disk (persist_ops st).

(** [add_lap(driver, lap)]: the store with the lap appended to the current
    session of the driver. *)
Definition add_lap_data (st : DriverRecordsStore) (driver : string)
    (lap : LapEntry) (now : F) : DriverRecordsStore :=
  let st1 := ensure_driver st driver now in
  match data st1 !! driver with
  | None => st1
  | Some driver_data =>
    let session_id := current_session_id driver_data in
    let session := match sessions driver_data !! session_id with
                   | Some s => s
                   | None => mkSession [] now
                   end in
    let session' := mkSession (laps session ++ [lap]) (created_at_sec session) in
    mkStore (path st1)
      (<[driver := mkDriver (current_session_id driver_data)
                     (<[session_id := session']> (sessions driver_data))]>
         (data st1))
  end.

Definition add_lap (st : DriverRecordsStore) (disk : fs) (driver : string)
    (lap : LapEntry) (now : F) : DriverRecordsStore * fs :=
  let st1 := add_lap_data st driver lap now in
  (st1, persist st1 disk).

Definition reset_session (st : DriverRecordsStore) (disk : fs) (driver : string)
    (now : F) : DriverRecordsStore * fs * Z :=
  let st1 := ensure_driver st driver now in
  match data st1 !! driver with
  | None => (st1, disk, 1)
  | Some driver_data =>
    let next_id := current_session_id driver_data + 1 in
    let st2 := mkStore (path st1)
      (<[driver := mkDriver next_id
                     (<[next_id := mkSession [] now]> (sessions driver_data))]>
         (data st1)) in
    (st2, persist st2 disk, next_id)
  end.

End Store.

Arguments LapEntry F : clear implicits.
Arguments Session F : clear implicits.
Arguments DriverData F : clear implicits.
Arguments DriverRecordsStore F : clear implicits.

End Records.

(** * Track geometry ([TrackGeometry.project]) *)
Module Geometry.
Import Num.

Section Track.

Context {F : Type} `{PyFloat F}.
(** [pow2 x] is [x ** 2], computed by the [pow] of the C library: [None]
    is the [OverflowError] of a square too large for a float.  [fsqrt] is
    [math.sqrt], which [project] applies to a sum of two squares. *)
Variable pow2 : F -> option F.
Variable fsqrt : F -> F.

(** The fields [TrackGeometry.__init__] computes from the track points. *)
Record TrackGeometry := mkTrack {
  m_per_deg_lat : F;
  m_per_deg_lon : F;
  xy : list (F * F);
  cum_len : list F;
  seg_len : list F;
  total_len_m : F
}.

Definition to_xy (tg : TrackGeometry) (lat lon : F) : F * F :=
  ((lon * m_per_deg_lon tg)%F, (lat * m_per_deg_lat tg)%F).

(** The point of segment [i] nearest to [(px, py)]: its parameter [t] on
    the segment and the two offsets [px - cx] and [py - cy]. *)
Definition nearest (tg : TrackGeometry) (px py : F) (i : Z)
  : option (F * F * F) :=
  p1 ← xy tg !! Z.to_nat i;
  p2 ← xy tg !! Z.to_nat (i + 1);
  let '(x1, y1) := p1 in
  let '(x2, y2) := p2 in
  let vx := (x2 - x1)%F in
  let vy := (y2 - y1)%F in
  let seg2 := (vx * vx + vy * vy)%F in
  let t := if (seg2 <=? flit 1e-9)%F then flit 0
           else py_max (flit 0)
                  (py_min (flit 1) (((px - x1) * vx + (py - y1) * vy) / seg2)%F) in
  let cx := (x1 + t * vx)%F in
  let cy := (y1 + t * vy)%F in
  Some (t, (px - cx)%F, (py - cy)%F).

(** The body of the loop over the candidate segments: [best], [best_idx]
    and [best_t] after segment [i]. *)
Definition project_segment (tg : TrackGeometry) (px py : F)
    (acc : option F * Z * F) (i : Z) : option (option F * Z * F) :=
  let '(best, best_idx, best_t) := acc in
  near ← nearest tg px py i;
  let '(t, ex, ey) := near in
  ex2 ← pow2 ex;
  ey2 ← pow2 ey;
  let d2 := (ex2 + ey2)%F in
  match best with
  | None => Some (Some d2, i, t)
  | Some b => if (d2 <? b)%F then Some (Some d2, i, t)
              else Some (best, best_idx, best_t)
  end.

Fixpoint project_loop (tg : TrackGeometry) (px py : F)
    (acc : option F * Z * F) (idxs : list Z) : option (option F * Z * F) :=
  match idxs with
  | [] => Some acc
  | i :: rest =>
    acc' ← project_segment tg px py acc i;
    project_loop tg px py acc' rest
  end.

(** [project(lat, lon, hint_seg_idx)]: arc length, segment index and error;
    [None] when it raises (no segment, an index out of range, or a square
    that overflows). *)
Definition project (tg : TrackGeometry) (lat lon : F) (hint_seg_idx : Z)
  : option (F * Z * F) :=
  let '(px, py) := to_xy tg lat lon in
  let n := Z.of_nat (length (seg_len tg)) in
  if n =? 0 then None
  else
    let idxs := map (fun k => (hint_seg_idx + k) mod n) (seqZ (-8) 17) in
    acc ← project_loop tg px py (None, 0, flit 0) idxs;
    let '(best, best_idx, best_t) := acc in
    c ← cum_len tg !! Z.to_nat best_idx;
    l ← seg_len tg !! Z.to_nat best_idx;
    let s := (c + best_t * l)%F in
    let err_m := match best with Some b => fsqrt b | None => flit 0 end in
    Some (s, best_idx, err_m).

(** One of the two squares [** 2] of the loop body raises on segment
    [i]. *)
Definition overflows (tg : TrackGeometry) (px py : F) (i : Z) : Prop :=
  exists t ex ey,
    nearest tg px py i = Some (t, ex, ey) /\ (pow2 ex = None \/ pow2 ey = None).

End Track.

Arguments TrackGeometry F : clear implicits.

End Geometry.

(** * The shared HUD state ([SharedState.update]) *)
Module Hud.
Import Num Timing Disk Records Geometry.

Section SharedState.

Context {F : Type} `{PyFloat F}.
Variable pow2 : F -> option F.
Variable fsqrt : F -> F.
Variable dumps : gmap string (DriverData F) -> string.

Local Abbreviation splits := (list (option F)).

(** A GPS message: [lat] and [lon] as floats, and [ts_ns] when it is an
    integer. *)
Record Payload := mkPayload {
  lat : F;
  lon : F;
  ts_ns : option Z
}.

(** The row kept as [latest]: the payload and the four keys added to it. *)
Record Row := mkRow {
  row_payload : Payload;
  track_s_m : F;
  lap_distance_m : option F;
  track_error_m : F;
  row_driver : string
}.

Record SplitEvent := mkSplitEvent {
  ev_driver : string;
  ev_session_id : Z;
  ev_lap_number : Z;
  split_index : Z;
  split_cumulative_sec : F;
  split_segment_sec : option F;
  ev_ts_ns : Z
}.

(** What leaves the process: MQTT publications and InfluxDB writes. *)
Inductive Emitted :=
| PublishSplit (topic : string) (ev : SplitEvent)
| InfluxSplit (ev : SplitEvent)
| PublishLap (topic : string) (lap : LapEntry F)
| InfluxLap (lap : LapEntry F) (at_ns : Z).

(** The object, the disk under its records store and what it has emitted
    so far. *)
Record SharedState := mkShared {
  latest : option Row;
  seq : Z;
  history : list (F * F);
  history_size : Z;
  track : TrackGeometry F;
  active_driver : string;
  records : DriverRecordsStore F;
  timings : gmap string (LapTiming F);
  last_seg_idx : Z;
  events_topic_base : string;
  _timing_snapshot : option (Snapshot F);
  disk : fs;
  emitted : list Emitted
}.

(** [deque(maxlen=n).append(x)] *)
Definition deque_append {A} (maxlen : Z) (q : list A) (x : A) : list A :=
  if maxlen =? 0 then []
  else if Z.of_nat (length q) >=? maxlen then drop 1 q ++ [x]
  else q ++ [x].

(** The time of a fix: its own [ts_ns] when that is a positive integer,
    the clock otherwise; [None] is the [OverflowError] of a [ts_ns] too
    large for a float. *)
Definition fix_time (payload : Payload) (now : F) : option F :=
  match ts_ns payload with
  | Some n => if 0 <? n then x ← f_of_int n; Some (x / flit 1000000000)%F
              else Some now
  | None => Some now
  end.

(** The split events of one update, oldest first; [None] when an index is
    out of range or [int(ts_sec * 1_000_000_000)] raises. *)
Fixpoint split_events (idxs : list nat) (prev_splits cur : splits)
    (driver : string) (session_id lap_count : Z) (ts_sec : F)
    (base : string) : option (list Emitted) :=
  match idxs with
  | [] => Some []
  | i :: rest =>
    old_v ← (prev_splits !! i : option (option F));
    new_v ← (cur !! i : option (option F));
    here ←
      (match old_v, new_v with
       | None, Some v =>
         seg_time ←
           (match i with
            | O => Some (Some v)
            | S j =>
              b ← (cur !! j : option (option F));
              Some (match b with
                    | Some bv => Some (v - bv)%F
                    | None => None
                    end)
            end);
         at_ns ← f_to_int (ts_sec * flit 1000000000)%F;
         let ev := mkSplitEvent driver session_id (lap_count + 1)
                     (Z.of_nat i + 1) v seg_time at_ns in
         Some [PublishSplit (base ++ "/" ++ driver ++ "/splits") ev;
               InfluxSplit ev]
       | _, _ => Some []
       end);
    later ← split_events rest prev_splits cur driver session_id lap_count
              ts_sec base;
    Some (here ++ later)
  end.

(** [update(payload)]; [now] is what [time.time()] returns.  [None] when it
    raises. *)
Definition update (st : SharedState) (payload : Payload) (now : F)
  : option SharedState :=
  p ← project pow2 fsqrt (track st) (lat payload) (lon payload)
        (last_seg_idx st);
  let '(s_m, seg_idx, err_m) := p in
  let st0 := mkShared (latest st) (seq st) (history st) (history_size st)
               (track st) (active_driver st) (records st) (timings st)
               seg_idx (events_topic_base st) (_timing_snapshot st)
               (disk st) (emitted st) in
  if (err_m >? flit MAX_TRACK_ERROR_M)%F then Some st0
  else
    ts_sec ← fix_time payload now;
    let driver := active_driver st in
    timing_state ← timings st !! driver;
    let prev_splits := current_splits timing_state in
    r ← Timing.update timing_state ts_sec s_m;
    let '(timing_state', timing, completed_lap) := r in
    let records1 := ensure_driver (records st) driver now in
    let session_id := driver_session_id records1 driver in
    evs ← split_events [0; 1; 2]%nat prev_splits (current_splits timing_state')
            driver session_id (lap_count timing_state') ts_sec
            (events_topic_base st);
    lapped ←
      match completed_lap with
      | Some lap =>
        let lap_entry := mkEntry lap driver session_id in
        let '(r2, d2) := add_lap dumps records1 (disk st) driver lap_entry now in
        at_ns ← f_to_int (ts_sec * flit 1000000000)%F;
        Some (r2, d2,
              [PublishLap (events_topic_base st ++ "/" ++ driver ++ "/laps")
                 lap_entry;
               InfluxLap lap_entry at_ns])
      | None => Some (records1, disk st, [])
      end;
    let '(records2, disk2, lap_evs) := lapped in
    let row := mkRow payload s_m
                 (if armed timing_state' then Some (lap_progress_m timing_state')
                  else None)
                 err_m driver in
    Some (mkShared (Some row) (seq st + 1)
            (deque_append (history_size st) (history st)
               (lat payload, lon payload))
            (history_size st) (track st) (active_driver st) records2
            (<[driver := timing_state']> (timings st))
            seg_idx (events_topic_base st) (Some timing) disk2
            (emitted st ++ evs ++ lap_evs)).

End SharedState.

Arguments SharedState F : clear implicits.
Arguments Payload F : clear implicits.

(** A 1000 m by 200 m rectangle walked in 24 segments of 100 m: ten along
    the bottom, two up the right side, ten back along the top, two down
    the left side. *)
Definition rectangle_xy : list (float * float) :=
  map (fun i => (float_of_Z (100 * i), 0%float)) (seqZ 0 10)
  ++ map (fun i => (1000%float, float_of_Z (100 * i))) (seqZ 0 2)
  ++ map (fun i => (float_of_Z (1000 - 100 * i), 200%float)) (seqZ 0 10)
  ++ map (fun i => (0%float, float_of_Z (200 - 100 * i))) (seqZ 0 3).

Definition rectangle : TrackGeometry float :=
  mkTrack 111132.92%float 111412.84%float rectangle_xy
    (map (fun i => float_of_Z (100 * i)) (seqZ 0 25))
    (replicate 24 100%float) 2400%float.

(** The position [(x, y)] in metres as a GPS message. *)
Definition fix_at (x y : float) : Payload float :=
  mkPayload (y / 111132.92)%float (x / 111412.84)%float (Some 5000000000).

Definition hud0 : SharedState float :=
  mkShared None 0 [] 100 rectangle "Stig"
    (mkStore "records.json" ∅)
    {[ "Stig"%string := new_timing 2400%float ]}
    0 "drivers" None ∅ [].

Definition no_dumps (d : gmap string (DriverData float)) : string := "{}".

End Hud.

(** * Frames in a byte stream *)
Module Wire.
Import Frame.

(** A frame as the parser accepts it: the sentinel first, the payload
    length fourth, as many bytes as the length byte announces, and the sum
    of all bytes but the last in the last one. *)
Definition well_framed (frame : list Z) : Prop :=
  exists payload_len ck,
    frame !! 0%nat = Some 128 /\
    frame !! 3%nat = Some payload_len /\
    length frame = (4 + Z.to_nat payload_len + 1)%nat /\
    py_last frame = Some ck /\
    checksum (py_init frame) = ck.

(** What the parser leaves in the buffer: less than the shortest frame, or
    the start of a frame whose announced end has not arrived. *)
Definition waiting (rest : list Z) : Prop :=
  (length rest < 5)%nat \/
  exists payload_len,
    rest !! 0%nat = Some 128 /\
    rest !! 3%nat = Some payload_len /\
    (length rest < 4 + Z.to_nat payload_len + 1)%nat.

(** Frames laid out in a stream, each after the bytes skipped before it. *)
Fixpoint interleave (gaps frames : list (list Z)) : list Z :=
  match gaps, frames with
  | g :: gs, f :: fs => g ++ f ++ interleave gs fs
  | _, _ => []
  end.

(** What holds of the loop counter and of the frames collected so far at
    every iteration of the parser. *)
Definition parsed (buf : list Z) (i : nat) (frames : list (list Z)) : Prop :=
  (i <= length buf)%nat /\ Forall well_framed frames /\
  exists gaps skipped,
    length gaps = length frames /\
    take i buf = interleave gaps frames ++ skipped.

(** [to_u16_be] *)
Definition to_u16_be (msb lsb : Z) : Z := Z.lor (Z.shiftl msb 8) lsb.

End Wire.

(** * Timing restored from the records ([LapTiming.apply_benchmarks],
      [LapTiming.apply_recent]) and runs of updates *)
Module Restore.
Import Num Timing.

Section Restore.

Context {F : Type} `{PyFloat F}.

(** [l[:3] + [None] * max(0, 3 - len(l))], cut to three items again. *)
Definition pad3 (l : list (option F)) : list (option F) :=
  take 3 (take 3 l
          ++ replicate (Z.to_nat (Z.max 0 (3 - Z.of_nat (length l)))) None).

(** [apply_benchmarks(best_lap, best_splits, best_segments)] on a float or
    [None] and two lists of floats and [None]s. *)
Definition apply_benchmarks (t : LapTiming F) (best_lap' : option F)
    (best_splits' best_segments : list (option F)) : LapTiming F :=
  mkTiming (lap_len_m t) (split_dist t) (lap_count t) (armed t)
    (lap_start_ts t) (lap_progress_m t) (current_splits t) (last_splits t)
    (pad3 best_splits') (pad3 best_segments) (last_lap t)
    (match best_lap' with
     | Some b => if (b >=? flit MIN_VALID_LAP_SEC)%F then Some b else None
     | None => None
     end)
    (prev_s t).

(** The item [safe_splits] receives for index [i]. *)
Definition safe_split (last_splits' : list (option F)) (i : nat) : option F :=
  match last_splits' !! i with
  | Some (Some v) => if (v >? flit 0)%F then Some v else None
  | _ => None
  end.

(** [apply_recent(last_lap, last_splits, lap_count)] *)
Definition apply_recent (t : LapTiming F) (last_lap' : option F)
    (last_splits' : list (option F)) (lap_count' : Z) : LapTiming F :=
  mkTiming (lap_len_m t) (split_dist t) (Z.max lap_count' 0) (armed t)
    (lap_start_ts t) (lap_progress_m t) (current_splits t)
    (map (safe_split last_splits') [0; 1; 2]%nat)
    (best_splits t) (best_split_segments t)
    (match last_lap' with
     | Some v => if (v >? flit 0)%F then Some v else last_lap t
     | None => last_lap t
     end)
    (best_lap t) (prev_s t).

(** A run of [update] calls, one per fix [(ts_sec, s_m)]; [None] when one
    of them raises. *)
Fixpoint run_updates (t : LapTiming F) (fixes : list (F * F))
  : option (LapTiming F) :=
  match fixes with
  | [] => Some t
  | (ts_sec, s_m) :: rest =>
    r ← update t ts_sec s_m; run_updates r.1.1 rest
  end.

(** The third split line is the finish line, and the third split of the
    lap under way is not taken yet. *)
Definition third_split_open (t : LapTiming F) : Prop :=
  split_dist t !! 2%nat = Some (lap_len_m t) /\
  current_splits t !! 2%nat = Some None.

(** [min] of two optional times, an absent one giving way. *)
Definition faster (new old : option F) : option F :=
  match new, old with
  | Some a, Some b => if (a <? b)%F then Some a else Some b
  | Some a, None => Some a
  | None, _ => old
  end.

End Restore.

End Restore.

(** * Well-formed tracks, stored laps and the splits emitted *)
Module Shape.
Import Num Timing Disk Records Geometry Hud.

Section Shape.

Context {F : Type} `{PyFloat F}.

(** What [TrackGeometry.__init__] builds: at least one segment, one point
    more than segments, and a cumulative length per point. *)
Definition track_ok (tg : TrackGeometry F) : Prop :=
  (1 <= length (seg_len tg))%nat /\
  length (xy tg) = S (length (seg_len tg)) /\
  length (cum_len tg) = S (length (seg_len tg)).

(** The laps stored for a driver under a session number; none when the
    driver or the session is unknown. *)
Definition session_laps (st : DriverRecordsStore F) (driver : string)
    (session_id : Z) : list (LapEntry F) :=
  match data st !! driver with
  | Some d => match sessions d !! session_id with
              | Some s => laps s
              | None => []
              end
  | None => []
  end.

(** The split number an emitted event carries, if it is a split event. *)
Definition emitted_split (e : Emitted (F:=F)) : option Z :=
  match e with
  | PublishSplit _ ev => Some (split_index ev)
  | InfluxSplit ev => Some (split_index ev)
  | _ => None
  end.

End Shape.

(** The rectangle with a lap of the driver under way, 700 m in. *)
Definition hud_running : SharedState float :=
  mkShared None 7 [] 100 rectangle "Stig"
    (mkStore "records.json" ∅)
    {[ "Stig"%string :=
         mkTiming 2400%float [800; 1600; 2400]%float 0 true 1%float 700%float
           [None; None; None] [None; None; None] [None; None; None]
           [None; None; None] None None (Some 700%float) ]}
    7 "drivers" None ∅ [].

End Shape.

(** * The parameters a read can decode, and the legacy parameter table
      ([bytes_for_params], [decode_params]) *)
Module Params.
Import Expr.

Section Params.

Context {F : Type}.

(** The parameters of which every byte is in the address map. *)
Definition decoded_params (data_by_addr : gmap Z Z)
    (params : list (RRParam (F:=F))) : list (RRParam (F:=F)) :=
  filter (fun p => is_Some (bytes_for_param data_by_addr p)) params.

(** A [ParamDef]: its [decoder] is a function of the raw bytes, [None]
    when it raises. *)
Record ParamDef := mkParamDef {
  pd_name : string;
  pd_addr : Z;
  pd_size : Z;
  pd_unit : string;
  decoder : list Z -> option F
}.

(** The list [addrs] of [bytes_for_params] before [sorted(set(addrs))]. *)
Definition param_addrs (params : list ParamDef) : list Z :=
  flat_map (fun p => map (fun i => pd_addr p + i) (seqZ 0 (pd_size p))) params.

(** [bytes_for_params]: the distinct addresses in increasing order. *)
Definition bytes_for_params (params : list ParamDef) : list Z :=
  merge_sort Z.le (remove_dups (param_addrs params)).

(** [decode_params]: [None] stands for the [KeyError] of a missing address
    and for whatever a decoder raises. *)
Fixpoint decode_params_loop (data_by_addr : gmap Z Z) (params : list ParamDef)
    (decoded : gmap string (F * string)) : option (gmap string (F * string)) :=
  match params with
  | [] => Some decoded
  | p :: rest =>
    raw ← mapM (fun i => data_by_addr !! (pd_addr p + i)) (seqZ 0 (pd_size p));
    v ← decoder p raw;
    decode_params_loop data_by_addr rest (<[pd_name p := (v, pd_unit p)]> decoded)
  end.

Definition decode_params (data_by_addr : gmap Z Z) (params : list ParamDef)
  : option (gmap string (F * string)) :=
  decode_params_loop data_by_addr params ∅.

End Params.

Arguments ParamDef F : clear implicits.

End Params.

(** * Diagnostic trouble codes ([flagbyte_bit],
      [enumerate_supported_dtc_addr_pairs], [decode_dtc_hits]) *)
Module Dtc.

Definition flagbyte_bit (flagbytes : list Z) (byte_index bit_index : Z) : bool :=
  if (byte_index <? 0) || (byte_index >=? Z.of_nat (length flagbytes)) then false
  else if (bit_index <? 0) || (bit_index >? 7) then false
  else match flagbytes !! Z.to_nat byte_index with
       | Some b => negb (Z.land b (Z.shiftl 1 bit_index) =? 0)
       | None => false
       end.

(** The local function [add_range] on the list it appends to. *)
Definition add_range (pairs : list (Z * Z)) (start end_ hist_delta : Z)
  : list (Z * Z) :=
  pairs ++ map (fun addr => (addr, addr + hist_delta))
               (seqZ start (end_ + 1 - start)).

Definition enumerate_supported_dtc_addr_pairs (flagbytes : list Z)
  : bool * list (Z * Z) :=
  let fmt_obd2 := negb (flagbyte_bit flagbytes 29 7) in
  if negb fmt_obd2 then (fmt_obd2, add_range [] 142 152 22)
  else
    let pairs := [] in
    let pairs := if flagbyte_bit flagbytes 29 4 || flagbyte_bit flagbytes 29 6
                 then add_range pairs 142 173 32 else pairs in
    let pairs := if flagbyte_bit flagbytes 28 0
                 then add_range pairs 240 243 4 else pairs in
    let pairs :=
      if Z.of_nat (length flagbytes) >? 32 then
        let pairs := if flagbyte_bit flagbytes 39 7
                     then add_range pairs 291 298 8 else pairs in
        let pairs := if flagbyte_bit flagbytes 39 6
                     then add_range pairs 336 340 5 else pairs in
        let pairs := if flagbyte_bit flagbytes 39 5
                     then add_range pairs 352 356 5 else pairs in
        let pairs := if flagbyte_bit flagbytes 39 4
                     then add_range pairs 372 378 7 else pairs in
        if Z.of_nat (length flagbytes) >? 48 then
          let pairs := if flagbyte_bit flagbytes 50 6
                       then add_range (add_range pairs 449 454 6) 522 525 4
                       else pairs in
          if flagbyte_bit flagbytes 50 5
          then add_range pairs 611 615 5 else pairs
        else pairs
      else pairs in
    let pairs := match pairs with
                 | [] => add_range pairs 142 173 32
                 | _ => pairs
                 end in
    (fmt_obd2, pairs).

Record DtcEntry := mkDtcEntry {
  curr_addr : Z;
  hist_addr : Z;
  entry_bit : Z;
  code : string;
  title : string
}.

Record DtcHit := mkDtcHit {
  hit_addr : Z;
  hit_bit : Z;
  hit_code : string;
  hit_title : string
}.

(** [x or default] on strings. *)
Definition str_or (x default : string) : string :=
  match x with EmptyString => default | _ => x end.

(** The sort key [(h.code, h.addr, h.bit, h.title)], compared as Python
    compares tuples: strings by code point, integers by value. *)
Definition hit_leb (h1 h2 : DtcHit) : bool :=
  match String.compare (hit_code h1) (hit_code h2) with
  | Lt => true
  | Gt => false
  | Eq =>
    if hit_addr h1 <? hit_addr h2 then true
    else if hit_addr h2 <? hit_addr h1 then false
    else if hit_bit h1 <? hit_bit h2 then true
    else if hit_bit h2 <? hit_bit h1 then false
    else String.leb (hit_title h1) (hit_title h2)
  end.

Definition hit_le (h1 h2 : DtcHit) : Prop := hit_leb h1 h2 = true.

#[export] Instance hit_le_dec : RelDecision hit_le :=
  fun h1 h2 => decide (hit_leb h1 h2 = true).

Section Hits.

(** The text of
    [f"Unknown DTC bit (0x{curr_addr:04X}/0x{hist_addr:04X} bit {bit})"]. *)
Variable unknown_title : Z -> Z -> Z -> string.

(** What one set bit contributes: a hit, or nothing for a definition with
    neither code nor title. *)
Definition hit_of_bit (defs_by_key : gmap (Z * Z * Z) DtcEntry)
    (curr hist addr bit : Z) : list DtcHit :=
  match defs_by_key !! (curr, hist, bit) with
  | None => [mkDtcHit addr bit "???" (unknown_title curr hist bit)]
  | Some entry =>
    if String.eqb (code entry) "" && String.eqb (title entry) "" then []
    else [mkDtcHit addr bit (str_or (code entry) "???")
            (str_or (title entry) "(no description)")]
  end.

(** The body of the loop over [pairs]. *)
Definition hits_of_pair (values : gmap Z Z)
    (defs_by_key : gmap (Z * Z * Z) DtcEntry) (use_hist : bool)
    (pair : Z * Z) : list DtcHit :=
  let '(curr, hist) := pair in
  let addr := if use_hist then hist else curr in
  match values !! addr with
  | None => []
  | Some databyte =>
    flat_map (fun bit0 =>
                if Z.land databyte (Z.shiftl 1 bit0) =? 0 then []
                else hit_of_bit defs_by_key curr hist addr (bit0 + 1))
             (seqZ 0 8)
  end.

Definition decode_dtc_hits (pairs : list (Z * Z)) (values : gmap Z Z)
    (defs_by_key : gmap (Z * Z * Z) DtcEntry) (use_hist : bool)
  : list DtcHit :=
  merge_sort hit_le (flat_map (hits_of_pair values defs_by_key use_hist) pairs).

End Hits.

(** What [enumerate_supported_dtc_addr_pairs] guarantees of its pairs. *)
Definition pairs_ok (pairs : list (Z * Z)) : bool :=
  bool_decide (pairs <> [])
  && forallb (fun p => (142 <=? p.1) && (p.1 <=? 615) && (p.1 <? p.2)
                       && (p.2 <=? 620)) pairs
  && bool_decide (NoDup (pairs.*1 ++ pairs.*2))
  && (length pairs <=? 76)%nat.

End Dtc.

(** * Metric topics and profiles ([slugify_metric],
      [select_profile_params]) *)
Module Profile.
Import Text Expr.

(** [str.lower] on the code points below 256: the letters [A-Z] and the
    accented capitals (all of 192..222 but the multiplication sign). *)
Definition lower_char (c : ascii) : ascii :=
  let n := N_of_ascii c in
  if ((65 <=? n) && (n <=? 90))%N
     || ((192 <=? n) && (n <=? 222) && negb (n =? 215))%N
  then ascii_of_N (n + 32) else c.

Fixpoint lower (s : string) : string :=
  match s with
  | EmptyString => EmptyString
  | String c s' => String (lower_char c) (lower s')
  end.

(** The class [a-z0-9]. *)
Definition is_slug_alnum (c : ascii) : bool :=
  let n := N_of_ascii c in
  (((97 <=? n) && (n <=? 122)) || ((48 <=? n) && (n <=? 57)))%N.

Definition is_underscore (c : ascii) : bool := Ascii.eqb c "_".

(** [re.sub(r"[^a-z0-9]+", "_", s)]: [in_run] tells that the character
    before was replaced. *)
Fixpoint sub_non_alnum (in_run : bool) (s : string) : string :=
  match s with
  | EmptyString => EmptyString
  | String c s' =>
    if is_slug_alnum c then String c (sub_non_alnum false s')
    else if in_run then sub_non_alnum true s'
    else String "_" (sub_non_alnum true s')
  end.

(** [re.sub(r"_+", "_", s)] *)
Fixpoint sub_underscores (in_run : bool) (s : string) : string :=
  match s with
  | EmptyString => EmptyString
  | String c s' =>
    if is_underscore c
    then if in_run then sub_underscores true s'
         else String "_" (sub_underscores true s')
    else String c (sub_underscores false s')
  end.

(** [s.strip("_")] *)
Fixpoint lstrip_underscores (s : string) : string :=
  match s with
  | EmptyString => EmptyString
  | String c s' => if is_underscore c then lstrip_underscores s' else s
  end.

Fixpoint rstrip_underscores (s : string) : string :=
  match s with
  | EmptyString => EmptyString
  | String c s' =>
    match rstrip_underscores s' with
    | EmptyString => if is_underscore c then EmptyString
                     else String c EmptyString
    | r => String c r
    end
  end.

Definition strip_underscores (s : string) : string :=
  lstrip_underscores (rstrip_underscores s).

Definition slugify_metric (name : string) : string :=
  let topic := lower (strip name) in
  let topic := replace "air/fuel" "afr" topic in
  let topic := replace "a/f" "af" topic in
  let topic := replace "%" "pct" topic in
  let topic := replace "#" "" topic in
  let topic := replace "voltage" "v" topic in
  let topic := sub_non_alnum false topic in
  let topic := strip_underscores (sub_underscores false topic) in
  let topic := if String.eqb topic "battery_voltage" then "battery_v"%string
               else topic in
  if is_empty topic then "metric"%string else topic.

(** What makes a topic a slug: letters, digits and single underscores,
    none at either end. *)
Fixpoint all_slug (s : string) : bool :=
  match s with
  | EmptyString => true
  | String c s' => (is_slug_alnum c || is_underscore c) && all_slug s'
  end.

Fixpoint no_double_underscore (after_underscore : bool) (s : string) : bool :=
  match s with
  | EmptyString => true
  | String c s' =>
    if is_underscore c
    then negb after_underscore && no_double_underscore true s'
    else no_double_underscore false s'
  end.

Definition starts_with_underscore (s : string) : bool :=
  match s with
  | String c _ => is_underscore c
  | EmptyString => false
  end.

Fixpoint ends_with_underscore (s : string) : bool :=
  match s with
  | EmptyString => false
  | String c EmptyString => is_underscore c
  | String _ s' => ends_with_underscore s'
  end.

Definition FAST_PROFILE_TOPICS : list string :=
  ["engine_speed"; "vehicle_speed"; "manifold_absolute_pressure";
   "manifold_relative_pressure"; "throttle_opening_angle";
   "accelerator_opening_angle"; "mass_air_flow"; "intake_air_temperature";
   "coolant_temperature"; "ignition_timing"; "knock_correction"; "battery_v";
   "afr_sensor_1"; "afr_correction_1"; "afr_learning_1";
   "fuel_injector_1_pulse_width"; "fuel_injector_2_pulse_width";
   "primary_wastegate_duty_cycle"; "secondary_wastegate_duty_cycle";
   "fuel_pressure_high"; "main_throttle_sensor"; "main_accelerator_sensor"
  ]%string.

Definition in_fast (t : string) : bool :=
  existsb (String.eqb t) FAST_PROFILE_TOPICS.

Definition is_digit (c : ascii) : bool :=
  let n := N_of_ascii c in ((48 <=? n) && (n <=? 57))%N.

Fixpoint drop_digits (r : list ascii) : list ascii :=
  match r with
  | c :: r' => if is_digit c then drop_digits r' else r
  | [] => []
  end.

(** [re.sub(r"_\d+$", "", s)] on the characters of [s]: [$] matches at the
    end and before a newline that ends the text, so the underscore and the
    digits go from the end of the text without that newline.  The text is
    scanned from its end. *)
Definition strip_numeric_suffix (s : list ascii) : list ascii :=
  let newline := "010"%char in
  let '(body, tail) :=
    match reverse s with
    | c :: r => if Ascii.eqb c newline then (reverse r, [newline]) else (s, [])
    | [] => (s, [])
    end in
  match reverse body with
  | c :: r =>
    if is_digit c then
      match drop_digits r with
      | u :: pre => if is_underscore u then reverse pre ++ tail else s
      | [] => s
      end
    else s
  | [] => s
  end.

Definition base_topic (topic : string) : string :=
  string_of_list_ascii (strip_numeric_suffix (list_ascii_of_string topic)).

Section Select.

Context {F : Type}.

Definition is_fast_param (p : RRParam (F:=F)) : bool :=
  in_fast (topic p) || in_fast (base_topic (topic p)).

Definition select_profile_params (params : list (RRParam (F:=F)))
    (profile : string) : list (RRParam (F:=F)) :=
  if negb (String.eqb profile "fast") then params
  else
    let selected := List.filter is_fast_param params in
    match selected with
    | [] => params
    | _ => selected
    end.

End Select.

End Profile.

(** * InfluxDB line protocol ([InfluxWriter._esc_tag],
      [InfluxWriter._esc_field_str]) *)
Module Influx.
Import Expr.

Definition backslash : ascii := "092"%char.
Definition quote : ascii := "034"%char.

Definition one (c : ascii) : string := String c EmptyString.
Definition escaped (c : ascii) : string := String backslash (one c).

Definition _esc_tag (v : string) : string :=
  replace (one "=") (escaped "=")
    (replace (one " ") (escaped " ")
       (replace (one ",") (escaped ",")
          (replace (one backslash) (escaped backslash) v))).

Definition _esc_field_str (v : string) : string :=
  replace (one quote) (escaped quote)
    (replace (one backslash) (escaped backslash) v).

(** Escaping character by character: a backslash before every character
    of [special]. *)
Fixpoint escape_each (special : ascii -> bool) (s : string) : string :=
  match s with
  | EmptyString => EmptyString
  | String c s' =>
    if special c then String backslash (String c (escape_each special s'))
    else String c (escape_each special s')
  end.

Definition tag_special (c : ascii) : bool :=
  Ascii.eqb c backslash || Ascii.eqb c "," || Ascii.eqb c " " || Ascii.eqb c "=".

Definition field_special (c : ascii) : bool :=
  Ascii.eqb c backslash || Ascii.eqb c quote.

End Influx.

(** * What the spool file holds for [peek_lines] *)
Module SpoolLines.
Import Text Spool.

(** The lines of a file as the loop of [peek_lines] sees them: stripped,
    the blank ones passed over. *)
Definition stripped_lines (ls : list string) : list string :=
  List.filter (fun l => negb (is_empty l)) (map strip ls).

(** A decoder for which the line ["[1]"] is JSON, but no object. *)
Definition list_loads (line : string) : loaded :=
  if String.eqb line "[1]" then Decoded (JList [JNum "1"]) else demo_loads line.

End SpoolLines.

(** * Part II: properties *)

(** Boolean comparisons of [Z] in hypotheses, turned into propositions. *)
Ltac zbool :=
  repeat match goal with
  | H : (_ >=? _) = true |- _ => apply Z.geb_le in H
  | H : (_ >=? _) = false |- _ => rewrite Z.geb_leb in H; apply Z.leb_gt in H
  | H : (_ >? _) = true |- _ => rewrite Z.gtb_ltb in H; apply Z.ltb_lt in H
  | H : (_ >? _) = false |- _ => rewrite Z.gtb_ltb in H; apply Z.ltb_ge in H
  | H : (_ <=? _) = true |- _ => apply Z.leb_le in H
  | H : (_ <=? _) = false |- _ => apply Z.leb_gt in H
  | H : (_ <? _) = true |- _ => apply Z.ltb_lt in H
  | H : (_ <? _) = false |- _ => apply Z.ltb_ge in H
  | H : (_ =? _) = true |- _ => apply Z.eqb_eq in H
  | H : (_ =? _) = false |- _ => apply Z.eqb_neq in H
  end.

(** ** Frame parser *)
Module FrameSpec.
Import Frame.

Lemma py_last_snoc {A} (l : list A) (x : A) : py_last (l ++ [x]) = Some x.
Proof.
  unfold py_last. rewrite length_app. simpl.
  replace (length l + 1 - 1)%nat with (length l + 0)%nat by lia.
  rewrite lookup_app_r by lia.
  replace (length l + 0 - length l)%nat with 0%nat by lia. reflexivity.
Qed.

Lemma py_init_snoc {A} (l : list A) (x : A) : py_init (l ++ [x]) = l.
Proof.
  unfold py_init. rewrite length_app. simpl.
  replace (length l + 1 - 1)%nat with (length l) by lia.
  rewrite take_app_length. reflexivity.
Qed.

Lemma py_last_is_Some {A} (l : list A) : (0 < length l)%nat -> is_Some (py_last l).
Proof. intros H. unfold py_last. apply lookup_lt_is_Some. lia. Qed.

Lemma build_frame_shape ecu_addr payload frame :
  _build_frame ecu_addr payload = Some frame ->
  frame = [128; ecu_addr; 240; Z.of_nat (length payload)] ++ payload
          ++ [checksum ([128; ecu_addr; 240; Z.of_nat (length payload)] ++ payload)]
  /\ (length payload <= 255)%nat.
Proof.
  unfold _build_frame. intros H.
  destruct (Z.of_nat (length payload) >? 255) eqn:E; [discriminate|].
  destruct (negb (is_byte ecu_addr)); [discriminate|].
  injection H as <-. split; [|lia].
  simpl. reflexivity.
Qed.

Lemma frame_payload_build ecu_addr payload frame :
  _build_frame ecu_addr payload = Some frame -> frame_payload frame = payload.
Proof.
  intros H. apply build_frame_shape in H as [-> _].
  unfold frame_payload.
  replace ([128; ecu_addr; 240; Z.of_nat (length payload)] ++ payload ++
           [checksum ([128; ecu_addr; 240; Z.of_nat (length payload)] ++ payload)])
    with (([128; ecu_addr; 240; Z.of_nat (length payload)] ++ payload) ++
           [checksum ([128; ecu_addr; 240; Z.of_nat (length payload)] ++ payload)])
    by (rewrite <- app_assoc; reflexivity).
  rewrite py_init_snoc. reflexivity.
Qed.

(** The loop never runs out of iterations and never indexes out of range. *)
Lemma parse_loop_total buf : forall fuel i frames,
  (i <= length buf)%nat ->
  (length buf < fuel + i)%nat ->
  exists r, parse_loop fuel buf i frames = Some r.
Proof.
  induction fuel as [|fuel IH]; intros i frames Hi Hf.
  - exfalso. lia.
  - simpl. unfold parse_step.
    destruct (i + 5 <=? length buf)%nat eqn:Hw; simpl; [|eauto].
    apply Nat.leb_le in Hw.
    destruct (lookup_lt_is_Some_2 buf i ltac:(lia)) as [b ->].
    destruct (negb (b =? 128)); [apply IH; lia|].
    destruct (lookup_lt_is_Some_2 buf (i + 3) ltac:(lia)) as [pl ->].
    destruct (length buf <? i + 4 + Z.to_nat pl + 1)%nat eqn:He; [eauto|].
    apply Nat.ltb_ge in He.
    destruct (py_last_is_Some (take (i + 4 + Z.to_nat pl + 1 - i) (drop i buf)))
      as [ck ->].
    { rewrite length_take, length_drop. lia. }
    destruct (_ =? ck); apply IH; lia.
Qed.

Lemma parse_frames_total buf : exists r, _parse_frames buf = Some r.
Proof.
  unfold _parse_frames.
  destruct (parse_loop_total buf (S (length buf)) 0 [] ltac:(lia) ltac:(lia)) as [[i fr] ->].
  eauto.
Qed.

(** Skipping a prefix in which every sentinel is a rejected false header. *)
Lemma parse_loop_skip buf g : forall k fuel i frames,
  (g = i + k)%nat ->
  (g + 5 <= length buf)%nat ->
  (forall j, (i <= j < g)%nat -> false_header_rejected buf j) ->
  parse_loop (k + fuel) buf i frames = parse_loop fuel buf g frames.
Proof.
  induction k as [|k IH]; intros fuel i frames Hg Hlen Hrej.
  - replace g with i by lia. reflexivity.
  - simpl. unfold parse_step.
    destruct (i + 5 <=? length buf)%nat eqn:Hw; [|apply Nat.leb_gt in Hw; lia].
    simpl.
    destruct (lookup_lt_is_Some_2 buf i ltac:(lia)) as [b Hb]. rewrite Hb.
    destruct (b =? 128) eqn:Eb; simpl.
    + apply Z.eqb_eq in Eb. subst b.
      destruct (Hrej i ltac:(lia) Hb) as (pl & ck & Hpl & Hfit & Hck & Hne).
      rewrite Hpl.
      destruct (length buf <? i + 4 + Z.to_nat pl + 1)%nat eqn:He;
        [apply Nat.ltb_lt in He; lia|].
      replace (i + 4 + Z.to_nat pl + 1 - i)%nat with (4 + Z.to_nat pl + 1)%nat by lia.
      rewrite Hck.
      destruct (_ =? ck) eqn:Eck; [apply Z.eqb_eq in Eck; contradiction|].
      apply IH; [lia|lia|]. intros j Hj. apply Hrej. lia.
    + apply IH; [lia|lia|]. intros j Hj. apply Hrej. lia.
Qed.

(** At the start of the genuine frame the parser accepts it and stops. *)
Lemma parse_loop_accept garbage ecu_addr payload frame fuel :
  _build_frame ecu_addr payload = Some frame ->
  parse_loop (S (S fuel)) (garbage ++ frame) (length garbage) []
  = Some (length (garbage ++ frame), [frame]).
Proof.
  intros Hb. pose proof (build_frame_shape _ _ _ Hb) as [Hf Hlen].
  set (buf := garbage ++ frame).
  assert (Hfl : length frame = (length payload + 5)%nat).
  { rewrite Hf. rewrite !length_app. simpl. lia. }
  assert (Hbl : length buf = (length garbage + length payload + 5)%nat).
  { unfold buf. rewrite length_app. lia. }
  cbn [parse_loop]. unfold parse_step at 1.
  destruct (length garbage + 5 <=? length buf)%nat eqn:Hw;
    [|apply Nat.leb_gt in Hw; lia].
  simpl negb. cbv iota.
  assert (H0 : buf !! length garbage = Some 128).
  { unfold buf. rewrite lookup_app_r by lia.
    replace (length garbage - length garbage)%nat with 0%nat by lia.
    rewrite Hf. reflexivity. }
  rewrite H0. simpl.
  assert (H3 : buf !! (length garbage + 3)%nat = Some (Z.of_nat (length payload))).
  { unfold buf. rewrite lookup_app_r by lia.
    replace (length garbage + 3 - length garbage)%nat with 3%nat by lia.
    rewrite Hf. reflexivity. }
  rewrite H3. rewrite Nat2Z.id.
  destruct (length buf <? length garbage + 4 + length payload + 1)%nat eqn:He;
    [apply Nat.ltb_lt in He; lia|].
  assert (Hfr : take (length garbage + 4 + length payload + 1 - length garbage)
                  (drop (length garbage) buf) = frame).
  { unfold buf. rewrite drop_app_length. apply take_ge. lia. }
  rewrite Hfr.
  assert (Hsn : frame = ([128; ecu_addr; 240; Z.of_nat (length payload)] ++ payload)
            ++ [checksum ([128; ecu_addr; 240; Z.of_nat (length payload)] ++ payload)]).
  { rewrite Hf at 1. rewrite <- app_assoc. reflexivity. }
  assert (Hl : py_last frame = Some
            (checksum ([128; ecu_addr; 240; Z.of_nat (length payload)] ++ payload)))
    by (rewrite Hsn; apply py_last_snoc).
  assert (Hi : py_init frame = [128; ecu_addr; 240; Z.of_nat (length payload)] ++ payload)
    by (rewrite Hsn; apply py_init_snoc).
  rewrite Hl, Hi, Z.eqb_refl.
  unfold parse_step.
  destruct (length garbage + 4 + length payload + 1 + 5 <=? length buf)%nat eqn:Hw2;
    [apply Nat.leb_le in Hw2; lia|].
  simpl. f_equal. f_equal. lia.
Qed.

Lemma build_frame_ok ecu_addr payload :
  (length payload <= 255)%nat -> is_byte ecu_addr = true ->
  exists frame, _build_frame ecu_addr payload = Some frame.
Proof.
  intros Hl Hb. unfold _build_frame.
  destruct (Z.of_nat (length payload) >? 255) eqn:E; [lia|].
  rewrite Hb. simpl. eauto.
Qed.

Lemma no_sentinel_rejected garbage frame :
  Forall (fun b => b <> 128) garbage ->
  forall j, (j < length garbage)%nat -> false_header_rejected (garbage ++ frame) j.
Proof.
  intros Hg j Hj Hs. exfalso.
  rewrite lookup_app_l in Hs by lia.
  rewrite Forall_lookup in Hg. exact (Hg j 128 Hs eq_refl).
Qed.

Lemma parse_frames_after_rejected garbage ecu_addr payload frame :
  _build_frame ecu_addr payload = Some frame ->
  (forall j, (j < length garbage)%nat ->
             false_header_rejected (garbage ++ frame) j) ->
  _parse_frames (garbage ++ frame) = Some ([frame], []).
Proof.
  intros Hb Hrej. unfold _parse_frames.
  pose proof (build_frame_shape _ _ _ Hb) as [Hf _].
  assert (Hfl : length frame = (length payload + 5)%nat).
  { rewrite Hf. rewrite !length_app. simpl. lia. }
  assert (Hfuel : S (length (garbage ++ frame))
                  = (length garbage + S (S (length payload + 4)))%nat).
  { rewrite length_app. lia. }
  rewrite Hfuel.
  rewrite (parse_loop_skip (garbage ++ frame) (length garbage) (length garbage)
             (S (S (length payload + 4))) 0%nat []).
  - rewrite (parse_loop_accept garbage ecu_addr payload frame _ Hb).
    rewrite drop_all. reflexivity.
  - lia.
  - rewrite length_app. lia.
  - intros j Hj. apply Hrej. lia.
Qed.

(** C1 (amended): a payload of at most 255 bytes is framed as
    [0x80, dst, 0xF0, |P|, P, checksum], and the parser fed
    [garbage ++ frame] returns exactly that one frame, whose bytes between
    the length byte and the checksum are the payload, and leaves the buffer
    empty, provided every sentinel byte [0x80] inside the garbage announces
    a candidate frame that fits in the buffer and fails its checksum; in
    particular for every garbage prefix that holds no [0x80] byte. *)
Theorem parse_frames_recovers_payload garbage ecu_addr payload :
  (length payload <= 255)%nat ->
  is_byte ecu_addr = true ->
  exists frame,
    _build_frame ecu_addr payload = Some frame /\
    frame = [128; ecu_addr; 240; Z.of_nat (length payload)] ++ payload
            ++ [checksum ([128; ecu_addr; 240; Z.of_nat (length payload)] ++ payload)] /\
    frame_payload frame = payload /\
    ((forall j, (j < length garbage)%nat ->
                false_header_rejected (garbage ++ frame) j) ->
     _parse_frames (garbage ++ frame) = Some ([frame], [])) /\
    (Forall (fun b => b <> 128) garbage ->
     _parse_frames (garbage ++ frame) = Some ([frame], [])).
Proof.
  intros Hl Hb.
  destruct (build_frame_ok ecu_addr payload Hl Hb) as [frame Hf].
  exists frame. split; [exact Hf|].
  split; [apply (build_frame_shape _ _ _ Hf)|].
  split; [apply (frame_payload_build _ _ _ Hf)|].
  split.
  - intros Hrej. eapply parse_frames_after_rejected; eauto.
  - intros Hg. eapply parse_frames_after_rejected; eauto.
    apply no_sentinel_rejected; assumption.
Qed.

(** The garbage [01 02 80 00 00 00 09 03] holds a sentinel whose candidate
    frame [80 00 00 00 09] fits and fails its checksum: the parser
    resynchronises and returns the frame of payload [A8 00]. *)
Lemma parse_frames_recovers_payload_witness :
  exists frame,
    Frame._build_frame 16 [168; 0] = Some frame /\
    Frame.frame_payload frame = [168; 0] /\
    Frame._parse_frames ([1; 2; 128; 0; 0; 0; 9; 3] ++ frame) = Some ([frame], []).
Proof.
  destruct (parse_frames_recovers_payload [1; 2; 128; 0; 0; 0; 9; 3] 16 [168; 0])
    as (frame & Hb & Hshape & Hp & Hres & _).
  - simpl. lia.
  - reflexivity.
  - exists frame. split; [exact Hb|]. split; [exact Hp|].
    apply Hres. subst frame.
    intros j Hj Hs.
    do 8 (destruct j as [|j]; [first [discriminate Hs
      | (exists 0, 9; split; [reflexivity|]; split; [simpl; lia|];
         split; [reflexivity|]; intros Hck; vm_compute in Hck;
         discriminate Hck)]|]).
    simpl in Hj. lia.
Defined.

(** C1 as stated fails: the garbage [80 00 00 FF] announces a 255-byte
    payload that runs past the end of the buffer, so the parser stops and
    waits for more bytes without returning the frame that follows. *)
Lemma parse_frames_garbage_counterexample :
  Frame._build_frame 16 [1] = Some [128; 16; 240; 1; 1; 130] /\
  Frame._parse_frames ([128; 0; 0; 255] ++ [128; 16; 240; 1; 1; 130])
    = Some ([], [128; 0; 0; 255; 128; 16; 240; 1; 1; 130]) /\
  ~ Frame.recovers [128; 0; 0; 255] 16 [1].
Proof.
  split; [reflexivity|]. split; [reflexivity|].
  intros (frame & rest & Hb & Hp & _).
  vm_compute in Hb. injection Hb as <-.
  vm_compute in Hp. discriminate Hp.
Qed.

(** Two frames in one buffer, followed by the start of a third: both are
    returned and the incomplete one stays in the buffer. *)
Example parse_frames_two :
  _parse_frames ([128; 16; 240; 1; 191; 64] ++ [128; 240; 16; 2; 255; 1; 130]
                ++ [128; 240; 16])
  = Some ([[128; 16; 240; 1; 191; 64]; [128; 240; 16; 2; 255; 1; 130]],
          [128; 240; 16]).
Proof. reflexivity. Qed.

End FrameSpec.

(** ** Spool bound *)
Module SpoolSpec.
Import Text Spool SpoolLines.

Lemma py_slice_from_last {A} (m : Z) (l : list A) :
  1 <= m -> m < Z.of_nat (length l) ->
  py_slice_from (- m) l = drop (length l - Z.to_nat m) l.
Proof.
  intros H1 H2. unfold py_slice_from.
  destruct (- m <? 0) eqn:E; [|lia].
  f_equal. lia.
Qed.

Lemma spool_inv_init m : 1 <= m -> spool_inv m [] (init m).
Proof.
  intros Hm. split; unfold depth, file_lines, init; simpl; try reflexivity; lia.
Qed.

Lemma spool_inv_append m all sp line :
  1 <= m -> spool_inv m all sp -> spool_inv m (all ++ [line]) (append sp line).
Proof.
  intros Hm [Hmax Hc Hs Hd Hu Hl].
  assert (Hlen : (length (file_lines sp) <= length all)%nat).
  { rewrite Hs. rewrite length_drop. lia. }
  assert (Hsuf : file_lines sp ++ [line]
                 = drop (length (all ++ [line]) - length (file_lines sp ++ [line]))
                        (all ++ [line])).
  { rewrite !length_app. simpl.
    replace (length all + 1 - (length (file_lines sp) + 1))%nat
      with (length all - length (file_lines sp))%nat by lia.
    rewrite drop_app_le by lia. rewrite <- Hs. reflexivity. }
  assert (Hmod : 0 <= Z.of_nat (length all) mod 100 < 100)
    by (apply Z.mod_pos_bound; lia).
  assert (Hstep : Z.of_nat (length (all ++ [line])) = Z.of_nat (length all) + 1).
  { rewrite length_app. simpl. lia. }
  assert (Hdiv : Z.of_nat (length all)
             = 100 * (Z.of_nat (length all) / 100) + Z.of_nat (length all) mod 100)
    by (apply Z.div_mod; lia).
  assert (Hfl : length (file_lines sp ++ [line]) = (length (file_lines sp) + 1)%nat).
  { rewrite length_app. reflexivity. }
  rewrite Hd in Hu, Hl.
  unfold append. cbn [append_counter file max_entries].
  destruct (append_counter sp + 1 >=? 100) eqn:Ec.
  - (* the hundredth append: the counter wraps and the file is trimmed *)
    assert (Hc99 : Z.of_nat (length all) mod 100 = 99) by lia.
    assert (Hnew : Z.of_nat (length (all ++ [line])) mod 100 = 0).
    { rewrite Hstep.
      replace (Z.of_nat (length all) + 1)
        with (0 + (Z.of_nat (length all) / 100 + 1) * 100) by lia.
      rewrite Z.mod_add by lia. reflexivity. }
    unfold trim. cbn [file max_entries append_counter].
    destruct (Z.of_nat (length (file_lines sp ++ [line])) <=? max_entries sp) eqn:Et.
    + split; cbn [file max_entries append_counter]; unfold depth, file_lines;
        cbn [file]; fold (file_lines sp);
        rewrite ?Hnew, ?Hstep, ?Hfl; try assumption; try reflexivity; try lia.
      rewrite <- Hfl. exact Hsuf.
    + rewrite py_slice_from_last by lia.
      assert (Hk : length (drop (length (file_lines sp ++ [line])
                                  - Z.to_nat (max_entries sp))
                                (file_lines sp ++ [line]))
                   = Z.to_nat (max_entries sp)).
      { rewrite length_drop. lia. }
      split; cbn [file max_entries append_counter depth file_lines];
        rewrite ?Hnew, ?Hk, ?Hstep; try assumption; try reflexivity; try lia.
      rewrite Hsuf at 2. rewrite drop_drop. f_equal. lia.
  - split; cbn [file max_entries append_counter]; unfold depth, file_lines;
      cbn [file]; fold (file_lines sp); rewrite ?Hstep, ?Hfl;
      try assumption; try reflexivity; try lia.
    + rewrite Hc.
      replace (Z.of_nat (length all) + 1)
        with ((Z.of_nat (length all) mod 100 + 1) + (Z.of_nat (length all) / 100) * 100)
        by lia.
      rewrite Z.mod_add by lia. rewrite (Z.mod_small (_ mod 100 + 1)) by lia. reflexivity.
    + rewrite <- Hfl. rewrite Hsuf at 1. rewrite Hfl. reflexivity.
Qed.

Lemma spool_inv_append_all m : forall ls all sp,
  1 <= m -> spool_inv m all sp ->
  spool_inv m (all ++ ls) (append_all sp ls).
Proof.
  induction ls as [|l ls IH]; intros all sp Hm Hinv.
  - rewrite app_nil_r. exact Hinv.
  - simpl. replace (all ++ l :: ls) with ((all ++ [l]) ++ ls)
      by (rewrite <- app_assoc; reflexivity).
    apply IH; [assumption|]. apply spool_inv_append; assumption.
Qed.

(** C2 (amended): on a spool created on a fresh path with
    [max_entries >= 1], after any run of appends the depth is at most
    [max_entries + 99]; it is at most [max_entries] right after every
    hundredth append, when the file is trimmed; at least the newest
    [min(n, max_entries)] lines are kept; and the surviving lines are exactly
    the newest [depth] appended lines, in insertion order. *)
Theorem spool_depth_bound (m : Z) (ls : list string) :
  1 <= m ->
  depth (append_all (init m) ls) <= m + 99 /\
  (Z.of_nat (length ls) mod 100 = 0 -> depth (append_all (init m) ls) <= m) /\
  Z.min (Z.of_nat (length ls)) m <= depth (append_all (init m) ls) /\
  file_lines (append_all (init m) ls)
    = drop (length ls - Z.to_nat (depth (append_all (init m) ls))) ls.
Proof.
  intros Hm.
  pose proof (spool_inv_append_all m ls [] (init m) Hm (spool_inv_init m Hm))
    as [Hmax Hc Hs Hd Hu Hl].
  rewrite app_nil_l in *.
  assert (Hmod : 0 <= Z.of_nat (length ls) mod 100 < 100)
    by (apply Z.mod_pos_bound; lia).
  repeat split.
  - lia.
  - intros H0. rewrite Hc, H0 in Hu. lia.
  - exact Hl.
  - rewrite Hd, Nat2Z.id. exact Hs.
Qed.

(** With [max_entries = 2], one hundred appends end in a trim that keeps
    the two newest lines. *)
Lemma spool_depth_bound_witness :
  Spool.depth (Spool.append_all (Spool.init 2) (replicate 99 "old" ++ ["new"])) <= 2 /\
  Spool.file_lines (Spool.append_all (Spool.init 2) (replicate 99 "old" ++ ["new"]))
    = ["old"; "new"].
Proof.
  destruct (spool_depth_bound 2 (replicate 99 "old" ++ ["new"])) as (_ & H & _ & Hs).
  - lia.
  - split.
    + apply H. reflexivity.
    + rewrite Hs. reflexivity.
Defined.

(** C2 as stated fails: the file is only trimmed on every hundredth append,
    so with [max_entries = 1] two appends leave a depth of two. *)
Lemma spool_depth_counterexample :
  Spool.depth (Spool.append_all (Spool.init 1) ["a"; "b"]) = 2 /\
  ~ Spool.depth (Spool.append_all (Spool.init 1) ["a"; "b"])
      <= Spool.max_entries (Spool.append_all (Spool.init 1) ["a"; "b"]).
Proof. split; [reflexivity|]. vm_compute. intros H. apply H. reflexivity. Qed.

(** ** Spool flush *)

Lemma stripped_lines_app l1 l2 :
  stripped_lines (l1 ++ l2) = stripped_lines l1 ++ stripped_lines l2.
Proof. unfold stripped_lines. rewrite map_app, List.filter_app. reflexivity. Qed.

Lemma stripped_lines_length ls : (length (stripped_lines ls) <= length ls)%nat.
Proof.
  unfold stripped_lines. induction ls as [|l ls IH]; simpl; [lia|].
  destruct (negb (is_empty (strip l))); simpl; lia.
Qed.

(** Lines as [append] writes them are their own stripped lines. *)
Lemma stripped_lines_clean ls : Forall clean_line ls -> stripped_lines ls = ls.
Proof.
  unfold stripped_lines. induction 1 as [|l ls [Hs Hne] _ IH]; [reflexivity|].
  cbn [map List.filter]. rewrite Hs.
  destruct l as [|c l]; [contradiction|]. cbn [is_empty negb].
  f_equal. exact IH.
Qed.

(** The loop of [peek_lines] takes stripped lines until it has enough. *)
Lemma peek_loop_stripped n : forall ls out,
  Z.of_nat (length out) < n ->
  peek_loop n ls out = out ++ take (Z.to_nat n - length out) (stripped_lines ls).
Proof.
  induction ls as [|l ls IH]; intros out Hout; cbn [peek_loop].
  - unfold stripped_lines. cbn [map List.filter].
    rewrite take_nil, app_nil_r. reflexivity.
  - unfold stripped_lines in *. cbn [map List.filter].
    destruct (is_empty (strip l)) eqn:Ee; cbn [negb].
    + apply IH. exact Hout.
    + destruct (Z.of_nat (length (out ++ [strip l])) >=? n) eqn:E;
        rewrite length_app in E; cbn [length] in E; zbool.
      * replace (Z.to_nat n - length out)%nat with 1%nat by lia.
        cbn [take]. rewrite take_0. reflexivity.
      * rewrite IH by (rewrite length_app; cbn [length]; lia).
        rewrite length_app. cbn [length]. rewrite <- app_assoc. cbn [app].
        replace (Z.to_nat n - length out)%nat
          with (S (Z.to_nat n - (length out + 1)))%nat by lia.
        reflexivity.
Qed.

Lemma peek_lines_stripped sp n :
  peek_lines sp n = take (Z.to_nat n) (stripped_lines (file_lines sp)).
Proof.
  unfold peek_lines, file_lines.
  destruct (n <=? 0) eqn:E; zbool.
  - replace (Z.to_nat n) with 0%nat by lia. rewrite take_0. reflexivity.
  - destruct (file sp) as [ls|];
      [|unfold stripped_lines; cbn [map List.filter]; rewrite take_nil; reflexivity].
    rewrite peek_loop_stripped by (simpl; lia). cbn [app length].
    f_equal. lia.
Qed.

(** A run of opening brackets has no white space to strip. *)
Lemma strip_brackets n :
  strip (string_of_list_ascii (replicate n "["%char))
  = string_of_list_ascii (replicate n "["%char).
Proof.
  unfold strip.
  assert (Hr : rstrip (string_of_list_ascii (replicate n "["%char))
               = string_of_list_ascii (replicate n "["%char)).
  { induction n as [|n IH]; [reflexivity|].
    cbn [replicate string_of_list_ascii rstrip]. rewrite IH.
    destruct n; reflexivity. }
  rewrite Hr. destruct n; reflexivity.
Qed.

Lemma drop_first_lines_file sp count :
  0 <= count ->
  file_lines (drop_first_lines sp count) = drop (Z.to_nat count) (file_lines sp).
Proof.
  intros Hc. unfold drop_first_lines, file_lines.
  destruct (count <=? 0) eqn:E.
  - replace (Z.to_nat count) with 0%nat by lia. rewrite drop_0. reflexivity.
  - destruct (file sp) as [ls|] eqn:Ef; cbn [file].
    + destruct (count >=? Z.of_nat (length ls)) eqn:E2; cbn [file].
      * rewrite drop_ge by lia. reflexivity.
      * reflexivity.
    + rewrite Ef. rewrite drop_nil. reflexivity.
Qed.

Lemma drop_first_lines_frame sp count :
  max_entries (drop_first_lines sp count) = max_entries sp /\
  append_counter (drop_first_lines sp count) = append_counter sp.
Proof.
  unfold drop_first_lines. destruct (count <=? 0); [auto|].
  destruct (file sp); [|auto]. destruct (_ >=? _); auto.
Qed.

Section FlushSpec.

Context {W : Type}.
Variable mqtt_publish_checked : W -> string -> string -> W * bool.
Variable loads : string -> loaded.
Variable dumps : json -> string.
Variable fmt : json -> string.

Local Abbreviation publish :=
  (publish_payload_and_metrics mqtt_publish_checked dumps fmt).
Local Abbreviation flush := (flush_spool mqtt_publish_checked loads dumps fmt).
Local Abbreviation send := (send_all mqtt_publish_checked).
Local Abbreviation messages := (line_messages loads dumps fmt).

Lemma send_all_app : forall msgs1 msgs2 w,
  send w (msgs1 ++ msgs2)
  = if (send w msgs1).2 then send (send w msgs1).1 msgs2
    else ((send w msgs1).1, false).
Proof.
  induction msgs1 as [|[topic payload] msgs1 IH]; intros msgs2 w; [reflexivity|].
  cbn [app send_all].
  destruct (mqtt_publish_checked w topic payload) as [w1 [|]]; [apply IH|reflexivity].
Qed.

(** The loop over the metrics sends one message per metric. *)
Lemma publish_metrics_send base : forall metrics w,
  publish_metrics mqtt_publish_checked fmt w base metrics
  = send w (map (fun m : string * json => ((base ++ "/" ++ m.1)%string, fmt m.2))
              metrics).
Proof.
  induction metrics as [|[topic value] metrics IH]; intros w; [reflexivity|].
  cbn [publish_metrics map send_all fst snd].
  destruct (mqtt_publish_checked w _ _) as [w1 [|]]; [apply IH|reflexivity].
Qed.

(** Publishing a decoded line is sending its messages; the call fails when
    the broker refuses one of them, and after the first one when the line
    is no object. *)
Lemma publish_send w base obj :
  (publish w base obj).1 = (send w (payload_messages dumps fmt base obj)).1 /\
  (publish w base obj).2
  = (send w (payload_messages dumps fmt base obj)).2
    && match obj with JDict _ => true | _ => false end.
Proof.
  unfold publish_payload_and_metrics, payload_messages. cbn [send_all].
  destruct (mqtt_publish_checked w (base ++ "/data") (dumps obj)) as [w1 [|]];
    cbn [negb]; [|split; reflexivity].
  destruct obj as [| | | | |items]; try (split; reflexivity).
  destruct (dict_get "metrics" items (JDict [])) as [| | | | |metrics];
    try (split; reflexivity).
  rewrite publish_metrics_send. rewrite andb_true_r. split; reflexivity.
Qed.

(** What the loop of [flush_spool] has done when it ends. *)
Lemma flush_loop_spec base : forall ls w sent,
  exists done rest w_d,
    ls = done ++ rest /\
    Forall (countable loads) done /\
    send w (flat_map (messages base) done) = (w_d, true) /\
    (flush_loop mqtt_publish_checked loads dumps fmt w base ls sent).1.2
      = sent + Z.of_nat (length done) /\
    match (flush_loop mqtt_publish_checked loads dumps fmt w base ls sent).2 with
    | RanThrough =>
      rest = [] /\
      (flush_loop mqtt_publish_checked loads dumps fmt w base ls sent).1.1 = w_d
    | Broke =>
      exists line rest' obj,
        rest = line :: rest' /\ loads line = Decoded obj /\
        (send w_d (payload_messages dumps fmt base obj)).1
          = (flush_loop mqtt_publish_checked loads dumps fmt w base ls sent).1.1 /\
        ((send w_d (payload_messages dumps fmt base obj)).2 = false
         \/ forall items, obj <> JDict items)
    | Uncaught =>
      (exists line rest', rest = line :: rest' /\ loads line = OtherError) /\
      (flush_loop mqtt_publish_checked loads dumps fmt w base ls sent).1.1 = w_d
    end.
Proof.
  induction ls as [|line ls IH]; intros w sent.
  - exists [], [], w. cbn. split_and!; try reflexivity; [constructor|lia].
  - cbn [flush_loop].
    destruct (loads line) as [obj| |] eqn:El.
    + destruct (publish_send w base obj) as [Hw Hok].
      destruct (publish_payload_and_metrics mqtt_publish_checked dumps fmt
                  w base obj) as [w1 ok] eqn:Ep.
      cbn [fst snd] in Hw, Hok. destruct ok.
      * symmetry in Hok. apply andb_true_iff in Hok as [Hsent Hobj].
        destruct obj as [| | | | |items]; try discriminate Hobj.
        destruct (IH w1 (sent + 1)) as (done & rest & w_d & Hls & Hc & Hs & Hn & Hr).
        exists (line :: done), rest, w_d. subst ls.
        split; [reflexivity|].
        split; [constructor; [right; eauto|exact Hc]|].
        split.
        { cbn [flat_map]. unfold line_messages at 1. rewrite El.
          rewrite send_all_app, Hsent, <- Hw. exact Hs. }
        split; [rewrite Hn; cbn [length]; lia|exact Hr].
      * exists [], (line :: ls), w. cbn [fst snd app flat_map length send_all].
        split_and!; try reflexivity; [constructor|lia|].
        exists line, ls, obj. split_and!; try reflexivity; [exact El|exact (eq_sym Hw)|].
        symmetry in Hok. apply andb_false_iff in Hok as [Hf|Hobj]; [left; exact Hf|].
        right. intros items ->. discriminate Hobj.
    + destruct (IH w (sent + 1)) as (done & rest & w_d & Hls & Hc & Hs & Hn & Hr).
      exists (line :: done), rest, w_d. subst ls.
      split; [reflexivity|].
      split; [constructor; [left; exact El|exact Hc]|].
      split.
      { cbn [flat_map]. unfold line_messages at 1. rewrite El. exact Hs. }
      split; [rewrite Hn; cbn [length]; lia|exact Hr].
    + exists [], (line :: ls), w. cbn [fst snd app flat_map length send_all].
      split_and!; try reflexivity; [constructor|lia|].
      exists line, ls. split; [reflexivity|exact El].
Qed.

(** A line at the head of the spool on which [json.loads] raises another
    exception than [JSONDecodeError] ends the call before anything is
    sent or removed. *)
Lemma flush_spool_uncaught (sp : JsonlSpool) (w : W) (n : Z) (base : string)
    line rest :
  peek_lines sp n = line :: rest ->
  loads line = OtherError ->
  flush sp w n base = (sp, w, FlushRaised).
Proof.
  intros Hpeek Hl. unfold flush_spool. rewrite Hpeek.
  cbn [flush_loop]. rewrite Hl. reflexivity.
Qed.

(** C5 (amended): [flush_spool] takes the first [flush_per_loop] lines of
    the file that are not blank and handles them in order.  The lines
    split into the ones handled and the rest; every handled line is no
    JSON (counted, nothing sent) or an object whose messages the broker
    has acknowledged, one after the other, and these are all the messages
    sent before the loop ends.  When the rest is empty the call returns the
    number of handled lines.  Otherwise the first line of the rest has
    ended the loop: a line whose publication failed makes the call raise
    after as many lines as were handled have been removed from the head of
    the file, all others staying in their order; a line on which
    [json.loads] raises another exception than [JSONDecodeError] makes the
    call raise with nothing removed.  On a file of lines as [append] writes
    them the lines removed are the lines handled. *)
Theorem flush_spool_spec (sp : JsonlSpool) (w : W) (n : Z) (base : string) :
  let head := take (Z.to_nat n) (stripped_lines (file_lines sp)) in
  let r := flush sp w n base in
  exists done rest w_d,
    head = done ++ rest /\
    Forall (countable loads) done /\
    send w (flat_map (messages base) done) = (w_d, true) /\
    max_entries r.1.1 = max_entries sp /\
    append_counter r.1.1 = append_counter sp /\
    match r.2 with
    | Flushed sent_lines =>
      rest = [] /\ sent_lines = Z.of_nat (length done) /\ r.1.2 = w_d /\
      file_lines r.1.1 = drop (length done) (file_lines sp)
    | FlushInterrupted =>
      (exists line rest' obj,
         rest = line :: rest' /\ loads line = Decoded obj /\
         (send w_d (payload_messages dumps fmt base obj)).1 = r.1.2 /\
         ((send w_d (payload_messages dumps fmt base obj)).2 = false
          \/ forall items, obj <> JDict items)) /\
      file_lines r.1.1 = drop (length done) (file_lines sp)
    | FlushRaised =>
      (exists line rest', rest = line :: rest' /\ loads line = OtherError) /\
      r.1.2 = w_d /\ r.1.1 = sp
    end /\
    (Forall clean_line (file_lines sp) ->
     done = take (length done) (file_lines sp)).
Proof.
  intros head r. subst head r.
  assert (Hclean : forall done rest,
    take (Z.to_nat n) (stripped_lines (file_lines sp)) = done ++ rest ->
    Forall clean_line (file_lines sp) ->
    done = take (length done) (file_lines sp)).
  { intros done rest Hhead Hc. rewrite (stripped_lines_clean _ Hc) in Hhead.
    assert (Hl : (length done <= Z.to_nat n)%nat).
    { apply (f_equal length) in Hhead.
      rewrite length_take, length_app in Hhead. lia. }
    rewrite <- (take_app_length done rest) at 1. rewrite <- Hhead.
    rewrite take_take. f_equal. lia. }
  unfold flush_spool. rewrite peek_lines_stripped.
  destruct (take (Z.to_nat n) (stripped_lines (file_lines sp))) as [|l0 ls0] eqn:Ehead.
  - exists [], [], w. cbn [fst snd length app flat_map send_all]. rewrite drop_0.
    split_and!; try reflexivity; constructor.
  - destruct (flush_loop_spec base (l0 :: ls0) w 0)
      as (done & rest & w_d & Hls & Hc & Hs & Hn & Hr).
    destruct (flush_loop mqtt_publish_checked loads dumps fmt w base (l0 :: ls0) 0)
      as [[w1 sent] e] eqn:Efl.
    cbn [fst snd] in Hn, Hr. rewrite Z.add_0_l in Hn. subst sent.
    exists done, rest, w_d.
    split; [exact Hls|]. split; [exact Hc|]. split; [exact Hs|].
    assert (Hsp : forall sp1,
      sp1 = (if Z.of_nat (length done) =? 0 then sp
             else drop_first_lines sp (Z.of_nat (length done))) ->
      file_lines sp1 = drop (length done) (file_lines sp) /\
      max_entries sp1 = max_entries sp /\ append_counter sp1 = append_counter sp).
    { intros sp1 ->. destruct (Z.of_nat (length done) =? 0) eqn:E0.
      - zbool. replace (length done) with 0%nat by lia. rewrite drop_0. auto.
      - rewrite drop_first_lines_file by lia. rewrite Nat2Z.id.
        split; [reflexivity|apply drop_first_lines_frame]. }
    destruct (Hsp _ eq_refl) as (Hf1 & Hf2 & Hf3).
    assert (Hlen : length (l0 :: ls0) = (length done + length rest)%nat).
    { rewrite Hls, length_app. reflexivity. }
    destruct e.
    + destruct Hr as [-> ->].
      destruct (Z.of_nat (length done) <? Z.of_nat (length (l0 :: ls0))) eqn:Elt;
        [zbool; rewrite Hlen in Elt; cbn [length] in Elt; lia|].
      cbn [fst snd]. split_and!; try assumption; try reflexivity.
      intros Hcl. exact (Hclean _ _ Hls Hcl).
    + destruct Hr as (line & rest' & obj & -> & Hr).
      destruct (Z.of_nat (length done) <? Z.of_nat (length (l0 :: ls0))) eqn:Elt;
        [|zbool; rewrite Hlen in Elt; cbn [length] in Elt; lia].
      cbn [fst snd]. split_and!; try assumption; [eauto|].
      intros Hcl. exact (Hclean _ _ Hls Hcl).
    + destruct Hr as [Hr ->]. cbn [fst snd].
      split_and!; try reflexivity; [exact Hr|].
      intros Hcl. exact (Hclean _ _ Hls Hcl).
Qed.

End FlushSpec.

(** Five spooled lines, the fourth of which the broker refuses: the first
    three are handled (the malformed one counted without being published)
    and dropped, the refused line and the one behind it stay in order, and
    the call raises. *)
Example flush_spool_interrupted :
  flush_spool demo_publish demo_loads demo_dumps demo_dumps
    (mkSpool (Some ["101"; "{bad"; "102"; "boom"; "104"]%string) 10000 5)
    [] 50 "subaru"
  = (mkSpool (Some ["boom"; "104"]%string) 10000 5,
     [("subaru/data", "101"); ("subaru/data", "102")]%string,
     FlushInterrupted).
Proof. reflexivity. Qed.

(** The same five lines: the theorem gives the three lines handled, the
    two messages sent for them and the two lines left. *)
Lemma flush_spool_spec_witness :
  exists done,
    ["101"; "{bad"; "102"; "boom"; "104"]%string = done ++ ["boom"; "104"]%string /\
    Forall (countable demo_loads) done /\
    send_all demo_publish []
      (flat_map (line_messages demo_loads demo_dumps demo_dumps "subaru") done)
    = ([("subaru/data", "101"); ("subaru/data", "102")]%string, true).
Proof.
  destruct (flush_spool_spec demo_publish demo_loads demo_dumps demo_dumps
              (mkSpool (Some ["101"; "{bad"; "102"; "boom"; "104"]%string) 10000 5)
              [] 50 "subaru")
    as (done & rest & w_d & Hhead & Hc & Hs & _ & _ & Hr & _).
  change (flush_spool demo_publish demo_loads demo_dumps demo_dumps
            (mkSpool (Some ["101"; "{bad"; "102"; "boom"; "104"]%string) 10000 5)
            [] 50 "subaru")
    with (mkSpool (Some ["boom"; "104"]%string) 10000 5,
          [("subaru/data", "101"); ("subaru/data", "102")]%string,
          FlushInterrupted) in Hr.
  cbn [fst snd] in Hr.
  destruct Hr as [(line & rest' & obj & -> & _ & Hw & _) Hfile].
  change (take (Z.to_nat 50)
            (stripped_lines ["101"; "{bad"; "102"; "boom"; "104"]%string))
    with ["101"; "{bad"; "102"; "boom"; "104"]%string in Hhead.
  cbn [file_lines file] in Hfile.
  assert (Hd : length done = 3%nat).
  { destruct done as [|? [|? [|? [|? [|? [|? ?]]]]]]; try discriminate Hfile.
    reflexivity. }
  assert (Hdone : done = ["101"; "{bad"; "102"]%string).
  { rewrite <- (take_app_length done (line :: rest')). rewrite <- Hhead, Hd.
    reflexivity. }
  assert (Hrest : line :: rest' = ["boom"; "104"]%string).
  { rewrite <- (drop_app_length done (line :: rest')). rewrite <- Hhead, Hd.
    reflexivity. }
  exists done. rewrite Hrest in Hhead. split; [exact Hhead|]. split; [exact Hc|].
  rewrite Hs. subst done. vm_compute in Hs. exact (eq_sym Hs).
Defined.

(** C5 as stated fails: a head line of a hundred thousand opening brackets
    is malformed JSON, but it is neither counted as sent nor dropped.
    [json.loads] raises [RecursionError] on it, which [except
    json.JSONDecodeError] does not catch: [flush_spool] raises with the
    spool as it was, and the line is at its head again at the next
    flush. *)
Lemma flush_spool_poison_counterexample :
  (forall obj, deep_loads deep_line <> Decoded obj) /\
  flush_spool demo_publish deep_loads demo_dumps demo_dumps
    (mkSpool (Some [deep_line; "101"%string]) 10000 0) [] 50 "subaru"
  = (mkSpool (Some [deep_line; "101"%string]) 10000 0, [], FlushRaised).
Proof.
  split.
  - intros obj. unfold deep_loads. rewrite String.eqb_refl. discriminate.
  - apply (flush_spool_uncaught demo_publish deep_loads demo_dumps demo_dumps
             _ [] 50 "subaru" deep_line ["101"%string]).
    + rewrite peek_lines_stripped. cbn [file_lines file].
      rewrite stripped_lines_clean; [reflexivity|].
      apply Forall_cons_2; [split|].
      * apply strip_brackets.
      * unfold deep_line. destruct (Z.to_nat 100000) eqn:E; [lia|discriminate].
      * apply Forall_cons_2; [split; [reflexivity|discriminate]|constructor].
    + unfold deep_loads. rewrite String.eqb_refl. reflexivity.
Qed.

End SpoolSpec.

(** ** Expression sandbox and decoder fallback *)
Module ExprSpec.
Import Text Expr.

Lemma contains_char_lstrip c s :
  is_space c = false -> contains_char c (lstrip s) = contains_char c s.
Proof.
  intros Hc. induction s as [|d s IH]; [reflexivity|].
  simpl. destruct (is_space d) eqn:Ed; [|reflexivity].
  rewrite IH. destruct (Ascii.eqb c d) eqn:E; [|reflexivity].
  apply Ascii.eqb_eq in E. congruence.
Qed.

Lemma contains_char_rstrip c s :
  is_space c = false -> contains_char c (rstrip s) = contains_char c s.
Proof.
  intros Hc. induction s as [|d s IH]; [reflexivity|].
  simpl. destruct (rstrip s) as [|e r] eqn:Er.
  - simpl in IH. rewrite <- IH.
    destruct (is_space d) eqn:Ed; simpl.
    + destruct (Ascii.eqb c d) eqn:E; [|reflexivity].
      apply Ascii.eqb_eq in E. congruence.
    + rewrite orb_false_r. reflexivity.
  - cbn [contains_char]. rewrite <- IH. reflexivity.
Qed.

Lemma contains_char_strip c s :
  is_space c = false -> contains_char c (strip s) = contains_char c s.
Proof.
  intros Hc. unfold strip.
  rewrite contains_char_lstrip, contains_char_rstrip by assumption. reflexivity.
Qed.

Lemma normalize_expr_question expr :
  contains_char "?" expr = true -> normalize_expr expr = EmptyString.
Proof.
  intros H. unfold normalize_expr.
  rewrite contains_char_strip by reflexivity. rewrite H.
  destruct (is_empty (strip expr)); reflexivity.
Qed.

(** The normalization and the raw decoding on the examples of the
    specification. *)
Example normalize_expr_scaling :
  normalize_expr " [value]*0.75 - 32 " = "value*0.75 - 32"%string.
Proof. reflexivity. Qed.

Example normalize_expr_operators :
  normalize_expr "value != 3 && !GetLogParam(1)"
  = "value != 3  and   not getlogparam(1)"%string.
Proof. reflexivity. Qed.

Example decode_raw_value_matrix :
  decode_raw_value [200] "uint8" = Some 200 /\
  decode_raw_value [128] "int8" = Some (-128) /\
  decode_raw_value [255; 254] "int16" = Some (-2) /\
  decode_raw_value [255; 254] "uint16" = Some 65534 /\
  decode_raw_value [0; 0; 1; 0] "int32" = Some 256 /\
  decode_raw_value [256] "uint8" = None.
Proof. repeat split; reflexivity. Qed.

Section DecoderSpec.

Context {F code : Type}.
Variable float_of_int : Z -> F.
Variable py_round : F -> Z -> F.
Variable fzero : F.
Variable ast_parse : string -> option node.
Variable py_compile : node -> option code.
Variable py_eval : code -> F -> (string -> F) -> option F.

Local Abbreviation compile := (compile_expr (F:=F) fzero ast_parse py_compile py_eval).
Local Abbreviation decode := (decode_rr_params float_of_int py_round).
Local Abbreviation decode_from := (decode_loop float_of_int py_round).
Local Abbreviation decode_one := (decode_param float_of_int py_round).
Local Abbreviation raw_of := (raw_value float_of_int).

Lemma compile_expr_question expr :
  contains_char "?" expr = true -> compile expr = None.
Proof.
  intros H. unfold compile_expr. rewrite normalize_expr_question by exact H.
  reflexivity.
Qed.

Lemma compile_expr_bad_name expr tree n :
  ast_parse (normalize_expr expr) = Some tree ->
  In n (walk tree) ->
  node_cls n = Name ->
  allowed_name (node_id n) = false ->
  compile expr = None.
Proof.
  intros Hp Hin Hc Hid. unfold compile_expr.
  destruct (is_empty (normalize_expr expr)); [reflexivity|].
  rewrite Hp.
  assert (Hr : existsb node_rejected (walk tree) = true).
  { apply existsb_exists. exists n. split; [exact Hin|].
    unfold node_rejected. rewrite Hc, Hid. reflexivity. }
  rewrite Hr. reflexivity.
Qed.

Lemma compile_expr_other_class expr tree n cn :
  ast_parse (normalize_expr expr) = Some tree ->
  In n (walk tree) ->
  node_cls n = OtherClass cn ->
  compile expr = None.
Proof.
  intros Hp Hin Hc. unfold compile_expr.
  destruct (is_empty (normalize_expr expr)); [reflexivity|].
  rewrite Hp.
  assert (Hr : existsb node_rejected (walk tree) = true).
  { apply existsb_exists. exists n. split; [exact Hin|].
    unfold node_rejected. rewrite Hc. reflexivity. }
  rewrite Hr. reflexivity.
Qed.

Lemma bytes_for_param_bytes data (p : RRParam (F:=F)) bs :
  bytes_map data -> bytes_for_param data p = Some bs ->
  forallb is_byte bs = true /\ length bs = Z.to_nat (size p).
Proof.
  intros Hd Hb. unfold bytes_for_param in Hb.
  split.
  - apply forallb_forall. intros b Hin.
    apply list_elem_of_In, list_elem_of_lookup in Hin. destruct Hin as [k Hk].
    apply mapM_Some in Hb.
    destruct (Forall2_lookup_r _ _ _ _ _ Hb Hk) as (i & _ & Hi).
    apply Hd in Hi. unfold is_byte.
    apply andb_true_intro. split; apply Z.leb_le; lia.
  - apply length_mapM in Hb. rewrite <- Hb, length_seqZ. reflexivity.
Qed.

Lemma raw_value_total data (p : RRParam (F:=F)) bs :
  bytes_map data -> bytes_for_param data p = Some bs ->
  exists raw, raw_of p bs = Some raw.
Proof.
  intros Hd Hb. destruct (bytes_for_param_bytes data p bs Hd Hb) as [Hall Hlen].
  unfold raw_value, decode_raw_value. rewrite Hall. simpl negb. cbv iota.
  destruct (is_bool_bit p) eqn:Eb.
  - assert (Hs : size p = 1).
    { unfold is_bool_bit in Eb.
      repeat (apply andb_prop in Eb as [Eb ?]). zbool. assumption. }
    rewrite Hs in Hlen. destruct bs as [|b0 bs]; [discriminate|].
    destruct (_ && _); eauto.
  - destruct (_ && _); eauto.
Qed.

Lemma decode_param_total data st (p : RRParam (F:=F)) :
  bytes_map data -> exists st', decode_one data st p = Some st'.
Proof.
  intros Hd. unfold decode_param. destruct st as [[m u] r].
  destruct (bytes_for_param data p) as [bs|] eqn:Eb; [|eauto].
  destruct (raw_value_total data p bs Hd Eb) as [raw ->]. eauto.
Qed.

Lemma decode_loop_total data : forall params st,
  bytes_map data -> exists st', decode_from data st params = Some st'.
Proof.
  induction params as [|p params IH]; intros st Hd; simpl; [eauto|].
  destruct (decode_param_total data st p Hd) as [st' ->]. apply IH, Hd.
Qed.

Lemma decode_loop_app data : forall l1 l2 st,
  decode_from data st (l1 ++ l2)
  = match decode_from data st l1 with
    | Some st' => decode_from data st' l2
    | None => None
    end.
Proof.
  induction l1 as [|p l1 IH]; intros l2 st; simpl; [reflexivity|].
  destruct (decode_one data st p); [apply IH|reflexivity].
Qed.

(** Parameters published under other topics leave a metric as it is. *)
Lemma decode_loop_keeps data t : forall params st st',
  Forall (fun q : RRParam (F:=F) => topic q <> t) params ->
  decode_from data st params = Some st' ->
  st'.1.1 !! t = st.1.1 !! t.
Proof.
  induction params as [|q params IH]; intros st st' Hne Hd; simpl in Hd.
  - injection Hd as <-. reflexivity.
  - inversion Hne as [|? ? Hq Hrest]; subst.
    destruct (decode_one data st q) as [st1|] eqn:E1; [|discriminate].
    rewrite (IH st1 st' Hrest Hd).
    unfold decode_param in E1. destruct st as [[m u] r].
    destruct (bytes_for_param data q); [|injection E1 as <-; reflexivity].
    destruct (raw_of q l); [|discriminate].
    injection E1 as <-. simpl. rewrite lookup_insert_ne by assumption.
    reflexivity.
Qed.

Lemma decode_param_fallback data m u r (p : RRParam (F:=F)) bs raw :
  bytes_for_param data p = Some bs ->
  raw_of p bs = Some raw ->
  (evaluator_ p = None \/
   exists ev, evaluator_ p = Some ev /\ ev raw r = None) ->
  decode_one data (m, u, r) p
  = Some (<[topic p := py_round raw (Z.max 0 (decimals p))]> m,
          <[topic p := unit_ p]> u,
          <[name p := py_round raw (Z.max 0 (decimals p))]> r).
Proof.
  intros Hb Hr Hev. unfold decode_param. rewrite Hb, Hr.
  destruct Hev as [->|(ev & -> & ->)]; reflexivity.
Qed.

(** C4: [compile_expr] returns no evaluator for an expression that holds
    the character [?], nor for one whose normalized text parses to a tree
    with a [Name] node outside the allow-list; on address maps holding
    bytes [decode_rr_params] never raises, whatever the evaluators do; and
    a decoded parameter without evaluator, or whose evaluator raises on the
    values resolved before it, gets as metric its raw value rounded to
    [max(0, decimals)] places (provided no later parameter is published
    under the same topic). *)
Theorem compile_expr_rejects_and_decode_falls_back :
  (forall expr, contains_char "?" expr = true -> compile expr = None) /\
  (forall expr tree n,
     ast_parse (normalize_expr expr) = Some tree ->
     In n (walk tree) ->
     node_cls n = Name ->
     allowed_name (node_id n) = false ->
     compile expr = None) /\
  (forall data (params : list (RRParam (F:=F))),
     bytes_map data -> exists st, decode data params = Some st) /\
  (forall data (params : list (RRParam (F:=F))) i p bs raw st_i st,
     params !! i = Some p ->
     (forall j q, (i < j)%nat -> params !! j = Some q -> topic q <> topic p) ->
     decode data (take i params) = Some st_i ->
     bytes_for_param data p = Some bs ->
     raw_of p bs = Some raw ->
     (evaluator_ p = None \/
      exists ev, evaluator_ p = Some ev /\ ev raw st_i.2 = None) ->
     decode data params = Some st ->
     st.1.1 !! topic p = Some (py_round raw (Z.max 0 (decimals p)))).
Proof.
  split; [exact compile_expr_question|].
  split; [exact compile_expr_bad_name|].
  split; [intros data params Hd; apply decode_loop_total, Hd|].
  intros data params i p bs raw st_i st Hi Hlater Hpre Hb Hr Hev Hst.
  unfold decode_rr_params in *.
  rewrite <- (take_drop_middle params i p Hi) in Hst.
  rewrite decode_loop_app, Hpre in Hst. cbn [decode_loop] in Hst.
  destruct st_i as [[m u] r].
  rewrite (decode_param_fallback data m u r p bs raw Hb Hr Hev) in Hst.
  erewrite decode_loop_keeps; [| |exact Hst].
  - simpl. apply lookup_insert_eq.
  - apply Forall_lookup. intros k q Hk.
    rewrite lookup_drop in Hk. eapply Hlater; [|exact Hk]. lia.
Qed.

End DecoderSpec.

Lemma compile_expr_rejects_and_decode_falls_back_witness :
  Expr.compile_expr (F:=Z) (code:=unit) 0 (fun _ => None) (fun _ => None)
     (fun _ _ _ => None) "value>100?1:0" = None /\
  exists st,
    Expr.decode_rr_params (fun n => n) (fun x _ => x) {[ 8 := 200 ]} [ternary_param]
      = Some st /\
    st.1.1 !! "engine_load"%string = Some 200.
Proof.
  pose proof (compile_expr_rejects_and_decode_falls_back (F:=Z) (code:=unit)
                (fun n => n) (fun x _ => x) 0 (fun _ => None) (fun _ => None)
                (fun _ _ _ => None)) as (Hq & _ & Htot & Hfb).
  split; [apply Hq; reflexivity|].
  destruct (Htot {[ 8 := 200 ]} [ternary_param]) as [st Hst].
  { intros a v Hav. apply lookup_singleton_Some in Hav as [_ <-]. lia. }
  exists st. split; [exact Hst|].
  apply (Hfb {[ 8 := 200 ]} [ternary_param] 0%nat ternary_param [200] 200 (∅, ∅, ∅) st).
  - reflexivity.
  - intros j q Hj Hq'. destruct j; [lia|]. discriminate Hq'.
  - reflexivity.
  - reflexivity.
  - reflexivity.
  - left. reflexivity.
  - exact Hst.
Defined.

End ExprSpec.

(** ** Chunked reads *)
Module ChunkedSpec.
Import Chunked.

Lemma dom_fold_zip : forall (addresses data : list Z) (m : gmap Z Z),
  length data = length addresses ->
  dom (fold_left (fun m p => <[p.1 := p.2]> m) (zip addresses data) m)
  = (list_to_set addresses ∪ dom m : gset Z).
Proof.
  induction addresses as [|a addresses IH]; intros data m Hlen.
  - simpl. set_solver.
  - destruct data as [|d data]; [discriminate|].
    simpl. rewrite IH by (simpl in Hlen; lia).
    simpl. rewrite dom_insert_L. set_solver.
Qed.

Lemma dom_dict_of_zip (addresses data : list Z) :
  length data = length addresses ->
  dom (dict_of_zip addresses data) = (list_to_set addresses : gset Z).
Proof.
  intros Hlen. unfold dict_of_zip. rewrite dom_fold_zip by assumption.
  rewrite dom_empty_L. set_solver.
Qed.

(** A successful [read_multiple] returns a value for each address asked
    for, and for no other. *)
Lemma read_multiple_dom {W} (request : W -> list Z -> W * outcome (list Z))
    pad_addr w addresses w1 m :
  read_multiple request pad_addr w addresses = (w1, Ok m) ->
  dom m = (list_to_set addresses : gset Z).
Proof.
  unfold read_multiple. destruct addresses as [|a addresses].
  - intros H. injection H as _ <-. rewrite dom_empty_L. reflexivity.
  - destruct (84 <? length (a :: addresses))%nat; [discriminate|].
    destruct (negb (is_byte pad_addr)); [discriminate|].
    destruct (extend_req [168; pad_addr] (a :: addresses)); [|discriminate].
    destruct (request w l) as [w2 [[|tag data]|e]]; try discriminate.
    destruct (negb (tag =? 232)); [discriminate|].
    destruct (length data =? length (a :: addresses))%nat eqn:El; [|discriminate].
    simpl. intros H. injection H as _ <-.
    apply dom_dict_of_zip. apply Nat.eqb_eq. exact El.
Qed.

(** A shorter chunk taken at the same index is a prefix of the longer
    one. *)
Lemma py_slice_prefix {A} (l : list A) (i s s' : Z) :
  0 <= i -> 0 <= s' <= s ->
  py_slice i (i + s') l `prefix_of` py_slice i (i + s) l.
Proof.
  intros Hi Hs. unfold py_slice, py_index.
  destruct (i <? 0) eqn:E1; [zbool; lia|].
  destruct (i + s' <? 0) eqn:E2; [zbool; lia|].
  destruct (i + s <? 0) eqn:E3; [zbool; lia|].
  set (n := Z.of_nat (length l)).
  replace (Z.to_nat (Z.min (i + s') n - Z.min i n))
    with (Z.to_nat (Z.min (i + s') n - Z.min i n)
          `min` Z.to_nat (Z.min (i + s) n - Z.min i n))%nat by lia.
  rewrite <- take_take. apply prefix_take.
Qed.

Lemma read_ok_snoc_true j chunk : read_ok (j ++ [(chunk, true)]) = read_ok j ++ chunk.
Proof.
  unfold read_ok. rewrite flat_map_app. simpl. rewrite app_nil_r. reflexivity.
Qed.

Lemma read_ok_snoc_false j chunk : read_ok (j ++ [(chunk, false)]) = read_ok j.
Proof.
  unfold read_ok. rewrite flat_map_app. simpl. rewrite app_nil_r. reflexivity.
Qed.

Section Loop.

Context {W D : Type}.
Variable rm : W -> list Z -> W * outcome (gmap Z Z).
Variable sleep : W -> D -> W * option error.
Variable inter_delay : D.
Hypothesis rm_dom : forall w chunk w1 m,
  rm w chunk = (w1, Ok m) -> dom m = (list_to_set chunk : gset Z).

Lemma journaled_eq w j chunk :
  journaled rm (w, j) chunk
  = let '(w1, r) := rm w chunk in
    ((w1, j ++ [(chunk, match r with Ok _ => true | Raise _ => false end)]), r).
Proof. reflexivity. Qed.

Lemma journaled_sleep_eq w (j : journal) :
  journaled_sleep sleep (w, j) inter_delay
  = let '(w1, e) := sleep w inter_delay in ((w1, j), e).
Proof. reflexivity. Qed.

(** The retry loop on the journaled client: a success adds the chunk to the
    addresses read, a sustained failure adds nothing and reports an error,
    and an exception of [time.sleep] adds nothing either. *)
Lemma attempts_journal : forall n w j chunk last_error w1 j1 r,
  attempts (journaled rm) (journaled_sleep sleep) n inter_delay (w, j) chunk
    last_error = ((w1, j1), r) ->
  match r with
  | Read m => read_ok j1 = read_ok j ++ chunk /\
              dom m = (list_to_set chunk : gset Z)
  | Failed e => read_ok j1 = read_ok j /\
                (e = None -> last_error = None /\ n = 0%nat)
  | Escaped e => read_ok j1 = read_ok j /\
                 exists w0, (sleep w0 inter_delay).2 = Some e
  end.
Proof.
  induction n as [|n IH]; intros w j chunk last_error w1 j1 r H; simpl in H.
  - injection H as <- <- <-. auto.
  - rewrite journaled_eq in H.
    destruct (rm w chunk) as [w2 [m|exc]] eqn:Erm.
    + injection H as <- <- <-. split; [apply read_ok_snoc_true|].
      eapply rm_dom; eassumption.
    + rewrite journaled_sleep_eq in H.
      destruct (sleep w2 inter_delay) as [w3 [e|]] eqn:Es.
      * injection H as <- <- <-. split; [apply read_ok_snoc_false|].
        exists w2. rewrite Es. reflexivity.
      * apply IH in H. destruct r as [m|e|e]; rewrite read_ok_snoc_false in H.
        -- exact H.
        -- destruct H as [H1 H2].
           split; [exact H1|]. intros He. destruct (H2 He) as [? _]. discriminate.
        -- exact H.
Qed.

(** Erasing the journal gives the run of the plain client. *)
Lemma attempts_erase : forall n w j chunk last_error,
  attempts rm sleep n inter_delay w chunk last_error
  = let '((w1, _), r) :=
      attempts (journaled rm) (journaled_sleep sleep) n inter_delay (w, j) chunk
        last_error in
    (w1, r).
Proof.
  induction n as [|n IH]; intros w j chunk last_error; simpl; [reflexivity|].
  rewrite journaled_eq.
  destruct (rm w chunk) as [w2 [m|exc]]; [reflexivity|].
  rewrite journaled_sleep_eq.
  destruct (sleep w2 inter_delay) as [w3 [e|]]; [reflexivity|apply IH].
Qed.

Lemma read_chunked_loop_erase addresses retries best_effort :
  forall fuel w j st,
  read_chunked_loop rm sleep fuel addresses retries inter_delay best_effort w st
  = erase (read_chunked_loop (journaled rm) (journaled_sleep sleep) fuel addresses
             retries inter_delay best_effort (w, j) st).
Proof.
  induction fuel as [|fuel IH]; intros w j st; simpl; [reflexivity|].
  unfold read_chunked_step.
  destruct (negb (idx st <? Z.of_nat (length addresses))); [reflexivity|].
  rewrite (attempts_erase _ w j).
  destruct (attempts (journaled rm) _ _ _ (w, j) _ None) as [[w1 j1] [m|e|e]].
  - apply IH.
  - destruct (1 <? _); [apply IH|].
    destruct best_effort; [apply IH|].
    destruct e; reflexivity.
  - reflexivity.
Qed.

(** The loop ends: the distance to the end of the list plus the chunk size
    decreases at every iteration. *)
Lemma read_chunked_loop_terminates addresses retries best_effort :
  forall fuel w st,
  1 <= chunk_size st ->
  Z.max 0 (Z.of_nat (length addresses) - idx st) + chunk_size st
    <= Z.of_nat fuel ->
  exists r,
    read_chunked_loop rm sleep fuel addresses retries inter_delay best_effort w st
    = Some r.
Proof.
  induction fuel as [|fuel IH]; intros w st Hcs Hfuel; [lia|].
  cbn [read_chunked_loop]. unfold read_chunked_step.
  destruct (idx st <? Z.of_nat (length addresses)) eqn:Ei; simpl; [|eauto].
  zbool.
  destruct (attempts rm sleep _ _ w _ None) as [w1 [m|e|e]].
  - apply IH; cbn [chunk_size idx]; lia.
  - destruct (1 <? _) eqn:Es.
    + zbool. apply IH; cbn [chunk_size idx]; [lia|].
      pose proof (Z.div_lt_upper_bound
        (Z.min (chunk_size st) (Z.of_nat (length addresses) - idx st)) 2
        (Z.min (chunk_size st) (Z.of_nat (length addresses) - idx st))
        ltac:(lia) ltac:(lia)).
      lia.
    + destruct best_effort.
      * apply IH; cbn [chunk_size idx]; lia.
      * destruct e; eauto.
  - eauto.
Qed.

(** What the journaled loop maintains: the result holds exactly the
    addresses of the chunks read; and a best-effort run raises only what
    [time.sleep] raises. *)
Lemma read_chunked_loop_dom addresses retries best_effort :
  forall fuel w j st w1 j1 r,
  dom (out st) = (list_to_set (read_ok j) : gset Z) ->
  read_chunked_loop (journaled rm) (journaled_sleep sleep) fuel addresses retries
    inter_delay best_effort (w, j) st
    = Some ((w1, j1), r) ->
  match r with
  | Ok result => dom result = (list_to_set (read_ok j1) : gset Z)
  | Raise e => best_effort = false \/
               exists w0, (sleep w0 inter_delay).2 = Some e
  end.
Proof.
  induction fuel as [|fuel IH]; intros w j st w1 j1 r Hinv H; [discriminate|].
  cbn [read_chunked_loop] in H. unfold read_chunked_step in H.
  destruct (negb (idx st <? Z.of_nat (length addresses))).
  - injection H as <- <- <-. exact Hinv.
  - destruct (attempts (journaled rm) _ _ _ (w, j) _ None)
      as [[w2 j2] [m|e|e]] eqn:Ea; apply attempts_journal in Ea.
    + destruct Ea as [Hj Hm].
      eapply IH; [|exact H]. cbn [out].
      rewrite dom_union_L, Hj, Hm, Hinv, list_to_set_app_L. set_solver.
    + destruct Ea as [Hj _].
      destruct (1 <? _).
      * eapply IH; [|exact H]. cbn [out]. rewrite Hj. exact Hinv.
      * destruct best_effort.
        -- eapply IH; [|exact H]. cbn [out]. rewrite Hj. exact Hinv.
        -- destruct e; injection H as <- <- <-; left; reflexivity.
    + destruct Ea as [_ Hs]. injection H as <- <- <-. right. exact Hs.
Qed.

(** The error reported by a failed retry loop is the one of its last
    call, after which [time.sleep] has returned. *)
Lemma attempts_last_error : forall n w chunk last_error w1 e,
  attempts rm sleep n inter_delay w chunk last_error = (w1, Failed e) ->
  (n = 0%nat /\ e = last_error /\ w1 = w) \/
  (exists w0 w' exc, rm w0 chunk = (w', Raise exc) /\
                     sleep w' inter_delay = (w1, None) /\ e = Some exc).
Proof.
  induction n as [|n IH]; intros w chunk last_error w1 e H; simpl in H.
  - injection H as <- <-. auto.
  - destruct (rm w chunk) as [w2 [m|exc]] eqn:Erm; [discriminate|].
    destruct (sleep w2 inter_delay) as [w3 [e'|]] eqn:Es; [discriminate|].
    apply IH in H. destruct H as [(_ & -> & ->)|H]; [|right; exact H].
    right. exists w, w2, exc. auto.
Qed.

(** An exception leaves the retry loop when [time.sleep] raises it after a
    failed read. *)
Lemma attempts_escaped : forall n w chunk last_error w1 e,
  attempts rm sleep n inter_delay w chunk last_error = (w1, Escaped e) ->
  exists w0 w' exc, rm w0 chunk = (w', Raise exc) /\
                    sleep w' inter_delay = (w1, Some e).
Proof.
  induction n as [|n IH]; intros w chunk last_error w1 e H; simpl in H.
  - discriminate.
  - destruct (rm w chunk) as [w2 [m|exc]] eqn:Erm; [discriminate|].
    destruct (sleep w2 inter_delay) as [w3 [e'|]] eqn:Es.
    + injection H as <- <-. eauto.
    + eapply IH. exact H.
Qed.

End Loop.

(** C9 (amended): for every address list and every initial chunk size of
    at least one, [read_chunked] ends within [len(addresses) + chunk_size]
    iterations; the map it returns holds exactly the addresses of the
    chunks whose [read_multiple] succeeded; a strict run can raise, and a
    best-effort run raises only the exception of [time.sleep(inter_delay)].
    In one iteration, a chunk read extends the result and advances by the
    size used; a sustained failure of a chunk of size above one halves the
    chunk size and stays at the same index, so that the next chunk is a
    prefix of the failed one; a sustained failure at size one advances by
    one address in best-effort mode and raises the error of the last
    attempt in strict mode; and when [time.sleep] raises after a failed
    read, its exception leaves [read_chunked] in either mode. *)
Theorem read_chunked_spec {W D : Type}
    (request : W -> list Z -> W * outcome (list Z)) (pad_addr : Z)
    (time_sleep : W -> D -> W * option error)
    (w : W) (addresses : list Z) (cs retries : Z) (inter_delay : D)
    (best_effort : bool) :
  1 <= cs ->
  let rm := read_multiple request pad_addr in
  let chunk_at st :=
    py_slice (idx st)
      (idx st + Z.min (chunk_size st) (Z.of_nat (length addresses) - idx st))
      addresses in
  (exists w1 j1 r,
     read_chunked (journaled rm) (journaled_sleep time_sleep)
       (length addresses + Z.to_nat cs) (w, []) addresses cs retries inter_delay
       best_effort
       = Some ((w1, j1), r) /\
     read_chunked rm time_sleep
       (length addresses + Z.to_nat cs) w addresses cs retries inter_delay
       best_effort
       = Some (w1, r) /\
     match r with
     | Ok result => dom result = (list_to_set (read_ok j1) : gset Z)
     | Raise e => best_effort = false \/
                  exists w0, (time_sleep w0 inter_delay).2 = Some e
     end) /\
  (forall w0 st w1 m,
     idx st < Z.of_nat (length addresses) ->
     attempts rm time_sleep (Z.to_nat (Z.max 1 retries)) inter_delay w0
       (chunk_at st) None = (w1, Read m) ->
     read_chunked_step rm time_sleep addresses retries inter_delay best_effort
       w0 st
     = Next w1 (mkLoop (m ∪ out st)
                  (idx st + Z.min (chunk_size st)
                              (Z.of_nat (length addresses) - idx st))
                  (chunk_size st))) /\
  (forall w0 st w1 e,
     idx st < Z.of_nat (length addresses) ->
     attempts rm time_sleep (Z.to_nat (Z.max 1 retries)) inter_delay w0
       (chunk_at st) None = (w1, Failed e) ->
     (exists w' w'' exc,
        rm w' (chunk_at st) = (w'', Raise exc) /\
        time_sleep w'' inter_delay = (w1, None) /\ e = Some exc) /\
     (1 < Z.min (chunk_size st) (Z.of_nat (length addresses) - idx st) ->
      read_chunked_step rm time_sleep addresses retries inter_delay best_effort
        w0 st
      = Next w1 (mkLoop (out st) (idx st)
                   (Z.max 1 (Z.min (chunk_size st)
                               (Z.of_nat (length addresses) - idx st) / 2)))) /\
     (Z.min (chunk_size st) (Z.of_nat (length addresses) - idx st) <= 1 ->
      read_chunked_step rm time_sleep addresses retries inter_delay best_effort
        w0 st
      = if best_effort
        then Next w1 (mkLoop (out st) (idx st + 1) (chunk_size st))
        else match e with
             | Some exc => Raised w1 exc
             | None => Raised w1 RuntimeError
             end)) /\
  (forall w0 st w1 e,
     idx st < Z.of_nat (length addresses) ->
     attempts rm time_sleep (Z.to_nat (Z.max 1 retries)) inter_delay w0
       (chunk_at st) None = (w1, Escaped e) ->
     (exists w' w'' exc,
        rm w' (chunk_at st) = (w'', Raise exc) /\
        time_sleep w'' inter_delay = (w1, Some e)) /\
     read_chunked_step rm time_sleep addresses retries inter_delay best_effort
       w0 st
     = Raised w1 e) /\
  (forall i s s',
     0 <= i -> 0 <= s' <= s ->
     py_slice i (i + s') addresses `prefix_of` py_slice i (i + s) addresses).
Proof.
  intros Hcs rm chunk_at. subst rm chunk_at. cbv beta.
  split_and!; [| | | |intros; apply py_slice_prefix; assumption].
  - destruct (read_chunked_loop_terminates (W:=W * journal)
                (journaled (read_multiple request pad_addr))
                (journaled_sleep time_sleep) inter_delay addresses retries
                best_effort (length addresses + Z.to_nat cs) (w, [])
                (mkLoop ∅ 0 cs)) as [[[w1 j1] r] Hr].
    { exact Hcs. }
    { cbn [idx chunk_size]. lia. }
    exists w1, j1, r. unfold read_chunked. split; [exact Hr|]. split.
    + rewrite (read_chunked_loop_erase (read_multiple request pad_addr)
                 time_sleep inter_delay addresses retries best_effort _ w []).
      unfold journal in *. rewrite Hr. reflexivity.
    + eapply (read_chunked_loop_dom (read_multiple request pad_addr));
        [| |exact Hr].
      * intros; eapply read_multiple_dom; eassumption.
      * cbn [out]. rewrite dom_empty_L. reflexivity.
  - intros w0 st w1 m Hi Ha. unfold read_chunked_step.
    destruct (idx st <? Z.of_nat (length addresses)) eqn:Ei; [|zbool; lia].
    simpl. rewrite Ha. reflexivity.
  - intros w0 st w1 e Hi Ha. split; [|split].
    + apply attempts_last_error in Ha.
      destruct Ha as [(Hn & _ & _)|Ha]; [lia|exact Ha].
    + intros Hs. unfold read_chunked_step.
      destruct (idx st <? Z.of_nat (length addresses)) eqn:Ei; [|zbool; lia].
      simpl. rewrite Ha.
      destruct (1 <? _) eqn:E1; [reflexivity|zbool; lia].
    + intros Hs. unfold read_chunked_step.
      destruct (idx st <? Z.of_nat (length addresses)) eqn:Ei; [|zbool; lia].
      simpl. rewrite Ha.
      destruct (1 <? _) eqn:E1; [zbool; lia|reflexivity].
  - intros w0 st w1 e Hi Ha. split.
    + eapply attempts_escaped. exact Ha.
    + unfold read_chunked_step.
      destruct (idx st <? Z.of_nat (length addresses)) eqn:Ei; [|zbool; lia].
      simpl. rewrite Ha. reflexivity.
Qed.

(** Five addresses read in chunks of four from an ECU that answers two at
    a time, with the default delay of 0.02 s between attempts. *)
Lemma read_chunked_spec_witness :
  exists j1 result,
    Chunked.read_chunked (Chunked.journaled (Chunked.read_multiple small_reads_only 0))
      (Chunked.journaled_sleep sleep_checked)
      9 (tt, []) [1; 2; 3; 4; 5] 4 1 0.02%float false
    = Some ((tt, j1), Chunked.Ok result) /\
    dom result = (list_to_set (Chunked.read_ok j1) : gset Z) /\
    Chunked.read_ok j1 = [1; 2; 3; 4; 5].
Proof.
  destruct (read_chunked_spec small_reads_only 0 sleep_checked tt [1; 2; 3; 4; 5]
              4 1 0.02%float false)
    as [(w1 & j1 & r & Hj & _ & Hd) _].
  - lia.
  - change (length [1; 2; 3; 4; 5] + Z.to_nat 4)%nat with 9%nat in Hj.
    destruct w1.
    assert (Hrun : exists result,
      read_chunked (journaled (read_multiple small_reads_only 0))
        (journaled_sleep sleep_checked) 9 (tt, [])
        [1; 2; 3; 4; 5] 4 1 0.02%float false
      = Some ((tt, [([1; 2; 3; 4], false); ([1; 2], true); ([3; 4], true);
                    ([5], true)]), Ok result)).
    { eexists. vm_compute. reflexivity. }
    destruct Hrun as [result Hrun].
    pose proof (eq_trans (eq_sym Hrun) Hj) as Heq.
    injection Heq as <- <-.
    eexists _, result. split; [exact Hrun|]. split; [exact Hd|]. reflexivity.
Defined.

(** C9 as stated fails for the initial chunk size 0: every iteration reads
    the empty chunk, which succeeds without any request, and advances by
    zero addresses, so the loop never ends. *)
Lemma read_chunked_zero_chunk_counterexample :
  ~ exists fuel r,
      Chunked.read_chunked (Chunked.read_multiple small_reads_only 0) sleep_checked
        fuel tt [1] 0 2 0.02%float true = Some r.
Proof.
  intros (fuel & r & H). unfold read_chunked in H.
  assert (Hloop : forall fuel o,
    read_chunked_loop (read_multiple small_reads_only 0) sleep_checked fuel [1] 2
      0.02%float true tt (mkLoop o 0 0) = None).
  { clear. induction fuel as [|fuel IH]; intros o; [reflexivity|].
    cbn [read_chunked_loop]. unfold read_chunked_step. cbn. apply IH. }
  rewrite Hloop in H. discriminate H.
Qed.

(** With a negative delay between attempts the first failed read ends a
    best-effort run: [time.sleep] raises [ValueError] inside the handler. *)
Example read_chunked_negative_delay :
  Chunked.read_chunked (Chunked.read_multiple small_reads_only 0) sleep_checked
    9 tt [1; 2; 3; 4; 5] 4 1 (-1)%float true
  = Some (tt, Chunked.Raise Chunked.ValueError).
Proof. vm_compute. reflexivity. Qed.

End ChunkedSpec.

(** ** Lap timing *)
Module TimingSpec.
Import Num Timing.

(** Splitting a list known to hold three items. *)
Ltac three l :=
  let a := fresh "a" in let b := fresh "b" in let c := fresh "c" in
  destruct l as [|a [|b [|c [|? ?]]]]; try discriminate.

Section Generic.

Context {F : Type} `{PyFloat F}.

Lemma snapshot_total (t : LapTiming F) ts :
  length (split_dist t) = 3%nat ->
  length (current_splits t) = 3%nat ->
  length (best_split_segments t) = 3%nat ->
  exists snap, snapshot t ts = Some snap.
Proof.
  intros Hd Hc Hb. unfold snapshot.
  three (split_dist t). three (current_splits t). three (best_split_segments t).
  destruct (armed t); simpl.
  - destruct (py_lt (lap_progress_m t) a); simpl.
    + destruct (py_lt (flit 0) (lap_start_ts t)); simpl; eauto.
    + destruct (py_lt (lap_progress_m t) b); simpl;
        destruct (py_lt (flit 0) (lap_start_ts t)); simpl; eauto.
  - eauto.
Qed.

(** What [update] does to a lap-completing step, read off the result. *)
Lemma update_completed (t t' : LapTiming F) ts s snap lap :
  update t ts s = Some (t', snap, Some lap) ->
  lap_time_sec lap = (ts - lap_start_ts t)%F /\
  lap_count t' = lap_count t + 1 /\
  lap_number lap = lap_count t + 1 /\
  last_lap t' = Some (lap_time_sec lap) /\
  last_splits t' = splits_sec lap /\
  completed_at_sec lap = ts /\
  ((lap_time_sec lap >=? flit MIN_VALID_LAP_SEC)%F = false ->
   best_lap t' = best_lap t /\ best_splits t' = best_splits t /\
   best_split_segments t' = best_split_segments t).
Proof.
  unfold update. intros Hu.
  destruct (prev_s t) as [prev|].
  - destruct (negb (armed t)).
    + destruct (snapshot _ ts); simpl in Hu; [|discriminate].
      injection Hu as _ _ Hc. discriminate Hc.
    + destruct (capture_splits _ _ _ _ _) as [cur|]; simpl in Hu; [|discriminate].
      destruct (py_le (lap_len_m t) _).
      * destruct (py_le (flit MIN_VALID_LAP_SEC) (ts - lap_start_ts t)%F) eqn:Ev.
        -- destruct (_split_segments cur ≫= _) as [bests|]; simpl in Hu;
             [|discriminate].
           destruct (snapshot _ ts); simpl in Hu; [|discriminate].
           injection Hu as <- _ <-. simpl. rewrite Ev.
           repeat split; try reflexivity; discriminate.
        -- simpl in Hu.
           destruct (snapshot _ ts); simpl in Hu; [|discriminate].
           injection Hu as <- _ <-. simpl.
           repeat split; reflexivity.
      * destruct (snapshot _ ts); simpl in Hu; [|discriminate].
        injection Hu as _ _ Hc. discriminate Hc.
  - destruct (snapshot _ ts); simpl in Hu; [|discriminate].
    injection Hu as _ _ Hc. discriminate Hc.
Qed.

(** A step that completes no lap leaves the three best records alone. *)
Lemma update_no_lap_keeps_bests (t t' : LapTiming F) ts s snap :
  update t ts s = Some (t', snap, None) ->
  best_lap t' = best_lap t /\ best_splits t' = best_splits t /\
  best_split_segments t' = best_split_segments t.
Proof.
  unfold update. intros Hu.
  destruct (prev_s t) as [prev|].
  - destruct (negb (armed t)).
    + destruct (_ && _);
        destruct (snapshot _ ts); simpl in Hu; try discriminate;
        injection Hu as <- _; repeat split; reflexivity.
    + destruct (capture_splits _ _ _ _ _) as [cur|]; simpl in Hu; [|discriminate].
      destruct (py_le (lap_len_m t) _).
      * destruct (py_le (flit MIN_VALID_LAP_SEC) _);
          [destruct (_split_segments cur ≫= _) as [bests|]; simpl in Hu;
             [|discriminate]
          |simpl in Hu];
          destruct (snapshot _ ts); simpl in Hu; discriminate.
      * destruct (snapshot _ ts); simpl in Hu; [|discriminate].
        injection Hu as <- _. repeat split; reflexivity.
  - destruct (snapshot _ ts); simpl in Hu; [|discriminate].
    injection Hu as <- _. repeat split; reflexivity.
Qed.

Lemma set_item_total {A} (l : list A) i v :
  (i < length l)%nat ->
  exists l', set_item l i v = Some l' /\ length l' = length l.
Proof.
  intros Hi. unfold set_item.
  destruct (i <? length l)%nat eqn:E; [|apply Nat.ltb_ge in E; lia].
  eexists. split; [reflexivity|]. apply length_insert.
Qed.

Lemma capture_splits_total (dist : list F) progress elapsed :
  forall ixs (cur : list (option F)),
  Forall (fun i => i < 3)%nat ixs ->
  length dist = 3%nat -> length cur = 3%nat ->
  exists cur', capture_splits ixs dist progress elapsed cur = Some cur' /\
               length cur' = 3%nat.
Proof.
  induction ixs as [|i ixs IH]; intros cur Hi Hd Hc; cbn [capture_splits];
    [eauto|].
  inversion Hi as [|? ? Hi3 Hrest]; subst.
  destruct (lookup_lt_is_Some_2 cur i ltac:(lia)) as [c ->]. simpl.
  destruct c as [v|]; [apply IH; assumption|].
  destruct (lookup_lt_is_Some_2 dist i ltac:(lia)) as [d ->]. simpl.
  destruct (py_le d progress); [|apply IH; assumption].
  destruct (set_item_total cur i (Some elapsed) ltac:(lia)) as (cur' & -> & Hl).
  simpl. apply IH; [assumption|assumption|lia].
Qed.

Lemma update_bests_total (segments : list (option F)) :
  forall (lasts : list (option F)) i (bests best_segments : list (option F)),
  (i + length lasts <= 3)%nat ->
  length segments = 3%nat -> length bests = 3%nat ->
  length best_segments = 3%nat ->
  exists r, update_bests i lasts segments bests best_segments = Some r /\
            length r.1 = 3%nat /\ length r.2 = 3%nat.
Proof.
  induction lasts as [|l lasts IH]; intros i bests bsegs Hi Hs Hb Hbs;
    cbn [update_bests].
  - eauto.
  - cbn [length] in Hi. destruct l as [split_time|]; [|apply IH; assumption || lia].
    destruct (lookup_lt_is_Some_2 bests i ltac:(lia)) as [b ->]. simpl.
    destruct (set_item_total bests i (Some split_time) ltac:(lia))
      as (b' & Hb' & Hl').
    destruct (lookup_lt_is_Some_2 segments i ltac:(lia)) as [seg Hseg].
    destruct (lookup_lt_is_Some_2 bsegs i ltac:(lia)) as [bs Hbseg].
    assert (Hstep : forall bests1 : list (option F), length bests1 = 3%nat ->
      exists r,
        (segments !! i ≫= fun seg : option F =>
         match seg with
         | Some segment_time =>
           bsegs !! i ≫= fun bs : option F =>
             match bs with
             | Some bsv => if py_lt segment_time bsv
                           then set_item bsegs i (Some segment_time)
                           else Some bsegs
             | None => set_item bsegs i (Some segment_time)
             end
         | None => Some bsegs
         end ≫= fun best_segments' =>
           update_bests (S i) lasts segments bests1 best_segments')
        = Some r /\ length r.1 = 3%nat /\ length r.2 = 3%nat).
    { intros bests1 Hb1. rewrite Hseg. simpl.
      destruct seg as [segment_time|]; simpl; [|apply IH; assumption || lia].
      rewrite Hbseg. simpl.
      destruct (set_item_total bsegs i (Some segment_time) ltac:(lia))
        as (s' & Hs' & Hsl).
      destruct bs as [bsv|]; [destruct (py_lt segment_time bsv)|];
        rewrite ?Hs'; simpl; apply IH; assumption || lia. }
    destruct b as [bv|]; [destruct (py_lt split_time bv)|];
      rewrite ?Hb'; simpl; apply Hstep; lia.
Qed.

Lemma split_segments_total (l : list (option F)) :
  length l = 3%nat ->
  exists segs, _split_segments l = Some segs /\ length segs = 3%nat.
Proof. intros Hl. three l. simpl. eauto. Qed.

(** On a well-formed state [update] returns, and the state stays
    well-formed. *)
Lemma update_total (t : LapTiming F) ts s :
  well_formed t ->
  exists t' snap c, update t ts s = Some (t', snap, c) /\ well_formed t'.
Proof.
  intros (Hd & Hc & Hl & Hb & Hbs). unfold update.
  destruct (prev_s t) as [prev|].
  - destruct (negb (armed t)).
    + destruct (_ && _).
      * edestruct snapshot_total as [snap ->]; [| | |simpl; eexists _, _, _;
          split; [reflexivity|repeat split; simpl; assumption || reflexivity]];
          simpl; assumption || reflexivity.
      * edestruct snapshot_total as [snap ->]; [| | |simpl; eexists _, _, _;
          split; [reflexivity|repeat split; simpl; assumption || reflexivity]];
          simpl; assumption || reflexivity.
    + destruct (capture_splits_total (split_dist t)
                  (lap_progress_m t + py_max (wrap_ds (lap_len_m t) s prev) (flit 0))%F
                  (ts - lap_start_ts t)%F [0; 1; 2]%nat (current_splits t))
        as (cur & -> & Hcur); try assumption.
      { repeat constructor. }
      simpl.
      destruct (py_le (lap_len_m t) _).
      * assert (Hbests : exists bests,
          (if py_le (flit MIN_VALID_LAP_SEC) (ts - lap_start_ts t)%F
           then _split_segments cur ≫= fun segments =>
                  update_bests 0 cur segments (best_splits t)
                    (best_split_segments t)
           else Some (best_splits t, best_split_segments t)) = Some bests
          /\ length bests.1 = 3%nat /\ length bests.2 = 3%nat).
        { destruct (py_le _ _); [|eauto].
          destruct (split_segments_total cur Hcur) as (segs & -> & Hsl). simpl.
          apply update_bests_total; assumption || lia. }
        destruct Hbests as (bests & -> & Hb1 & Hb2). simpl.
        edestruct snapshot_total as [snap ->]; [| | |simpl; eexists _, _, _;
          split; [reflexivity|repeat split; simpl; assumption || reflexivity]];
          simpl; assumption || reflexivity.
      * edestruct snapshot_total as [snap ->]; [| | |simpl; eexists _, _, _;
          split; [reflexivity|repeat split; simpl; assumption || reflexivity]];
          simpl; assumption || reflexivity.
  - edestruct snapshot_total as [snap ->]; [| | |simpl; eexists _, _, _;
      split; [reflexivity|repeat split; simpl; assumption || reflexivity]];
      simpl; assumption || reflexivity.
Qed.

(** C6: a completed lap whose time is not at least [MIN_VALID_LAP_SEC]
    increments [lap_count] and sets [last_lap] and [last_splits], and
    leaves [best_lap], [best_splits] and [best_split_segments] as they
    were; and whenever [update] changes one of the three best records, it
    has completed a lap whose time is at least [MIN_VALID_LAP_SEC]. *)
Theorem update_short_lap_keeps_bests :
  (forall (t t' : LapTiming F) ts s snap lap,
     update t ts s = Some (t', snap, Some lap) ->
     (lap_time_sec lap >=? flit MIN_VALID_LAP_SEC)%F = false ->
     lap_count t' = lap_count t + 1 /\
     last_lap t' = Some (lap_time_sec lap) /\
     last_splits t' = splits_sec lap /\
     best_lap t' = best_lap t /\
     best_splits t' = best_splits t /\
     best_split_segments t' = best_split_segments t) /\
  (forall (t t' : LapTiming F) ts s snap c,
     update t ts s = Some (t', snap, c) ->
     (best_lap t' <> best_lap t \/ best_splits t' <> best_splits t \/
      best_split_segments t' <> best_split_segments t) ->
     exists lap, c = Some lap /\
       (lap_time_sec lap >=? flit MIN_VALID_LAP_SEC)%F = true).
Proof.
  split.
  - intros t t' ts s snap lap Hu Hshort.
    destruct (update_completed t t' ts s snap lap Hu)
      as (_ & Hc & _ & Hl & Hs & _ & Hb).
    destruct (Hb Hshort) as (Hb1 & Hb2 & Hb3). auto 7.
  - intros t t' ts s snap c Hu Hchg.
    destruct c as [lap|].
    + exists lap. split; [reflexivity|].
      destruct (py_le (flit MIN_VALID_LAP_SEC) (lap_time_sec lap)) eqn:Ev;
        [reflexivity|].
      destruct (update_completed t t' ts s snap lap Hu)
        as (_ & _ & _ & _ & _ & _ & Hb).
      destruct (Hb Ev) as (Hb1 & Hb2 & Hb3).
      destruct Hchg as [Hn|[Hn|Hn]]; contradiction.
    + destruct (update_no_lap_keeps_bests t t' ts s snap Hu) as (Hb1 & Hb2 & Hb3).
      destruct Hchg as [Hn|[Hn|Hn]]; contradiction.
Qed.

(** The first update only records the position. *)
Lemma update_first (t t' : LapTiming F) ts s snap c :
  update t ts s = Some (t', snap, c) ->
  prev_s t = None ->
  c = None /\ prev_s t' = Some s /\ armed t' = armed t /\
  lap_start_ts t' = lap_start_ts t /\ lap_progress_m t' = lap_progress_m t /\
  current_splits t' = current_splits t.
Proof.
  unfold update. intros Hu Hp. rewrite Hp in Hu.
  destruct (snapshot _ ts); simpl in Hu; [|discriminate].
  injection Hu as <- _ <-. repeat split; reflexivity.
Qed.

(** An unarmed state arms exactly when the wrapped step is forward and the
    position is within the first 12 % of the lap. *)
Lemma update_unarmed (t t' : LapTiming F) ts s snap c prev :
  update t ts s = Some (t', snap, c) ->
  armed t = false ->
  prev_s t = Some prev ->
  c = None /\ prev_s t' = Some s /\
  armed t' = (wrap_ds (lap_len_m t) s prev >? flit 0)%F
             && (s <? lap_len_m t * flit 0.12)%F /\
  (armed t' = true ->
   lap_start_ts t' = ts /\ lap_progress_m t' = flit 0 /\
   current_splits t' = [None; None; None]) /\
  (armed t' = false ->
   lap_start_ts t' = lap_start_ts t /\ lap_progress_m t' = lap_progress_m t /\
   current_splits t' = current_splits t) /\
  lap_count t' = lap_count t /\ last_lap t' = last_lap t /\
  best_lap t' = best_lap t.
Proof.
  unfold update. intros Hu Ha Hp. rewrite Hp, Ha in Hu. simpl negb in Hu.
  cbv iota in Hu.
  destruct (_ && _) eqn:Earm;
    destruct (snapshot _ ts); simpl in Hu; try discriminate;
    injection Hu as <- _ <-; cbn [armed prev_s lap_start_ts lap_progress_m
      current_splits lap_count last_lap best_lap];
    rewrite ?Ha; repeat split; try reflexivity; try discriminate.
Qed.

End Generic.

(** The fix at 50 m, 8 s after the start of the lap, completes it: the lap
    counts and becomes the last lap, the records stay. *)
Lemma update_short_lap_keeps_bests_witness :
  exists t' snap lap,
    Timing.update short_lap_state 9%float 50%float = Some (t', snap, Some lap) /\
    lap_time_sec lap = 8%float /\
    lap_count t' = 5 /\
    last_lap t' = Some 8%float /\
    last_splits t' = [Some 3.5%float; Some 8%float; Some 8%float] /\
    best_lap t' = Some 61%float /\
    best_splits t' = [Some 21%float; Some 40%float; Some 61%float] /\
    best_split_segments t' = [Some 21%float; Some 19%float; Some 20%float].
Proof.
  destruct (update_total short_lap_state 9%float 50%float)
    as (t' & snap & c & Hu & _).
  { repeat split. }
  assert (Hc : exists lap, c = Some lap /\ lap_time_sec lap = 8%float
                 /\ splits_sec lap = [Some 3.5%float; Some 8%float; Some 8%float]).
  { vm_compute in Hu. injection Hu as _ _ <-. eexists. repeat split. }
  destruct Hc as (lap & -> & Ht & Hs).
  destruct (update_short_lap_keeps_bests (F:=float)) as [Hshort _].
  destruct (Hshort short_lap_state t' 9%float 50%float snap lap Hu)
    as (H1 & H2 & H3 & H4 & H5 & H6).
  { rewrite Ht. reflexivity. }
  exists t', snap, lap. split; [exact Hu|].
  rewrite H1, H2, H3, H4, H5, H6, Ht, Hs.
  repeat split; reflexivity.
Defined.

(** C7 (amended): [ds = s - prev_s] is wrapped by the lap length when it
    lies beyond half a lap on either side: [ds + L] when [ds < -(L * 0.5)],
    [ds - L] when [ds > L * 0.5], [ds] otherwise.  An unarmed state that
    has a previous position arms exactly on an update whose wrapped [ds] is
    positive and whose [s] is below [L * 0.12], and arming sets
    [lap_start_ts = ts], [lap_progress_m = 0] and resets [current_splits].
    From [prev_s = 0.95 * L] an update at [s = 0.05 * L] arms whenever the
    three float comparisons involved come out as they do on the reals:
    [ds] below minus half a lap, [ds + L] positive, [s] below [L * 0.12].
    In binary64 they do for [L = 3000], where the wrapped [ds] is exactly
    [0.10 * L], and for [L = 1], where it is 0.10000000000000009. *)
Theorem update_arming :
  (forall (F : Type) (HF : PyFloat F) (L s prev : F),
     wrap_ds L s prev
     = if (s - prev <? - (L * flit 0.5))%F then (s - prev + L)%F
       else if (s - prev >? L * flit 0.5)%F then (s - prev - L)%F
       else (s - prev)%F) /\
  (forall (F : Type) (HF : PyFloat F) (t t' : LapTiming F) ts s snap c prev,
     Timing.update t ts s = Some (t', snap, c) ->
     armed t = false ->
     prev_s t = Some prev ->
     armed t' = (wrap_ds (lap_len_m t) s prev >? flit 0)%F
                && (s <? lap_len_m t * flit 0.12)%F /\
     (armed t' = true ->
      lap_start_ts t' = ts /\ lap_progress_m t' = flit 0 /\
      current_splits t' = [None; None; None])) /\
  (forall (F : Type) (HF : PyFloat F) (t : LapTiming F) (ts L : F),
     well_formed t -> lap_len_m t = L -> armed t = false ->
     prev_s t = Some (flit 0.95 * L)%F ->
     (flit 0.05 * L - flit 0.95 * L <? - (L * flit 0.5))%F = true ->
     (flit 0.05 * L - flit 0.95 * L + L >? flit 0)%F = true ->
     (flit 0.05 * L <? L * flit 0.12)%F = true ->
     wrap_ds L (flit 0.05 * L)%F (flit 0.95 * L)%F
     = (flit 0.05 * L - flit 0.95 * L + L)%F /\
     exists t' snap,
       Timing.update t ts (flit 0.05 * L)%F = Some (t', snap, None) /\
       armed t' = true /\ lap_start_ts t' = ts /\
       lap_progress_m t' = flit 0 /\ current_splits t' = [None; None; None]) /\
  (exists (t1 t2 : LapTiming float) sn1 sn2,
     Timing.update (new_timing 3000%float) 10%float (0.95 * 3000)%float
       = Some (t1, sn1, None) /\
     Timing.update t1 12%float (0.05 * 3000)%float = Some (t2, sn2, None) /\
     wrap_ds 3000%float (0.05 * 3000)%float (0.95 * 3000)%float
       = (0.10 * 3000)%float /\
     armed t1 = false /\ armed t2 = true /\ lap_start_ts t2 = 12%float /\
     lap_progress_m t2 = 0%float /\ current_splits t2 = [None; None; None]) /\
  (exists (t1 t2 : LapTiming float) sn1 sn2,
     Timing.update (new_timing 1%float) 10%float (0.95 * 1)%float
       = Some (t1, sn1, None) /\
     Timing.update t1 12%float (0.05 * 1)%float = Some (t2, sn2, None) /\
     wrap_ds 1%float (0.05 * 1)%float (0.95 * 1)%float
       = 0.10000000000000009%float /\
     armed t1 = false /\ armed t2 = true /\ lap_start_ts t2 = 12%float /\
     lap_progress_m t2 = 0%float /\ current_splits t2 = [None; None; None]).
Proof.
  split; [reflexivity|].
  split.
  { intros F HF t t' ts s snap c prev Hu Ha Hp.
    destruct (update_unarmed t t' ts s snap c prev Hu Ha Hp)
      as (_ & _ & Harm & Hset & _). auto. }
  split.
  { intros F HF t ts L Hwf HLt Ha Hp H1 H2 H3.
    assert (Hds : wrap_ds L (flit 0.05 * L)%F (flit 0.95 * L)%F
                  = (flit 0.05 * L - flit 0.95 * L + L)%F).
    { unfold wrap_ds. rewrite H1. reflexivity. }
    split; [exact Hds|].
    destruct (update_total t ts (flit 0.05 * L)%F Hwf) as (t' & snap & c & Hu & _).
    destruct (update_unarmed t t' ts (flit 0.05 * L)%F snap c (flit 0.95 * L)%F
                Hu Ha Hp) as (-> & _ & Harm & Hset & _).
    rewrite HLt, Hds, H2, H3 in Harm.
    destruct (Hset Harm) as (Hs1 & Hs2 & Hs3).
    exists t', snap. auto. }
  split.
  { eexists _, _, _, _.
    split; [vm_compute; reflexivity|].
    split; [vm_compute; reflexivity|].
    repeat split; vm_compute; reflexivity. }
  eexists _, _, _, _.
  split; [vm_compute; reflexivity|].
  split; [vm_compute; reflexivity|].
  repeat split; vm_compute; reflexivity.
Qed.

(** C7 as stated fails in the arithmetic of the program: on a lap of
    length 1 the step from [0.95 * L] to [0.05 * L] is wrapped to
    0.10000000000000009, which is not [0.10 * L]; the equation of the claim
    holds up to rounding only. *)
Lemma arming_ds_counterexample :
  wrap_ds 1%float (0.05 * 1)%float (0.95 * 1)%float = 0.10000000000000009%float /\
  PrimFloat.eqb (wrap_ds 1%float (0.05 * 1)%float (0.95 * 1)%float)
    (0.10 * 1)%float = false /\
  wrap_ds 1%float (0.05 * 1)%float (0.95 * 1)%float <> (0.10 * 1)%float.
Proof.
  split; [vm_compute; reflexivity|]. split; [vm_compute; reflexivity|].
  intros Heq. apply (f_equal Prim2SF) in Heq. vm_compute in Heq. discriminate Heq.
Qed.

(** A fresh timing of a 3000 m circuit last seen at 2850 m arms at 150 m. *)
Lemma update_arming_witness :
  exists t' snap,
    Timing.update
      (mkTiming 3000%float [1000; 2000; 3000]%float 0 false 0%float 0%float
         [None; None; None] [None; None; None] [None; None; None]
         [None; None; None] None None (Some (0.95 * 3000)%float))
      7%float (0.05 * 3000)%float = Some (t', snap, None) /\
    armed t' = true /\ lap_start_ts t' = 7%float /\
    lap_progress_m t' = 0%float /\ current_splits t' = [None; None; None].
Proof.
  destruct update_arming as (_ & _ & Hgen & _).
  destruct (Hgen float binary64
              (mkTiming 3000%float [1000; 2000; 3000]%float 0 false 0%float 0%float
                 [None; None; None] [None; None; None] [None; None; None]
                 [None; None; None] None None (Some (0.95 * 3000)%float))
              7%float 3000%float) as [_ Hex].
  - repeat split.
  - reflexivity.
  - reflexivity.
  - vm_compute. reflexivity.
  - vm_compute. reflexivity.
  - vm_compute. reflexivity.
  - vm_compute. reflexivity.
  - exact Hex.
Defined.

End TimingSpec.

(** ** Outlier rejection in the shared state *)
Module HudSpec.
Import Num Timing Disk Records Geometry Hud.

Section Rejected.

Context {F : Type} `{PyFloat F}.
Variable pow2 : F -> option F.
Variable fsqrt : F -> F.
Variable dumps : gmap string (DriverData F) -> string.

(** A fix whose projection error exceeds the threshold returns right after
    the projection: the state is the old one with the new hint. *)
Lemma update_rejected (st : SharedState F) (payload : Payload F) now
    s_m seg_idx err_m :
  project pow2 fsqrt (track st) (lat payload) (lon payload) (last_seg_idx st)
    = Some (s_m, seg_idx, err_m) ->
  (err_m >? flit MAX_TRACK_ERROR_M)%F = true ->
  Hud.update pow2 fsqrt dumps st payload now
  = Some (mkShared (latest st) (seq st) (history st) (history_size st)
            (track st) (active_driver st) (records st) (timings st)
            seg_idx (events_topic_base st) (_timing_snapshot st)
            (disk st) (emitted st)).
Proof.
  intros Hp He. unfold Hud.update. rewrite Hp. simpl. rewrite He. reflexivity.
Qed.

(** C8: a fix whose projection error exceeds [MAX_TRACK_ERROR_M] is
    dropped before timing: [update] returns with the timing states, the
    records store and its file, [seq], [latest], [history] and the timing
    snapshot unchanged, and nothing is published or written. *)
Theorem update_discards_outlier (st : SharedState F) (payload : Payload F)
    now s_m seg_idx err_m :
  project pow2 fsqrt (track st) (lat payload) (lon payload) (last_seg_idx st)
    = Some (s_m, seg_idx, err_m) ->
  (err_m >? flit MAX_TRACK_ERROR_M)%F = true ->
  exists st',
    Hud.update pow2 fsqrt dumps st payload now = Some st' /\
    timings st' = timings st /\
    records st' = records st /\
    disk st' = disk st /\
    seq st' = seq st /\
    latest st' = latest st /\
    history st' = history st /\
    _timing_snapshot st' = _timing_snapshot st /\
    emitted st' = emitted st.
Proof.
  intros Hp He. eexists. split; [eapply update_rejected; eassumption|].
  repeat split; reflexivity.
Qed.

End Rejected.

(** A fix 4800 m off the middle of the top side. *)
Lemma update_discards_outlier_witness :
  exists st',
    Hud.update float_pow2 PrimFloat.sqrt no_dumps hud0 (fix_at 500 5000) 0%float = Some st' /\
    timings st' = timings hud0 /\ records st' = records hud0 /\
    disk st' = disk hud0 /\ seq st' = 0 /\ latest st' = None /\
    history st' = [] /\ _timing_snapshot st' = None /\ emitted st' = [].
Proof.
  assert (Hp : exists s_m seg_idx err_m,
    project float_pow2 PrimFloat.sqrt (track hud0) (lat (fix_at 500 5000))
      (lon (fix_at 500 5000)) (last_seg_idx hud0) = Some (s_m, seg_idx, err_m)
    /\ (err_m >? flit MAX_TRACK_ERROR_M)%F = true).
  { eexists _, _, _. split; vm_compute; reflexivity. }
  destruct Hp as (s_m & seg_idx & err_m & Hp & He).
  exact (update_discards_outlier float_pow2 PrimFloat.sqrt no_dumps hud0 (fix_at 500 5000)
           0%float s_m seg_idx err_m Hp He).
Defined.

(** C10: the segment index found by the projection is stored as the hint
    before the error is looked at, so for a rejected fix the state
    returned is the old one with the new hint and nothing else changed.
    On the rectangle, an outlier above the top side moves the hint from
    segment 0 to segment 16; the fix on the bottom side that follows, which
    the old hint would have projected on segment 4 with no error and
    accepted, is then projected on the window around segment 16, 200 m
    off, and rejected. *)
Theorem update_outlier_moves_hint :
  (forall (F : Type) (HF : PyFloat F) (pow2 : F -> option F) (fsqrt : F -> F)
          (dumps : gmap string (DriverData F) -> string)
          (st : SharedState F) (payload : Payload F) now s_m seg_idx err_m,
     project pow2 fsqrt (track st) (lat payload) (lon payload) (last_seg_idx st)
       = Some (s_m, seg_idx, err_m) ->
     (err_m >? flit MAX_TRACK_ERROR_M)%F = true ->
     Hud.update pow2 fsqrt dumps st payload now
     = Some (mkShared (latest st) (seq st) (history st) (history_size st)
               (track st) (active_driver st) (records st) (timings st)
               seg_idx (events_topic_base st) (_timing_snapshot st)
               (disk st) (emitted st))) /\
  (exists st1 st2 st3,
     Hud.update float_pow2 PrimFloat.sqrt no_dumps hud0 (fix_at 500 5000) 0%float = Some st1 /\
     last_seg_idx hud0 = 0 /\ last_seg_idx st1 = 16 /\
     seq st1 = seq hud0 /\ latest st1 = latest hud0 /\
     Hud.update float_pow2 PrimFloat.sqrt no_dumps hud0 (fix_at 500 0) 0%float = Some st2 /\
     seq st2 = 1 /\ last_seg_idx st2 = 4 /\
     Hud.update float_pow2 PrimFloat.sqrt no_dumps st1 (fix_at 500 0) 0%float = Some st3 /\
     seq st3 = 0 /\ latest st3 = None /\ last_seg_idx st3 = 16).
Proof.
  split.
  - intros F HF pow2 fsqrt dumps st payload now s_m seg_idx err_m Hp He.
    eapply update_rejected; eassumption.
  - eexists _, _, _.
    split; [vm_compute; reflexivity|].
    split; [reflexivity|]. split; [reflexivity|].
    split; [reflexivity|]. split; [reflexivity|].
    split; [vm_compute; reflexivity|].
    split; [reflexivity|]. split; [reflexivity|].
    split; [vm_compute; reflexivity|].
    repeat split; reflexivity.
Qed.

(** The outlier above the top side of the rectangle: all that changes is
    the hint, from segment 0 to segment 16. *)
Lemma update_outlier_moves_hint_witness :
  Hud.update float_pow2 PrimFloat.sqrt no_dumps hud0 (fix_at 500 5000) 0%float
  = Some (mkShared None 0 [] 100 rectangle "Stig" (mkStore "records.json" ∅)
            {[ "Stig"%string := new_timing 2400%float ]}
            16 "drivers" None ∅ []).
Proof.
  destruct update_outlier_moves_hint as [Hgen _].
  apply (Hgen float binary64 float_pow2 PrimFloat.sqrt no_dumps hud0 (fix_at 500 5000)
           0%float 1700%float 16 4800%float).
  - vm_compute. reflexivity.
  - vm_compute. reflexivity.
Defined.

End HudSpec.

(** ** Persistence of the records store *)
Module RecordsSpec.
Import Num Timing Disk Records.

Lemma string_length_app (s1 s2 : string) :
  String.length (s1 ++ s2) = (String.length s1 + String.length s2)%nat.
Proof. induction s1 as [|c s1 IH]; simpl; [reflexivity|]. rewrite IH. reflexivity. Qed.

(** The sibling writer of the telemetry logger is atomic: while it runs,
    the target file is the old one or the complete new one. *)
Lemma write_json_atomic_states (disk : fs) (p serialized : string) :
  disk !! (p ++ ".tmp")%string = None ->
  Forall (fun d : fs =>
            d !! p = disk !! p \/
            d !! p = Some (serialized ++ String "010" EmptyString)%string)
         (states_during disk (write_json_atomic p serialized)).
Proof.
  intros Htmp.
  assert (Hne : (p ++ ".tmp")%string <> p).
  { intros Heq. assert (Hl : String.length (p ++ ".tmp") = String.length p)
      by (rewrite Heq; reflexivity).
    rewrite string_length_app in Hl. simpl in Hl. lia. }
  unfold write_json_atomic, write_text. cbn [app states_during apply_op].
  rewrite !lookup_insert_eq. cbn [String.append].
  apply Forall_cons_2; [left; reflexivity|].
  apply Forall_cons_2;
    [left; rewrite lookup_insert_ne by assumption; reflexivity|].
  apply Forall_cons_2;
    [left; rewrite !lookup_insert_ne by assumption; reflexivity|].
  apply Forall_cons_2; [right; apply lookup_insert_eq|apply Forall_nil_2].
Qed.

Section Persist.

Context {F : Type} `{PyFloat F}.
Variable dumps : gmap string (DriverData F) -> string.

(** C3 on the code: [persist] opens the records file itself for writing
    and writes the document into it; no temporary file and no rename are
    involved.  When the file held a document, the disk passes through a
    state in which the records file is empty, neither the old document nor
    the new one; once [persist] returns the file holds the new document.
    [add_lap] ends with this [persist]. *)
Theorem persist_truncates_records_file (st : DriverRecordsStore F) (disk : fs)
    (old : string) :
  disk !! path st = Some old ->
  old <> EmptyString ->
  dumps (data st) <> EmptyString ->
  persist_ops dumps st
    = [OpenTruncate (path st); WriteAppend (path st) (dumps (data st))] /\
  states_during disk (persist_ops dumps st)
    = [disk; <[path st := EmptyString]> disk;
       <[path st := dumps (data st)]> (<[path st := EmptyString]> disk)] /\
  (exists d, In d (states_during disk (persist_ops dumps st)) /\
             d !! path st <> Some old /\
             d !! path st <> Some (dumps (data st))) /\
  persist dumps st disk !! path st = Some (dumps (data st)) /\
  (forall driver lap now,
     snd (add_lap dumps st disk driver lap now)
     = persist dumps (add_lap_data st driver lap now) disk).
Proof.
  intros Hold Hne Hnew.
  split; [reflexivity|].
  assert (Hstates : states_during disk (persist_ops dumps st)
    = [disk; <[path st := EmptyString]> disk;
       <[path st := dumps (data st)]> (<[path st := EmptyString]> disk)]).
  { unfold persist_ops, write_text. cbn [states_during apply_op].
    rewrite lookup_insert_eq. reflexivity. }
  split; [exact Hstates|].
  split.
  - exists (<[path st := EmptyString]> disk). rewrite Hstates.
    split; [right; left; reflexivity|].
    rewrite lookup_insert_eq. split; intros Heq; injection Heq as Heq; auto.
  - split; [|reflexivity].
    unfold persist, persist_ops, write_text, run_ops. cbn [fold_left apply_op].
    rewrite lookup_insert_eq. rewrite lookup_insert_eq. reflexivity.
Qed.

End Persist.

(** A records file holding a document, and the store persisted over it. *)
Lemma persist_truncates_records_file_witness :
  exists d,
    In d (states_during {[ "lap_records.json"%string := "{old}"%string ]}
            (persist_ops (F:=float) (fun _ => "{new}"%string)
               (mkStore "lap_records.json" ∅))) /\
    d !! "lap_records.json"%string = Some EmptyString.
Proof.
  destruct (persist_truncates_records_file (F:=float) (fun _ => "{new}"%string)
              (mkStore "lap_records.json" ∅)
              {[ "lap_records.json"%string := "{old}"%string ]} "{old}"%string)
    as (_ & Hst & _).
  - reflexivity.
  - discriminate.
  - discriminate.
  - rewrite Hst. eexists. split; [right; left; reflexivity|]. reflexivity.
Defined.

End RecordsSpec.

(** ** Frames in a stream *)
Module WireSpec.
Import Frame Wire FrameSpec.

Lemma interleave_snoc gaps frames g f :
  length gaps = length frames ->
  interleave (gaps ++ [g]) (frames ++ [f]) = interleave gaps frames ++ g ++ f.
Proof.
  revert frames. induction gaps as [|g0 gaps IH]; intros [|f0 frames] Hl;
    simpl in Hl; try discriminate.
  - simpl. rewrite !app_nil_r. reflexivity.
  - simpl. rewrite IH by lia. rewrite <- !app_assoc. reflexivity.
Qed.

Lemma parse_loop_parsed buf : forall fuel i frames i' frames',
  parsed buf i frames ->
  parse_loop fuel buf i frames = Some (i', frames') ->
  parsed buf i' frames' /\ waiting (drop i' buf).
Proof.
  induction fuel as [|fuel IH]; intros i frames i' frames' Hinv Hrun;
    [discriminate|].
  destruct Hinv as (Hi & Hwf & gaps & skipped & Hgl & Htake).
  simpl in Hrun. unfold parse_step in Hrun.
  destruct (i + 5 <=? length buf)%nat eqn:Hw; simpl in Hrun.
  2:{ injection Hrun as <- <-. apply Nat.leb_gt in Hw.
      split; [repeat split; eauto|]. left. rewrite length_drop. lia. }
  apply Nat.leb_le in Hw.
  destruct (buf !! i) as [b|] eqn:Hb; [|discriminate].
  assert (Hskip : parsed buf (i + 1) frames).
  { split; [lia|]. split; [exact Hwf|]. exists gaps, (skipped ++ [b]).
    split; [exact Hgl|].
    replace (i + 1)%nat with (S i) by lia.
    rewrite (take_S_r _ _ _ Hb), Htake, <- app_assoc. reflexivity. }
  destruct (b =? 128) eqn:Eb; simpl in Hrun; [|eapply IH; eauto].
  apply Z.eqb_eq in Eb. subst b.
  destruct (buf !! (i + 3)%nat) as [pl|] eqn:Hpl; [|discriminate].
  destruct (length buf <? i + 4 + Z.to_nat pl + 1)%nat eqn:He.
  { injection Hrun as <- <-. apply Nat.ltb_lt in He.
    split; [repeat split; eauto|]. right. exists pl.
    rewrite !lookup_drop, length_drop.
    replace (i + 0)%nat with i by lia. repeat split; [assumption..|lia]. }
  apply Nat.ltb_ge in He.
  set (frame := take (i + 4 + Z.to_nat pl + 1 - i) (drop i buf)) in *.
  destruct (py_last frame) as [ck|] eqn:Hck; [|discriminate].
  destruct (checksum (py_init frame) =? ck) eqn:Eck; [|eapply IH; eauto].
  apply Z.eqb_eq in Eck.
  eapply IH; [|exact Hrun].
  assert (Hfl : length frame = (4 + Z.to_nat pl + 1)%nat).
  { unfold frame. rewrite length_take, length_drop. lia. }
  split; [lia|]. split.
  - apply Forall_app. split; [exact Hwf|]. apply Forall_singleton.
    exists pl, ck. unfold frame at 1 2.
    rewrite !lookup_take_lt by lia. rewrite !lookup_drop.
    replace (i + 0)%nat with i by lia. repeat split; assumption.
  - exists (gaps ++ [skipped]), []. split; [rewrite !length_app; simpl; lia|].
    rewrite interleave_snoc by exact Hgl. rewrite app_nil_r.
    replace (i + 4 + Z.to_nat pl + 1)%nat with (i + (4 + Z.to_nat pl + 1))%nat by lia.
    rewrite <- take_take_drop, Htake. rewrite <- app_assoc. f_equal. f_equal.
    unfold frame. f_equal. lia.
Qed.

(** X1: on every buffer the parser returns, never indexing out of range;
    each frame it returns starts with the sentinel [0x80], is as long as
    its length byte announces and carries a matching checksum; the buffer
    is the returned frames in order, each after the bytes skipped before
    it, then more skipped bytes, then what the parser leaves; and what it
    leaves is shorter than five bytes or is the start of a frame whose
    announced end has not arrived. *)
Theorem parse_frames_sound (buf : list Z) :
  exists frames rest gaps skipped,
    _parse_frames buf = Some (frames, rest) /\
    Forall well_framed frames /\
    length gaps = length frames /\
    buf = interleave gaps frames ++ skipped ++ rest /\
    waiting rest.
Proof.
  unfold _parse_frames.
  destruct (parse_loop_total buf (S (length buf)) 0 [] ltac:(lia) ltac:(lia))
    as [[i frames] Hrun].
  rewrite Hrun.
  destruct (parse_loop_parsed buf (S (length buf)) 0%nat [] i frames) as [Hinv Hwait];
    [|exact Hrun|].
  { split; [lia|]. split; [constructor|]. exists [], []. split; reflexivity. }
  destruct Hinv as (Hi & Hwf & gaps & skipped & Hgl & Htake).
  exists frames, (drop i buf), gaps, skipped.
  split; [reflexivity|]. split; [exact Hwf|]. split; [exact Hgl|].
  split; [|exact Hwait].
  rewrite app_assoc, <- Htake, take_drop. reflexivity.
Qed.

Lemma parse_loop_more_fuel buf : forall fuel k i frames r,
  parse_loop fuel buf i frames = Some r ->
  parse_loop (fuel + k) buf i frames = Some r.
Proof.
  induction fuel as [|fuel IH]; intros k i frames r Hrun; [discriminate|].
  simpl in *. destruct (parse_step buf i frames); auto.
Qed.

(** Bytes appended to the buffer do not change what the parser did before
    it stopped. *)
Lemma parse_loop_prefix buf more : forall fuel i frames i' frames',
  parse_loop fuel buf i frames = Some (i', frames') ->
  forall fuel2 r,
    parse_loop fuel2 (buf ++ more) i' frames' = Some r ->
    parse_loop (fuel + fuel2) (buf ++ more) i frames = Some r.
Proof.
  induction fuel as [|fuel IH]; intros i frames i' frames' Hrun fuel2 r Hnext;
    [discriminate|].
  assert (Hstop : parse_loop fuel2 (buf ++ more) i frames = Some r ->
                  parse_loop (S fuel + fuel2) (buf ++ more) i frames = Some r).
  { intros Hr. replace (S fuel + fuel2)%nat with (fuel2 + S fuel)%nat by lia.
    apply parse_loop_more_fuel. exact Hr. }
  simpl in Hrun. unfold parse_step in Hrun.
  destruct (i + 5 <=? length buf)%nat eqn:Hw; simpl in Hrun.
  2:{ injection Hrun as <- <-. auto. }
  apply Nat.leb_le in Hw.
  destruct (buf !! i) as [b|] eqn:Hb; [|discriminate].
  destruct (buf !! (i + 3)%nat) as [pl|] eqn:Hpl.
  2:{ apply lookup_ge_None in Hpl. lia. }
  cbn [Nat.add parse_loop]. unfold parse_step.
  destruct (i + 5 <=? length (buf ++ more))%nat eqn:Hw2.
  2:{ apply Nat.leb_gt in Hw2. rewrite length_app in Hw2. lia. }
  simpl negb. cbv iota.
  rewrite (lookup_app_l_Some _ _ _ _ Hb).
  destruct (b =? 128) eqn:Eb; simpl negb in *; cbv iota in *;
    [|eapply IH; eauto].
  rewrite (lookup_app_l_Some _ _ _ _ Hpl).
  destruct (length buf <? i + 4 + Z.to_nat pl + 1)%nat eqn:He.
  { injection Hrun as <- <-. apply Hstop in Hnext.
    cbn [Nat.add parse_loop] in Hnext. unfold parse_step in Hnext.
    rewrite Hw2 in Hnext. simpl negb in Hnext. cbv iota in Hnext.
    rewrite (lookup_app_l_Some _ _ _ _ Hb), Eb in Hnext.
    simpl negb in Hnext. cbv iota in Hnext.
    rewrite (lookup_app_l_Some _ _ _ _ Hpl) in Hnext. exact Hnext. }
  apply Nat.ltb_ge in He.
  destruct (length (buf ++ more) <? i + 4 + Z.to_nat pl + 1)%nat eqn:He2.
  { apply Nat.ltb_lt in He2. rewrite length_app in He2. lia. }
  assert (Hfr : take (i + 4 + Z.to_nat pl + 1 - i) (drop i (buf ++ more))
                = take (i + 4 + Z.to_nat pl + 1 - i) (drop i buf)).
  { rewrite drop_app_le by lia. apply take_app_le. rewrite length_drop. lia. }
  rewrite Hfr.
  destruct (py_last _) as [ck|]; [|discriminate].
  destruct (_ =? ck); eapply IH; eauto.
Qed.

(** Parsing from position [k] is parsing the buffer without its first [k]
    bytes. *)
Lemma parse_loop_shift buf k pre : (k <= length buf)%nat ->
  forall fuel i acc i' frames,
  parse_loop fuel (drop k buf) i acc = Some (i', frames) ->
  parse_loop fuel buf (k + i) (pre ++ acc) = Some (k + i', pre ++ frames)%nat.
Proof.
  intros Hk.
  induction fuel as [|fuel IH]; intros i acc i' frames Hrun; [discriminate|].
  simpl in *. unfold parse_step in *.
  rewrite length_drop in Hrun. rewrite !lookup_drop in Hrun.
  replace (k + i + 5 <=? length buf)%nat with (i + 5 <=? length buf - k)%nat
    by (apply eq_true_iff_eq; rewrite !Nat.leb_le; lia).
  destruct (i + 5 <=? length buf - k)%nat; simpl negb in *; cbv iota in *.
  2:{ injection Hrun as <- <-. reflexivity. }
  destruct (buf !! (k + i)%nat) as [b|]; [|discriminate].
  destruct (b =? 128); simpl negb in *; cbv iota in *;
    [|replace (k + i + 1)%nat with (k + (i + 1))%nat by lia; apply IH; exact Hrun].
  replace (k + i + 3)%nat with (k + (i + 3))%nat by lia.
  destruct (buf !! (k + (i + 3))%nat) as [pl|]; [|discriminate].
  replace (length buf <? k + i + 4 + Z.to_nat pl + 1)%nat
    with (length buf - k <? i + 4 + Z.to_nat pl + 1)%nat
    by (apply eq_true_iff_eq; rewrite !Nat.ltb_lt; lia).
  destruct (length buf - k <? i + 4 + Z.to_nat pl + 1)%nat.
  { injection Hrun as <- <-. reflexivity. }
  rewrite drop_drop in Hrun.
  replace (k + i + 4 + Z.to_nat pl + 1 - (k + i))%nat
    with (i + 4 + Z.to_nat pl + 1 - i)%nat by lia.
  destruct (py_last _) as [ck|]; [|discriminate].
  destruct (_ =? ck).
  - replace (k + i + 4 + Z.to_nat pl + 1)%nat
      with (k + (i + 4 + Z.to_nat pl + 1))%nat by lia.
    rewrite <- app_assoc. apply IH. exact Hrun.
  - replace (k + i + 1)%nat with (k + (i + 1))%nat by lia. apply IH. exact Hrun.
Qed.

(** X2: a stream may be fed to the parser in pieces: parsing a buffer,
    then appending more bytes to what the parser left and parsing again,
    yields the same frames in the same order, and leaves the same bytes, as
    parsing the whole at once. *)
Theorem parse_frames_streaming (buf more : list Z) :
  exists frames1 rest1 frames2 rest2,
    _parse_frames buf = Some (frames1, rest1) /\
    _parse_frames (rest1 ++ more) = Some (frames2, rest2) /\
    _parse_frames (buf ++ more) = Some (frames1 ++ frames2, rest2).
Proof.
  unfold _parse_frames.
  destruct (parse_loop_total buf (S (length buf)) 0 [] ltac:(lia) ltac:(lia))
    as [[i f1] Hrun1].
  destruct (parse_loop_parsed buf (S (length buf)) 0%nat [] i f1) as [Hinv _];
    [|exact Hrun1|].
  { split; [lia|]. split; [constructor|]. exists [], []. split; reflexivity. }
  destruct Hinv as (Hi & _).
  set (rest := drop i buf).
  destruct (parse_loop_total (rest ++ more) (S (length (rest ++ more))) 0 []
              ltac:(lia) ltac:(lia)) as [[j f2] Hrun2].
  destruct (parse_loop_total (buf ++ more) (S (length (buf ++ more))) 0 []
              ltac:(lia) ltac:(lia)) as [[n f] Hrun].
  exists f1, rest, f2, (drop j (rest ++ more)).
  rewrite Hrun1, Hrun2, Hrun. split; [reflexivity|]. split; [reflexivity|].
  assert (Hrest : rest ++ more = drop i (buf ++ more)).
  { unfold rest. rewrite drop_app_le by lia. reflexivity. }
  rewrite Hrest in Hrun2 |- *.
  apply (parse_loop_shift (buf ++ more) i f1) in Hrun2;
    [|rewrite length_app; lia].
  rewrite app_nil_r in Hrun2.
  replace (i + 0)%nat with i in Hrun2 by lia.
  pose proof (parse_loop_prefix buf more _ _ _ _ _ Hrun1 _ _ Hrun2) as Hall.
  apply (parse_loop_more_fuel _ _ (S (length buf) + S (length (drop i (buf ++ more))))%nat)
    in Hrun.
  apply (parse_loop_more_fuel _ _ (S (length (buf ++ more)))) in Hall.
  replace (S (length buf) + S (length (drop i (buf ++ more))) + S (length (buf ++ more)))%nat
    with (S (length (buf ++ more)) + (S (length buf) + S (length (drop i (buf ++ more)))))%nat
    in Hall by lia.
  rewrite Hall in Hrun. injection Hrun as <- <-.
  rewrite drop_drop. reflexivity.
Qed.

(** X3: [_build_frame] raises exactly when the payload is longer than 255
    bytes (or the ECU address is no byte value); otherwise the frame is
    five bytes longer than the payload, has the shape the parser accepts,
    and is made of byte values when the payload is. *)
Theorem build_frame_spec (ecu_addr : Z) (payload : list Z) :
  (_build_frame ecu_addr payload = None <->
   (255 < length payload)%nat \/ is_byte ecu_addr = false) /\
  (forall frame, _build_frame ecu_addr payload = Some frame ->
     length frame = (length payload + 5)%nat /\
     well_framed frame /\
     (Forall (fun b => is_byte b = true) payload ->
      Forall (fun b => is_byte b = true) frame)).
Proof.
  split.
  - unfold _build_frame.
    destruct (Z.of_nat (length payload) >? 255) eqn:E.
    + split; [intros _; left; zbool; lia|reflexivity].
    + destruct (is_byte ecu_addr) eqn:Eb; simpl.
      * split; [discriminate|]. intros [Hl|Hb]; [zbool; lia|discriminate].
      * split; [intros _; right; reflexivity|reflexivity].
  - intros frame Hb.
    pose proof (build_frame_shape _ _ _ Hb) as [Hf Hlen].
    assert (Hbyte : is_byte ecu_addr = true).
    { unfold _build_frame in Hb.
      destruct (Z.of_nat (length payload) >? 255); [discriminate|].
      destruct (is_byte ecu_addr); [reflexivity|discriminate]. }
    set (msg := [128; ecu_addr; 240; Z.of_nat (length payload)] ++ payload) in *.
    assert (Hsn : frame = msg ++ [checksum msg]).
    { rewrite Hf. unfold msg. rewrite <- app_assoc. reflexivity. }
    split; [|split].
    + rewrite Hsn. unfold msg. rewrite !length_app. simpl. lia.
    + exists (Z.of_nat (length payload)), (checksum msg).
      rewrite Nat2Z.id. rewrite Hsn.
      rewrite py_last_snoc, py_init_snoc. unfold msg.
      repeat split; try reflexivity.
      rewrite !length_app. simpl. lia.
    + intros Hp. rewrite Hsn. apply Forall_app. split.
      * unfold msg. apply Forall_app. split; [|exact Hp].
        repeat constructor; try assumption.
        unfold is_byte. apply andb_true_iff. split; zbool; apply Z.leb_le; lia.
      * apply Forall_singleton. unfold checksum, is_byte.
        change 255 with (Z.ones 8). rewrite Z.land_ones by lia.
        pose proof (Z.mod_pos_bound (foldr Z.add 0 msg) (2 ^ 8) ltac:(lia)).
        apply andb_true_iff. split; apply Z.leb_le; change (Z.ones 8) with 255; lia.
Qed.

End WireSpec.

(** ** Requests, replies and raw values *)
Module CodecSpec.
Import Chunked Expr Wire ChunkedSpec.

Lemma is_byte_spec b : is_byte b = true <-> 0 <= b <= 255.
Proof. unfold is_byte. rewrite andb_true_iff, !Z.leb_le. reflexivity. Qed.

Lemma land_255 a : Z.land a 255 = a mod 256.
Proof. change 255 with (Z.ones 8). rewrite Z.land_ones by lia. reflexivity. Qed.

Lemma addr_to_bytes_bytes a : Forall (fun b => is_byte b = true) (addr_to_bytes a).
Proof.
  unfold addr_to_bytes. repeat constructor; apply is_byte_spec;
    rewrite land_255; pose proof (Z.mod_pos_bound (Z.shiftr a 16) 256);
    pose proof (Z.mod_pos_bound (Z.shiftr a 8) 256);
    pose proof (Z.mod_pos_bound a 256); lia.
Qed.

(** Big-endian bytes, most significant first. *)
Lemma big_endian_snoc bs b :
  fold_left (fun acc b => acc * 256 + b) (bs ++ [b]) 0
  = fold_left (fun acc b => acc * 256 + b) bs 0 * 256 + b.
Proof. rewrite fold_left_app. reflexivity. Qed.

Lemma big_endian_bound bs :
  Forall (fun b => is_byte b = true) bs ->
  0 <= fold_left (fun acc b => acc * 256 + b) bs 0 < 2 ^ (8 * Z.of_nat (length bs)).
Proof.
  induction bs as [|b bs IH] using rev_ind; intros Hb.
  - simpl. lia.
  - apply Forall_app in Hb as [Hbs Hb]. rewrite Forall_singleton in Hb.
    apply is_byte_spec in Hb. specialize (IH Hbs).
    rewrite big_endian_snoc, length_app. simpl length.
    replace (8 * Z.of_nat (length bs + 1)) with (8 * Z.of_nat (length bs) + 8) by lia.
    rewrite Z.pow_add_r by lia. change (2 ^ 8) with 256. nia.
Qed.

Lemma forallb_is_byte bs :
  forallb is_byte bs = true <-> Forall (fun b => is_byte b = true) bs.
Proof. rewrite forallb_forall, Forall_forall. setoid_rewrite list_elem_of_In. reflexivity. Qed.

Lemma decode_addr_to_bytes a st :
  0 <= a <= 16777215 -> String.prefix "int" st = false ->
  decode_raw_value (addr_to_bytes a) st = Some a.
Proof.
  intros Ha Hst. unfold decode_raw_value.
  destruct (forallb is_byte (addr_to_bytes a)) eqn:Hb.
  2:{ pose proof (proj2 (forallb_is_byte _) (addr_to_bytes_bytes a)). congruence. }
  rewrite Hst. simpl. f_equal.
  rewrite !land_255, !Z.shiftr_div_pow2 by lia.
  change (2 ^ 16) with 65536. change (2 ^ 8) with 256.
  Z.to_euclidean_division_equations. lia.
Qed.

Lemma extend_req_app : forall addresses req out,
  extend_req req addresses = Some out ->
  out = req ++ flat_map addr_to_bytes addresses /\
  Forall (fun a => 0 <= a <= 16777215) addresses.
Proof.
  induction addresses as [|a addresses IH]; intros req out H; simpl in H.
  - injection H as <-. rewrite app_nil_r. split; [reflexivity|constructor].
  - destruct ((a <? 0) || (a >? 16777215)) eqn:E; [discriminate|].
    apply orb_false_iff in E as [E1 E2]. zbool.
    apply IH in H as [-> Hr]. split.
    + cbn [flat_map]. rewrite <- app_assoc. reflexivity.
    + constructor; [lia|exact Hr].
Qed.

Lemma extend_req_None : forall addresses req,
  extend_req req addresses = None <->
  Exists (fun a => a < 0 \/ 16777215 < a) addresses.
Proof.
  induction addresses as [|a addresses IH]; intros req; simpl.
  - split; [discriminate|]. intros H. inversion H.
  - destruct ((a <? 0) || (a >? 16777215)) eqn:E.
    + split; [|reflexivity]. intros _. apply Exists_cons_hd.
      apply orb_true_iff in E as [E|E]; zbool; lia.
    + apply orb_false_iff in E as [E1 E2]. zbool. rewrite IH. split.
      * intros H. apply Exists_cons_tl. exact H.
      * intros H. inversion H; subst; [lia|assumption].
Qed.

Lemma flat_map_addr_lookup : forall addresses k a,
  addresses !! k = Some a ->
  take 3 (drop (3 * k) (flat_map addr_to_bytes addresses)) = addr_to_bytes a.
Proof.
  induction addresses as [|a0 addresses IH]; intros [|k] a H; try discriminate.
  - injection H as <-. reflexivity.
  - simpl in H. replace (3 * S k)%nat with (3 + 3 * k)%nat by lia.
    cbn [flat_map]. change (addr_to_bytes a0 ++ ?l) with
      ([Z.land (Z.shiftr a0 16) 255; Z.land (Z.shiftr a0 8) 255; Z.land a0 255] ++ l).
    simpl drop at 1. apply IH. exact H.
Qed.

(** X4: the multi-read request is built from every list of addresses in
    the 24-bit range and from no other (the [ValueError]); it is the bytes
    it started from followed by three bytes per address, all of them byte
    values, and reading each triple back big-endian gives the addresses in
    the order asked for. *)
Theorem extend_req_layout (req addresses : list Z) :
  (extend_req req addresses = None <->
   Exists (fun a => a < 0 \/ 16777215 < a) addresses) /\
  (forall out, extend_req req addresses = Some out ->
     out = req ++ flat_map addr_to_bytes addresses /\
     length out = (length req + 3 * length addresses)%nat /\
     (Forall (fun b => is_byte b = true) req ->
      Forall (fun b => is_byte b = true) out) /\
     (forall k a, addresses !! k = Some a ->
        decode_raw_value (take 3 (drop (length req + 3 * k) out)) "uint24"
        = Some a)).
Proof.
  split; [apply extend_req_None|].
  intros out H. apply extend_req_app in H as [-> Hr].
  split; [reflexivity|]. split; [|split].
  - rewrite length_app. f_equal.
    clear Hr. induction addresses as [|a addresses IH]; [reflexivity|].
    cbn [flat_map]. rewrite length_app, IH. simpl. lia.
  - intros Hb. apply Forall_app. split; [exact Hb|].
    clear Hr. induction addresses as [|a addresses IH]; [constructor|].
    cbn [flat_map]. apply Forall_app. split; [apply addr_to_bytes_bytes|exact IH].
  - intros k a Hk. rewrite drop_app_add'  by reflexivity.
    rewrite (flat_map_addr_lookup _ _ _ Hk).
    apply decode_addr_to_bytes; [|reflexivity].
    rewrite Forall_lookup in Hr. exact (Hr k a Hk).
Qed.

Lemma fold_zip_lookup : forall (addresses data : list Z) (m : gmap Z Z) a,
  length data = length addresses ->
  (a ∉ addresses ->
   fold_left (fun m p => <[p.1 := p.2]> m) (zip addresses data) m !! a = m !! a) /\
  (forall i, addresses !! i = Some a ->
     (forall j, (i < j)%nat -> addresses !! j <> Some a) ->
     fold_left (fun m p => <[p.1 := p.2]> m) (zip addresses data) m !! a
     = data !! i).
Proof.
  induction addresses as [|a0 addresses IH]; intros data m a Hlen.
  - split; [reflexivity|]. intros i Hi. discriminate.
  - destruct data as [|d data]; [discriminate|]. simpl in Hlen.
    destruct (IH data (<[a0 := d]> m) a ltac:(lia)) as [IH1 IH2].
    split.
    + intros Hn. apply not_elem_of_cons in Hn as [Hne Hn].
      simpl. rewrite IH1 by exact Hn. apply lookup_insert_ne. congruence.
    + intros [|i] Hi Hlast; simpl in *.
      * injection Hi as ->. rewrite IH1.
        -- apply lookup_insert_eq.
        -- intros Hin. apply list_elem_of_lookup in Hin as [j Hj].
           exact (Hlast (S j) ltac:(lia) Hj).
      * apply IH2; [exact Hi|]. intros j Hj. apply (Hlast (S j)). lia.
Qed.

(** The dict built from the reply: every address maps to the byte at the
    last position where it was asked for. *)
Lemma dict_of_zip_lookup addresses data i a :
  length data = length addresses ->
  addresses !! i = Some a ->
  (forall j, (i < j)%nat -> addresses !! j <> Some a) ->
  dict_of_zip addresses data !! a = data !! i.
Proof.
  intros Hlen Hi Hlast. unfold dict_of_zip.
  apply (proj2 (fold_zip_lookup addresses data ∅ a Hlen)); assumption.
Qed.

Section Client.

Context {W : Type}.
Variable request : W -> list Z -> W * outcome (list Z).
Variable pad_addr : Z.

(** X5: [read_multiple] answers an empty list of addresses with the empty
    dict, and refuses more than 84 addresses, a pad address that is no byte
    value or an address outside the 24-bit range with [ValueError], all
    four without a request on the link.  Otherwise it sends the one request
    [A8, pad, addresses]; an exception of the request is passed on, a reply
    [E8, data] with one data byte per address gives the dict that maps
    exactly the addresses asked for, each to the byte at the last position
    where it was asked for, and any other reply raises [RuntimeError]. *)
Theorem read_multiple_spec (w : W) (addresses : list Z) :
  let r := read_multiple request pad_addr w addresses in
  (addresses = [] -> r = (w, Ok ∅)) /\
  (addresses <> [] ->
   (84 < length addresses)%nat
   \/ is_byte pad_addr = false
   \/ Exists (fun a => a < 0 \/ 16777215 < a) addresses ->
   r = (w, Raise ValueError)) /\
  (addresses <> [] ->
   (length addresses <= 84)%nat ->
   is_byte pad_addr = true ->
   Forall (fun a => 0 <= a <= 16777215) addresses ->
   let sent := request w ([168; pad_addr] ++ flat_map addr_to_bytes addresses) in
   r.1 = sent.1 /\
   match sent.2 with
   | Raise e => r.2 = Raise e
   | Ok reply =>
     (forall data, reply = 232 :: data -> length data = length addresses ->
        exists m, r.2 = Ok m /\
          dom m = (list_to_set addresses : gset Z) /\
          forall i a, addresses !! i = Some a ->
            (forall j, (i < j)%nat -> addresses !! j <> Some a) ->
            m !! a = data !! i) /\
     ((forall data, reply = 232 :: data -> length data <> length addresses) ->
      r.2 = Raise RuntimeError)
   end).
Proof.
  intros r. subst r. split; [intros ->; reflexivity|]. split.
  - intros Hne Hbad. unfold read_multiple.
    destruct addresses as [|a addresses]; [contradiction|].
    destruct (84 <? length (a :: addresses))%nat eqn:El; [reflexivity|].
    apply Nat.ltb_ge in El. destruct Hbad as [Hbad|[Hbad|Hbad]]; [lia| |].
    + rewrite Hbad. reflexivity.
    + destruct (negb (is_byte pad_addr)); [reflexivity|].
      apply (extend_req_None _ [168; pad_addr]) in Hbad. rewrite Hbad. reflexivity.
  - intros Hne Hlen Hpad Hrange. unfold read_multiple.
    destruct addresses as [|a0 addresses]; [contradiction|].
    set (addrs := a0 :: addresses) in *.
    destruct (84 <? length addrs)%nat eqn:El; [apply Nat.ltb_lt in El; lia|].
    rewrite Hpad. cbn [negb].
    destruct (extend_req [168; pad_addr] addrs) as [req|] eqn:Hreq.
    2:{ apply extend_req_None in Hreq. exfalso.
        rewrite Exists_exists in Hreq. destruct Hreq as (a & Hin & Ha).
        rewrite Forall_forall in Hrange. specialize (Hrange a Hin). lia. }
    apply extend_req_app in Hreq as [-> _].
    destruct (request w ([168; pad_addr] ++ flat_map addr_to_bytes addrs))
      as [w1 [reply|e]]; [|split; reflexivity].
    split; [destruct reply as [|tag data]; [reflexivity|];
            destruct (negb (tag =? 232)); [reflexivity|];
            destruct (negb (length data =? length addrs)%nat); reflexivity|].
    cbn [snd]. destruct reply as [|tag data].
    { split; [discriminate|reflexivity]. }
    destruct (tag =? 232) eqn:Et; simpl negb; cbv iota.
    2:{ apply Z.eqb_neq in Et. split; [|reflexivity].
        intros data' Hd. congruence. }
    apply Z.eqb_eq in Et. subst tag.
    match goal with
    | |- context [negb (?x =? ?y)%nat] => destruct (x =? y)%nat eqn:Ed
    end; change (S (length addresses)) with (length addrs) in Ed;
      simpl negb; cbv iota.
    + apply Nat.eqb_eq in Ed. split.
      * intros data' Hd _. injection Hd as <-.
        exists (dict_of_zip addrs data). split; [reflexivity|].
        split; [apply dom_dict_of_zip; exact Ed|].
        intros i a Hi Hlast. apply dict_of_zip_lookup; assumption.
      * intros Hno. exfalso. exact (Hno data eq_refl Ed).
    + split; [|reflexivity]. apply Nat.eqb_neq in Ed.
      intros data' Hd Hl. injection Hd as <-. contradiction.
Qed.

End Client.

Lemma to_u16_be_add msb lsb :
  0 <= lsb <= 255 -> to_u16_be msb lsb = msb * 256 + lsb.
Proof.
  intros Hl. unfold to_u16_be.
  assert (H0 : Z.land (Z.shiftl msb 8) lsb = 0).
  { apply Z.bits_inj'. intros n Hn.
    rewrite Z.land_spec, Z.bits_0, Z.shiftl_spec by lia.
    destruct (Z.ltb_spec n 8).
    + rewrite Z.testbit_neg_r by lia. reflexivity.
    + rewrite (Z.bits_above_log2 lsb n); [apply andb_false_r|lia|].
      destruct (Z.eq_dec lsb 0) as [->|]; [simpl; lia|].
      apply Z.log2_lt_pow2; [lia|].
      apply Z.lt_le_trans with (2 ^ 8); [simpl; lia|].
      apply Z.pow_le_mono_r; lia. }
  pose proof (Z.add_lor_land (Z.shiftl msb 8) lsb) as Hadd.
  rewrite H0, Z.shiftl_mul_pow2 in Hadd by lia.
  rewrite Z.shiftl_mul_pow2 by lia. change (2 ^ 8) with 256 in *. lia.
Qed.

(** X6: [decode_raw_value] raises exactly when some item is no byte
    value.  Otherwise an unsigned storage type of [n] bytes decodes into
    [0 .. 256^n - 1], a signed one (a name starting with [int]) into
    [-256^n/2 .. 256^n/2 - 1], and the unsigned reading is the signed one
    modulo [256^n]; two bytes read unsigned are what [to_u16_be] makes of
    them. *)
Theorem decode_raw_value_range (raw_bytes : list Z) (storagetype : string) :
  let n := Z.of_nat (length raw_bytes) in
  (decode_raw_value raw_bytes storagetype = None <->
   Exists (fun b => is_byte b = false) raw_bytes) /\
  (forall v, decode_raw_value raw_bytes storagetype = Some v ->
     (if String.prefix "int" storagetype
      then - 2 ^ (8 * n) <= 2 * v < 2 ^ (8 * n)
      else 0 <= v < 2 ^ (8 * n)) /\
     decode_raw_value raw_bytes "uint" = Some (v mod 2 ^ (8 * n))) /\
  (forall msb lsb, raw_bytes = [msb; lsb] ->
     is_byte msb = true -> is_byte lsb = true ->
     decode_raw_value raw_bytes "uint16" = Some (to_u16_be msb lsb)).
Proof.
  intros n. split; [|split].
  - unfold decode_raw_value.
    destruct (forallb is_byte raw_bytes) eqn:Hb; simpl.
    + split; [destruct (_ && _); discriminate|].
      intros Hex. apply forallb_is_byte in Hb.
      rewrite Exists_exists in Hex. destruct Hex as (b & Hin & Hn).
      rewrite Forall_forall in Hb. rewrite (Hb b Hin) in Hn. discriminate.
    + split; [|reflexivity]. intros _.
      apply not_true_iff_false in Hb. rewrite forallb_is_byte in Hb.
      apply not_Forall_Exists in Hb; [|intros b; apply _].
      eapply Exists_impl; [exact Hb|]. intros b Hbb. simpl in Hbb.
      destruct (is_byte b); [contradiction|reflexivity].
  - intros v. unfold decode_raw_value.
    destruct (forallb is_byte raw_bytes) eqn:Hb; simpl negb; cbv iota;
      [|discriminate].
    apply forallb_is_byte in Hb. pose proof (big_endian_bound _ Hb) as Hu.
    fold n in Hu |- *. set (u := fold_left _ raw_bytes 0) in *.
    change (String.prefix "int" "uint") with false. simpl andb.
    destruct (String.prefix "int" storagetype); simpl andb; cbv iota.
    + destruct (0 <? 8 * n) eqn:Hbits; simpl andb; cbv iota.
      * zbool.
        assert (Hp : 2 ^ (8 * n) = 2 * 2 ^ (8 * n - 1)).
        { rewrite <- Z.pow_succ_r by lia. f_equal. lia. }
        destruct (2 ^ (8 * n - 1) <=? u) eqn:Hs; zbool; intros Hv;
          injection Hv as <-.
        -- split; [lia|]. f_equal.
           replace (u - 2 ^ (8 * n)) with (u + (-1) * 2 ^ (8 * n)) by lia.
           rewrite Z.mod_add by lia. symmetry. apply Z.mod_small. lia.
        -- split; [lia|]. f_equal. symmetry. apply Z.mod_small. lia.
      * zbool. intros Hv. injection Hv as <-.
        assert (Hn0 : 8 * n = 0) by lia. rewrite Hn0 in *.
        change (2 ^ 0) with 1 in *. split; [lia|]. f_equal.
        rewrite Z.mod_1_r. lia.
    + intros Hv. injection Hv as <-. split; [lia|]. f_equal.
      symmetry. apply Z.mod_small. lia.
  - intros msb lsb -> Hm Hl. unfold decode_raw_value. simpl forallb.
    rewrite Hm, Hl. simpl. f_equal. symmetry.
    apply to_u16_be_add. apply is_byte_spec. exact Hl.
Qed.

End CodecSpec.

(** ** Edges of the spool and the atomic writer *)
Module SpoolEdgeSpec.
Import Text Spool Disk SpoolLines SpoolSpec RecordsSpec.

(** X7: [trim] leaves the bound and the append counter alone.  With a
    bound of at least one it keeps the newest lines up to the bound, so
    the depth becomes the smaller of the depth and the bound, and trimming
    twice is trimming once.  With a bound of zero or less the slice
    [lines[-max_entries:]] no longer counts from the end: a bound of zero
    keeps every line, a negative bound [-k] drops the [k] oldest. *)
Theorem trim_spec (sp : JsonlSpool) :
  max_entries (trim sp) = max_entries sp /\
  append_counter (trim sp) = append_counter sp /\
  (1 <= max_entries sp ->
   file_lines (trim sp)
   = drop (length (file_lines sp) - Z.to_nat (max_entries sp)) (file_lines sp) /\
   depth (trim sp) = Z.min (depth sp) (max_entries sp) /\
   trim (trim sp) = trim sp) /\
  (max_entries sp <= 0 ->
   file_lines (trim sp) = drop (Z.to_nat (- max_entries sp)) (file_lines sp)).
Proof.
  destruct sp as [[ls|] m k]; unfold trim, depth, file_lines;
    cbn [file max_entries append_counter].
  2:{ split_and!; try reflexivity.
      - intros Hm. rewrite drop_nil. split_and!; [reflexivity|lia|reflexivity].
      - intros _. rewrite drop_nil. reflexivity. }
  destruct (Z.of_nat (length ls) <=? m) eqn:E;
    cbn [file max_entries append_counter].
  - split_and!; try reflexivity.
    + intros Hm. rewrite E. zbool.
      replace (length ls - Z.to_nat m)%nat with 0%nat by lia.
      split_and!; [reflexivity|lia|reflexivity].
    + intros Hm. zbool. replace (Z.to_nat (- m)) with 0%nat by lia. reflexivity.
  - zbool. split_and!; try reflexivity.
    + intros Hm. rewrite py_slice_from_last by lia.
      rewrite length_drop.
      destruct (Z.of_nat (length ls - (length ls - Z.to_nat m)) <=? m) eqn:E2;
        [|zbool; lia].
      split_and!; [reflexivity|lia|reflexivity].
    + intros Hm. unfold py_slice_from.
      destruct (- m <? 0) eqn:E3; zbool; [lia|].
      destruct (Z.le_gt_cases (- m) (Z.of_nat (length ls))).
      * f_equal. lia.
      * rewrite !drop_ge by lia. reflexivity.
Qed.

(** X8: [drop_first_lines] does nothing for a count of zero or less;
    otherwise it removes the oldest lines, so the depth goes down by the
    count and stops at zero, and it deletes the file rather than leave it
    empty.  Dropping [a] lines and then [b] is dropping [a + b]. *)
Theorem drop_first_lines_spec (sp : JsonlSpool) (a b : Z) :
  (a <= 0 -> drop_first_lines sp a = sp) /\
  (0 <= a ->
   file_lines (drop_first_lines sp a) = drop (Z.to_nat a) (file_lines sp) /\
   depth (drop_first_lines sp a) = Z.max (depth sp - a) 0) /\
  (1 <= a -> file (drop_first_lines sp a) <> Some []) /\
  (0 <= a -> 0 <= b ->
   drop_first_lines (drop_first_lines sp a) b = drop_first_lines sp (a + b)).
Proof.
  destruct sp as [[ls|] m k]; unfold drop_first_lines, depth, file_lines;
    cbn [file max_entries append_counter].
  2:{ split_and!.
      - intros Ha. destruct (a <=? 0); reflexivity.
      - intros Ha. destruct (a <=? 0); cbn [file]; rewrite drop_nil;
          split; (reflexivity || lia).
      - intros Ha. destruct (a <=? 0); discriminate.
      - intros Ha Hb. destruct (a <=? 0), (b <=? 0), (a + b <=? 0); reflexivity. }
  split_and!.
  - intros Ha. destruct (a <=? 0) eqn:E; [reflexivity|zbool; lia].
  - intros Ha. destruct (a <=? 0) eqn:E; zbool.
    + replace (Z.to_nat a) with 0%nat by lia. cbn [file]. split; [reflexivity|lia].
    + destruct (a >=? Z.of_nat (length ls)) eqn:E2; zbool; cbn [file].
      * rewrite drop_ge by lia. split; [reflexivity|lia].
      * rewrite length_drop. split; [reflexivity|lia].
  - intros Ha. destruct (a <=? 0) eqn:E; zbool; [lia|].
    destruct (a >=? Z.of_nat (length ls)) eqn:E2; zbool; cbn [file];
      [discriminate|].
    intros Hd. injection Hd as Hd.
    apply (f_equal length) in Hd. rewrite length_drop in Hd. simpl in Hd. lia.
  - intros Ha Hb.
    destruct (a <=? 0) eqn:E; zbool.
    { replace (a + b) with b by lia. reflexivity. }
    destruct (a >=? Z.of_nat (length ls)) eqn:E2; zbool;
      cbn [file max_entries append_counter].
    + destruct (b <=? 0) eqn:E3; destruct (a + b <=? 0) eqn:E4; zbool;
        try (exfalso; lia);
        destruct (a + b >=? Z.of_nat (length ls)) eqn:E5; zbool;
        try (exfalso; lia); reflexivity.
    + destruct (b <=? 0) eqn:E3; zbool.
      * replace (a + b) with a by lia.
        destruct (a <=? 0) eqn:E4; zbool; [lia|].
        destruct (a >=? Z.of_nat (length ls)) eqn:E5; zbool; [lia|]. reflexivity.
      * destruct (a + b <=? 0) eqn:E4; zbool; [lia|].
        rewrite length_drop.
        destruct (b >=? Z.of_nat (length ls - Z.to_nat a)) eqn:E5;
          destruct (a + b >=? Z.of_nat (length ls)) eqn:E6; zbool;
          try (exfalso; lia); [reflexivity|].
        rewrite drop_drop. repeat f_equal. lia.
Qed.

(** X9: [write_json_atomic] is atomic on the target: at every point of
    the write the target file is what it was or holds the whole new
    document, whether or not a temporary file was left from an earlier
    run; when it returns the target holds the document followed by a
    newline, the temporary file is gone and no other file has changed. *)
Theorem write_json_atomic_spec (disk : fs) (p serialized : string) :
  let new := (serialized ++ String "010" EmptyString)%string in
  let tmp := (p ++ ".tmp")%string in
  let final := run_ops disk (write_json_atomic p serialized) in
  Forall (fun d : fs => d !! p = disk !! p \/ d !! p = Some new)
         (states_during disk (write_json_atomic p serialized)) /\
  final !! p = Some new /\
  final !! tmp = None /\
  (forall q, q <> p -> q <> tmp -> final !! q = disk !! q).
Proof.
  intros new tmp final.
  assert (Hne : tmp <> p).
  { unfold tmp. intros Heq.
    assert (Hl : String.length (p ++ ".tmp") = String.length p)
      by (rewrite Heq; reflexivity).
    rewrite string_length_app in Hl. simpl in Hl. lia. }
  subst final. unfold write_json_atomic, write_text, run_ops.
  fold tmp. fold new. cbn [app states_during apply_op fold_left].
  rewrite !lookup_insert_eq. cbn [String.append].
  split_and!.
  - apply Forall_cons_2; [left; reflexivity|].
    apply Forall_cons_2;
      [left; rewrite lookup_insert_ne by assumption; reflexivity|].
    apply Forall_cons_2;
      [left; rewrite !lookup_insert_ne by assumption; reflexivity|].
    apply Forall_cons_2; [right; apply lookup_insert_eq|apply Forall_nil_2].
  - reflexivity.
  - rewrite lookup_insert_ne by congruence. apply lookup_delete_eq.
  - intros q Hq Hqt. rewrite lookup_insert_ne by congruence.
    rewrite lookup_delete_ne by congruence.
    rewrite !lookup_insert_ne by congruence. reflexivity.
Qed.

Lemma prefix_take_le {A} (p l : list A) k :
  p `prefix_of` l -> (length p <= k)%nat -> p `prefix_of` take k l.
Proof.
  intros [q ->] Hk. rewrite take_app_ge by exact Hk.
  apply prefix_app_r. reflexivity.
Qed.

Section AtLeastOnce.

Context {W : Type}.
Variable mqtt_publish_checked : W -> string -> string -> W * bool.
Variable loads : string -> loaded.
Variable dumps : json -> string.
Variable fmt : json -> string.

(** X10: [peek_lines] returns the first [max_lines] lines of the file that
    are not blank, stripped, in their order.  [flush_spool] removes lines
    from the head of the file only, blank ones included, and whatever the
    file holds, every line it removes that is not blank is one of the
    lines handled: the broker has acknowledged the messages of all of
    them, in order, before anything else this call has sent, which is at
    most the messages of the line that ended the loop.  So a line leaves
    the spool only after it was sent; with blank lines in the file, or
    when [json.loads] raises, handled lines can stay in the spool. *)
Theorem flush_spool_at_least_once (sp : JsonlSpool) (w : W) (n : Z)
    (base : string) :
  let r := flush_spool mqtt_publish_checked loads dumps fmt sp w n base in
  peek_lines sp n = take (Z.to_nat n) (stripped_lines (file_lines sp)) /\
  exists removed done more w_d,
    file_lines r.1.1 = drop removed (file_lines sp) /\
    done `prefix_of` peek_lines sp n /\
    stripped_lines (take removed (file_lines sp)) `prefix_of` done /\
    send_all mqtt_publish_checked w
      (flat_map (line_messages loads dumps fmt base) done) = (w_d, true) /\
    r.1.2 = (send_all mqtt_publish_checked w_d more).1 /\
    (more = [] \/
     exists line obj,
       peek_lines sp n !! length done = Some line /\
       loads line = Decoded obj /\
       more = payload_messages dumps fmt base obj).
Proof.
  intros r. subst r. split; [apply peek_lines_stripped|].
  assert (Hsafe : forall done,
    done `prefix_of` peek_lines sp n ->
    stripped_lines (take (length done) (file_lines sp)) `prefix_of` done).
  { intros done Hpre.
    assert (Hd : done = take (length done) (stripped_lines (file_lines sp))).
    { destruct Hpre as [rest Hpre]. rewrite peek_lines_stripped in Hpre.
      assert (Ht : take (length done) (take (Z.to_nat n) (stripped_lines (file_lines sp)))
                   = done).
      { rewrite Hpre. apply take_app_length. }
      rewrite take_take in Ht.
      assert (Hl : (length done <= Z.to_nat n)%nat).
      { apply (f_equal length) in Hpre.
        rewrite length_take, length_app in Hpre. lia. }
      rewrite Nat.min_l in Ht by exact Hl. symmetry. exact Ht. }
    rewrite Hd at 2. apply prefix_take_le.
    - rewrite <- (take_drop (length done) (file_lines sp)) at 2.
      rewrite stripped_lines_app. apply prefix_app_r. reflexivity.
    - etransitivity; [apply stripped_lines_length|]. rewrite length_take. lia. }
  unfold flush_spool.
  destruct (peek_lines sp n) as [|l0 ls0] eqn:Epeek.
  - exists 0%nat, [], [], w. cbn [fst snd flat_map send_all]. rewrite drop_0, take_0.
    split_and!; try reflexivity. left. reflexivity.
  - destruct (flush_loop_spec mqtt_publish_checked loads dumps fmt base
                (l0 :: ls0) w 0)
      as (done & rest & w_d & Hls & _ & Hs & Hn & Hr).
    destruct (flush_loop mqtt_publish_checked loads dumps fmt w base (l0 :: ls0) 0)
      as [[w1 sent] e] eqn:Efl.
    cbn [fst snd] in Hn, Hr. rewrite Z.add_0_l in Hn. subst sent.
    assert (Hpre : done `prefix_of` l0 :: ls0).
    { rewrite Hls. apply prefix_app_r. reflexivity. }
    assert (Hfile : file_lines (if Z.of_nat (length done) =? 0 then sp
                                else drop_first_lines sp (Z.of_nat (length done)))
                    = drop (length done) (file_lines sp)).
    { destruct (Z.of_nat (length done) =? 0) eqn:E0.
      - zbool. replace (length done) with 0%nat by lia. rewrite drop_0. reflexivity.
      - rewrite drop_first_lines_file by lia. rewrite Nat2Z.id. reflexivity. }
    destruct e.
    + destruct Hr as [_ ->].
      exists (length done), done, [], w_d.
      destruct (Z.of_nat (length done) <? Z.of_nat (length (l0 :: ls0)));
        cbn [fst snd send_all]; (split; [exact Hfile|]);
        (split; [exact Hpre|]); (split; [apply Hsafe; exact Hpre|]);
        (split; [exact Hs|]); (split; [reflexivity|left; reflexivity]).
    + destruct Hr as (line & rest' & obj & Hrest & Hl & Hw & _).
      exists (length done), done, (payload_messages dumps fmt base obj), w_d.
      assert (Hline : (l0 :: ls0) !! length done = Some line).
      { rewrite Hls, Hrest. rewrite lookup_app_r by lia.
        rewrite Nat.sub_diag. reflexivity. }
      destruct (Z.of_nat (length done) <? Z.of_nat (length (l0 :: ls0)));
        cbn [fst snd]; (split; [exact Hfile|]);
        (split; [exact Hpre|]); (split; [apply Hsafe; exact Hpre|]);
        (split; [exact Hs|]); (split; [exact (eq_sym Hw)|]);
        right; exists line, obj; auto.
    + destruct Hr as [_ ->].
      exists 0%nat, done, [], w_d. cbn [fst snd send_all]. rewrite drop_0, take_0.
      split; [reflexivity|]. split; [exact Hpre|].
      split; [apply prefix_nil|]. split; [exact Hs|].
      split; [reflexivity|left; reflexivity].
Qed.

(** X11: a line at the head of the spool that is JSON but no object
    blocks the spool: [flush_spool] publishes it under [<base>/data], fails
    on its metrics, removes nothing and raises, whatever the broker does;
    the spool it leaves is the spool it found, so that every later flush
    does the same and the lines behind are never sent. *)
Theorem flush_spool_blocked (sp : JsonlSpool) (w : W) (n : Z) (base : string)
    (line : string) (rest : list string) (obj : json) :
  peek_lines sp n = line :: rest ->
  loads line = Decoded obj ->
  (forall items, obj <> JDict items) ->
  flush_spool mqtt_publish_checked loads dumps fmt sp w n base
  = (sp, (mqtt_publish_checked w (base ++ "/data") (dumps obj)).1,
     FlushInterrupted).
Proof.
  intros Hpeek Hloads Hobj. unfold flush_spool. rewrite Hpeek.
  cbn [flush_loop]. rewrite Hloads. unfold publish_payload_and_metrics.
  destruct (mqtt_publish_checked w (base ++ "/data") (dumps obj)) as [w1 ok].
  cbn [fst].
  assert (Hlt : (0 <? Z.of_nat (length (line :: rest))) = true).
  { apply Z.ltb_lt. cbn [length]. lia. }
  destruct ok; cbn [negb].
  - destruct obj as [| | | | |items]; try (rewrite Hlt; reflexivity).
    exfalso. exact (Hobj items eq_refl).
  - rewrite Hlt. reflexivity.
Qed.

End AtLeastOnce.

(** A list at the head of the spool, a good line behind it. *)
Lemma flush_spool_blocked_witness :
  flush_spool demo_publish list_loads demo_dumps demo_dumps
    (mkSpool (Some ["[1]"; "101"]%string) 10000 0) [] 50 "subaru"
  = (mkSpool (Some ["[1]"; "101"]%string) 10000 0,
     [("subaru/data", "")]%string, FlushInterrupted).
Proof.
  apply (flush_spool_blocked demo_publish list_loads demo_dumps demo_dumps
           (mkSpool (Some ["[1]"; "101"]%string) 10000 0) [] 50 "subaru"
           "[1]" ["101"%string] (JList [JNum "1"])).
  - reflexivity.
  - reflexivity.
  - discriminate.
Defined.

End SpoolEdgeSpec.

(** ** Lap timing over runs of updates *)
Module RestoreSpec.
Import Num Timing Restore TimingSpec.

(** The branches of [update], from a result it returned. *)
Ltac snapshot_inv Hu :=
  match type of Hu with
  | context [snapshot ?a ?b] =>
    let Ht := fresh "Ht" in
    let Hs := fresh "Hs" in
    let Hc := fresh "Hc" in
    destruct (snapshot a b) eqn:Hsnap; simpl in Hu; [|discriminate Hu];
    injection Hu as Ht Hs Hc;
    first [discriminate Hc | (try injection Hc as Hc); subst]
  end.

Ltac update_inv Hu t :=
  unfold update in Hu;
  destruct (prev_s t) as [prev|] eqn:Hprev;
  [ destruct (armed t) eqn:Harm; simpl negb in Hu; cbv iota in Hu;
    [ match type of Hu with
      | context [capture_splits ?a ?b ?c ?d ?e] =>
        destruct (capture_splits a b c d e) as [cur|] eqn:Hcap; simpl in Hu;
        [|discriminate Hu]
      end;
      match type of Hu with
      | context [py_le (lap_len_m t) ?p] =>
        destruct (py_le (lap_len_m t) p) eqn:Hdone
      end;
      [ match type of Hu with
        | context [py_le (flit MIN_VALID_LAP_SEC) ?e] =>
          destruct (py_le (flit MIN_VALID_LAP_SEC) e) eqn:Hvalid
        end;
        [ match type of Hu with
          | context [_split_segments ?c ≫= ?k] =>
            destruct (_split_segments c ≫= k) as [bests|] eqn:Hbests;
            simpl in Hu; [|discriminate Hu]
          end
        | simpl in Hu ];
        snapshot_inv Hu
      | snapshot_inv Hu ]
    | match type of Hu with
      | context [if ?b then _ else _] => destruct b eqn:Harming
      end; snapshot_inv Hu ]
  | snapshot_inv Hu ].

Section Generic.

Context {F : Type} `{PyFloat F}.

Lemma pad3_length (l : list (option F)) : length (pad3 l) = 3%nat.
Proof.
  unfold pad3. rewrite length_take, length_app, length_take, length_replicate.
  lia.
Qed.

Lemma apply_well_formed (t : LapTiming F) best_lap bs segs last_lap ls count :
  well_formed t ->
  well_formed (apply_recent (apply_benchmarks t best_lap bs segs) last_lap ls count).
Proof.
  intros (Hd & Hc & Hl & Hb & Hbs). repeat split; simpl;
    try assumption; try apply pad3_length.
Qed.

Lemma run_updates_total : forall (fixes : list (F * F)) (t : LapTiming F),
  well_formed t ->
  exists t', run_updates t fixes = Some t' /\ well_formed t'.
Proof.
  induction fixes as [|[ts s] fixes IH]; intros t Hwf; simpl.
  - eauto.
  - destruct (update_total t ts s Hwf) as (t1 & snap & c & -> & Hwf1). simpl.
    apply IH. exact Hwf1.
Qed.

Lemma set_item_Some {A} (l l' : list A) i v :
  set_item l i v = Some l' -> l' = <[i := v]> l /\ (i < length l)%nat.
Proof.
  unfold set_item. destruct (i <? length l)%nat eqn:E; [|discriminate].
  intros [= <-]. apply Nat.ltb_lt in E. auto.
Qed.

(** The loop that captures splits, index by index. *)
Lemma capture_splits_lookup (dist : list F) progress elapsed :
  forall ixs (cur cur' : list (option F)),
  capture_splits ixs dist progress elapsed cur = Some cur' ->
  length cur' = length cur /\
  forall i,
    (forall v, cur !! i = Some (Some v) -> cur' !! i = Some (Some v)) /\
    (i ∉ ixs -> cur' !! i = cur !! i) /\
    (i ∈ ixs -> cur !! i = Some None ->
     exists d, dist !! i = Some d /\
       cur' !! i = Some (if (progress >=? d)%F then Some elapsed else None)).
Proof.
  induction ixs as [|i0 ixs IH]; intros cur cur' Hrun; simpl in Hrun.
  - injection Hrun as <-. split; [reflexivity|]. intros i.
    split; [auto|]. split; [auto|]. intros Hin. inversion Hin.
  - destruct (cur !! i0) as [[v0|]|] eqn:Hc; simpl in Hrun; [| |discriminate].
    + destruct (IH _ _ Hrun) as [Hlen Hall]. split; [exact Hlen|].
      intros i. destruct (Hall i) as (H1 & H2 & H3).
      split; [exact H1|]. split.
      * intros Hn. apply not_elem_of_cons in Hn as [_ Hn]. auto.
      * intros Hin Hi. apply elem_of_cons in Hin as [->|Hin]; [congruence|auto].
    + destruct (dist !! i0) as [d|] eqn:Hd; simpl in Hrun; [|discriminate].
      destruct (py_le d progress) eqn:Hreach.
      * destruct (set_item cur i0 (Some elapsed)) as [cur1|] eqn:Hset;
          simpl in Hrun; [|discriminate].
        apply set_item_Some in Hset as [-> Hlt].
        destruct (IH _ _ Hrun) as [Hlen Hall].
        split; [rewrite Hlen; apply length_insert|].
        intros i. destruct (Hall i) as (H1 & H2 & H3).
        destruct (decide (i = i0)) as [->|Hne].
        -- split; [intros v Hv; congruence|]. split.
           ++ intros Hn. apply not_elem_of_cons in Hn as [Hn _]. contradiction.
           ++ intros _ _. exists d. split; [exact Hd|]. rewrite Hreach.
              apply (proj1 (Hall i0)). apply list_lookup_insert_eq. exact Hlt.
        -- rewrite list_lookup_insert_ne in H1, H2, H3 by congruence.
           split; [exact H1|]. split.
           ++ intros Hn. apply not_elem_of_cons in Hn as [_ Hn]. auto.
           ++ intros Hin Hi. apply elem_of_cons in Hin as [->|Hin];
                [contradiction|auto].
      * destruct (IH _ _ Hrun) as [Hlen Hall]. split; [exact Hlen|].
        intros i. destruct (Hall i) as (H1 & H2 & H3).
        split; [exact H1|]. split.
        -- intros Hn. apply not_elem_of_cons in Hn as [_ Hn]. auto.
        -- intros Hin Hi. apply elem_of_cons in Hin as [->|Hin]; [|auto].
           destruct (decide (i0 ∈ ixs)) as [Hin|Hn].
           ++ destruct (proj2 (proj2 (Hall i0)) Hin Hi) as (d' & Hd' & Hres).
              exists d'. split; [exact Hd'|exact Hres].
           ++ exists d. split; [exact Hd|]. rewrite Hreach.
              rewrite (proj1 (proj2 (Hall i0)) Hn). exact Hi.
Qed.

Lemma faster_set (bests : list (option F)) i v b :
  bests !! i = Some b ->
  forall bests',
  match b with
  | None => set_item bests i (Some v)
  | Some bv => if (v <? bv)%F then set_item bests i (Some v) else Some bests
  end = Some bests' ->
  length bests' = length bests /\
  bests' !! i = Some (faster (Some v) b) /\
  forall j, j <> i -> bests' !! j = bests !! j.
Proof.
  intros Hb bests' Hset.
  assert (Hlt : (i < length bests)%nat) by (eapply lookup_lt_Some; eauto).
  assert (Hins : set_item bests i (Some v) = Some bests' ->
                 length bests' = length bests /\
                 bests' !! i = Some (Some v) /\
                 forall j, j <> i -> bests' !! j = bests !! j).
  { intros Hs. apply set_item_Some in Hs as [-> _].
    split; [apply length_insert|]. split; [apply list_lookup_insert_eq; exact Hlt|].
    intros j Hj. apply list_lookup_insert_ne. congruence. }
  destruct b as [bv|]; simpl.
  - destruct (py_lt v bv); [auto|]. injection Hset as <-. auto.
  - auto.
Qed.

(** The loop over the splits of a valid lap, index by index. *)
Lemma update_bests_lookup (segments : list (option F)) :
  forall (lasts : list (option F)) i bests bsegs bests' bsegs',
  update_bests i lasts segments bests bsegs = Some (bests', bsegs') ->
  (length bests' = length bests /\ length bsegs' = length bsegs) /\
  forall j,
    ((j < i \/ i + length lasts <= j)%nat ->
     bests' !! j = bests !! j /\ bsegs' !! j = bsegs !! j) /\
    (forall k, j = (i + k)%nat -> lasts !! k = Some None ->
     bests' !! j = bests !! j /\ bsegs' !! j = bsegs !! j) /\
    (forall k v, j = (i + k)%nat -> lasts !! k = Some (Some v) ->
     exists b sg,
       bests !! j = Some b /\ bests' !! j = Some (faster (Some v) b) /\
       segments !! j = Some sg /\
       match sg with
       | None => bsegs' !! j = bsegs !! j
       | Some _ => exists bs, bsegs !! j = Some bs /\
                              bsegs' !! j = Some (faster sg bs)
       end).
Proof.
  induction lasts as [|l0 lasts IH]; intros i bests bsegs bests' bsegs' Hrun;
    simpl in Hrun.
  - injection Hrun as <- <-. split; [auto|]. intros j.
    split; [auto|]. split; intros k; intros; discriminate.
  - destruct l0 as [v0|].
    + destruct (bests !! i) as [b|] eqn:Hb; simpl in Hrun; [|discriminate].
      match type of Hrun with
      | context [mbind _ ?m] => destruct m as [bests1|] eqn:Hset1
      end; simpl in Hrun; [|discriminate].
      destruct (faster_set bests i v0 b Hb bests1 Hset1) as (Hl1 & Hi1 & Hne1).
      destruct (segments !! i) as [sg|] eqn:Hsg; simpl in Hrun; [|discriminate].
      match type of Hrun with
      | context [mbind _ ?m] => destruct m as [bsegs1|] eqn:Hset2
      end; simpl in Hrun; [|discriminate].
      assert (Hseg : length bsegs1 = length bsegs /\
                (forall j, j <> i -> bsegs1 !! j = bsegs !! j) /\
                match sg with
                | None => bsegs1 !! i = bsegs !! i
                | Some _ => exists bs, bsegs !! i = Some bs /\
                                       bsegs1 !! i = Some (faster sg bs)
                end).
      { destruct sg as [sv|].
        - destruct (bsegs !! i) as [bs|] eqn:Hbs; simpl in Hset2; [|discriminate].
          destruct (faster_set bsegs i sv bs Hbs bsegs1 Hset2) as (Hl2 & Hi2 & Hne2).
          split; [exact Hl2|]. split; [exact Hne2|]. eauto.
        - injection Hset2 as <-. auto. }
      destruct Hseg as (Hl2 & Hne2 & Hi2).
      destruct (IH _ _ _ _ _ Hrun) as [[Hlb Hls] Hall].
      split; [split; congruence|]. intros j.
      destruct (Hall j) as (H1 & H2 & H3). split; [|split].
      * intros Hj. destruct (H1 ltac:(simpl in Hj; lia)) as [-> ->].
        split; [apply Hne1|apply Hne2]; simpl in Hj; lia.
      * intros [|k] -> Hk; [discriminate|]. simpl in Hk.
        destruct (H2 k ltac:(lia) Hk) as [-> ->].
        split; [apply Hne1|apply Hne2]; lia.
      * intros [|k] v -> Hk; simpl in Hk.
        -- injection Hk as <-. replace (i + 0)%nat with i in * by lia.
           destruct (H1 ltac:(lia)) as [-> ->].
           exists b, sg. split; [exact Hb|]. split; [exact Hi1|].
           split; [exact Hsg|]. exact Hi2.
        -- destruct (H3 k v ltac:(lia) Hk) as (b1 & sg1 & Hb1 & Hb1' & Hsg1 & Hres).
           rewrite Hne1 in Hb1 by lia.
           exists b1, sg1. split; [exact Hb1|]. split; [exact Hb1'|].
           split; [exact Hsg1|].
           destruct sg1; [|rewrite Hres; apply Hne2; lia].
           destruct Hres as (bs & Hbs & Hres). rewrite Hne2 in Hbs by lia. eauto.
    + destruct (IH _ _ _ _ _ Hrun) as [Hlen Hall].
      split; [exact Hlen|]. intros j.
      destruct (Hall j) as (H1 & H2 & H3). split; [|split].
      * intros Hj. apply H1. simpl in Hj. lia.
      * intros [|k] -> Hk.
        -- apply H1. lia.
        -- simpl in Hk. apply (H2 k); [lia|exact Hk].
      * intros [|k] v -> Hk; [discriminate|]. simpl in Hk.
        apply (H3 k v); [lia|exact Hk].
Qed.

Lemma third_split_open_apply (L : F) best_lap bs segs last_lap ls count :
  third_split_open
    (apply_recent (apply_benchmarks (new_timing L) best_lap bs segs)
       last_lap ls count).
Proof. split; reflexivity. Qed.

Lemma update_keeps_third_split (t t' : LapTiming F) ts s snap c :
  third_split_open t ->
  update t ts s = Some (t', snap, c) ->
  third_split_open t' /\
  (forall lap, c = Some lap ->
     splits_sec lap !! 2%nat = Some (Some (lap_time_sec lap))).
Proof.
  intros [Hd Ho] Hu. update_inv Hu t; unfold third_split_open; simpl;
    try (split; [split; [assumption|assumption || reflexivity]|discriminate]).
  - destruct (capture_splits_lookup _ _ _ _ _ _ Hcap) as [_ Hall].
    destruct (proj2 (proj2 (Hall 2%nat)) ltac:(set_solver) Ho) as (d & Hd' & Hres).
    rewrite Hd in Hd'. injection Hd' as <-. rewrite Hdone in Hres.
    split; [split; [assumption|reflexivity]|]. intros lap [= <-]. exact Hres.
  - destruct (capture_splits_lookup _ _ _ _ _ _ Hcap) as [_ Hall].
    destruct (proj2 (proj2 (Hall 2%nat)) ltac:(set_solver) Ho) as (d & Hd' & Hres).
    rewrite Hd in Hd'. injection Hd' as <-. rewrite Hdone in Hres.
    split; [split; [assumption|reflexivity]|]. intros lap [= <-]. exact Hres.
  - destruct (capture_splits_lookup _ _ _ _ _ _ Hcap) as [_ Hall].
    destruct (proj2 (proj2 (Hall 2%nat)) ltac:(set_solver) Ho) as (d & Hd' & Hres).
    rewrite Hd in Hd'. injection Hd' as <-. rewrite Hdone in Hres.
    split; [split; [assumption|exact Hres]|discriminate].
Qed.

Lemma update_count (t t' : LapTiming F) ts s snap c :
  update t ts s = Some (t', snap, c) ->
  lap_len_m t' = lap_len_m t /\
  (armed t = true -> armed t' = true) /\
  lap_count t <= lap_count t' <= lap_count t + 1.
Proof.
  intros Hu. update_inv Hu t; simpl; rewrite ?Harm; split_and!;
    try done; lia.
Qed.

Lemma run_updates_frame : forall (fixes : list (F * F)) (t t' : LapTiming F),
  third_split_open t ->
  run_updates t fixes = Some t' ->
  third_split_open t' /\ lap_len_m t' = lap_len_m t /\
  (armed t = true -> armed t' = true) /\
  lap_count t <= lap_count t' <= lap_count t + Z.of_nat (length fixes).
Proof.
  induction fixes as [|[ts s] fixes IH]; intros t t' Ho Hrun; simpl in Hrun.
  - injection Hrun as <-. simpl. split; [exact Ho|]. split; [reflexivity|].
    split; [auto|lia].
  - destruct (update t ts s) as [[[t1 snap] c]|] eqn:Hu; simpl in Hrun;
      [|discriminate].
    destruct (update_keeps_third_split _ _ _ _ _ _ Ho Hu) as [Ho1 _].
    destruct (IH _ _ Ho1 Hrun) as (Ho' & Hl & Ha & Hc).
    destruct (update_count _ _ _ _ _ _ Hu) as (Hl1 & Ha1 & Hc1).
    split; [exact Ho'|]. split; [congruence|]. split; [auto|].
    cbn [length]. lia.
Qed.

(** X12: a timing object built by the constructor and restored with
    [apply_benchmarks] and [apply_recent], whatever their arguments, holds
    five lists of three items, a lap count that is not negative and is not
    armed; from there no run of [update] calls raises, the lists keep their
    three items, the lap length stays, and the lap count grows by at most
    one per call and never decreases. *)
Theorem timing_never_raises (L : F) best_lap' bs segs last_lap' ls count
    (fixes : list (F * F)) :
  let t0 := apply_recent (apply_benchmarks (new_timing L) best_lap' bs segs)
              last_lap' ls count in
  well_formed t0 /\ 0 <= lap_count t0 /\ armed t0 = false /\
  exists t',
    run_updates t0 fixes = Some t' /\ well_formed t' /\
    lap_len_m t' = L /\
    lap_count t0 <= lap_count t' <= lap_count t0 + Z.of_nat (length fixes).
Proof.
  intros t0.
  assert (Hwf : well_formed t0).
  { apply apply_well_formed. repeat split. }
  split; [exact Hwf|]. split; [simpl; lia|]. split; [reflexivity|].
  destruct (run_updates_total fixes t0 Hwf) as (t' & Hrun & Hwf').
  exists t'. split; [exact Hrun|]. split; [exact Hwf'|].
  destruct (run_updates_frame fixes t0 t' (third_split_open_apply _ _ _ _ _ _ _) Hrun)
    as (_ & Hl & _ & Hc).
  split; [exact Hl|exact Hc].
Qed.

(** X13: the third split line is the finish line, so the third split is
    taken in the very call that completes the lap: in a timing object built
    by the constructor the third split of the lap under way is never set
    after [update] returns, and the third split of every completed lap is
    its lap time. *)
Theorem update_third_split (t t' : LapTiming F) ts s snap c :
  third_split_open t ->
  update t ts s = Some (t', snap, c) ->
  third_split_open t' /\
  (forall lap, c = Some lap ->
     splits_sec lap !! 2%nat = Some (Some (lap_time_sec lap)) /\
     lap_time_sec lap = (ts - lap_start_ts t)%F).
Proof.
  intros Ho Hu.
  destruct (update_keeps_third_split _ _ _ _ _ _ Ho Hu) as [Ho' Hlap].
  split; [exact Ho'|]. intros lap ->. split; [apply Hlap; reflexivity|].
  apply (update_completed _ _ _ _ _ _ Hu).
Qed.

(** X14: while a lap is under way, a split already taken is never
    overwritten, and an open split is taken exactly when the progress has
    reached its line, with the time elapsed since the start of the lap;
    the splits of a completed lap are the splits so taken. *)
Theorem update_captures_splits (t t' : LapTiming F) ts s snap c p (i : nat) :
  update t ts s = Some (t', snap, c) ->
  armed t = true ->
  prev_s t = Some p ->
  (i < 3)%nat ->
  let progress :=
    (lap_progress_m t + py_max (wrap_ds (lap_len_m t) s p) (flit 0))%F in
  let taken := match c with
               | Some lap => splits_sec lap
               | None => current_splits t'
               end in
  (forall v, current_splits t !! i = Some (Some v) -> taken !! i = Some (Some v)) /\
  (current_splits t !! i = Some None ->
   exists d, split_dist t !! i = Some d /\
     taken !! i = Some (if (progress >=? d)%F
                        then Some (ts - lap_start_ts t)%F else None)) /\
  (match c with Some _ => true | None => false end = (progress >=? lap_len_m t)%F).
Proof.
  intros Hu Ha Hp Hi progress taken. subst progress taken.
  assert (Hin : i ∈ [0; 1; 2]%nat).
  { destruct i as [|[|[|i]]]; [| | |lia].
    - apply list_elem_of_here.
    - apply list_elem_of_further, list_elem_of_here.
    - do 2 apply list_elem_of_further. apply list_elem_of_here. }
  update_inv Hu t; try discriminate; injection Hp as <-; simpl;
    destruct (capture_splits_lookup _ _ _ _ _ _ Hcap) as [_ Hall];
    destruct (Hall i) as (H1 & H2 & H3);
    (split; [exact H1|]); (split; [|rewrite Hdone; reflexivity]);
    intros Hopen; apply H3; assumption.
Qed.

(** X15: a lap of at least [MIN_VALID_LAP_SEC] leaves each best record
    at the minimum of the old record and what the lap achieved, an absent
    value giving way: the best lap against the lap time, each best split
    against the split of the lap, each best segment against the segment
    [_split_segments] derives from the splits of the lap. *)
Theorem update_valid_lap_bests (t t' : LapTiming F) ts s snap lap :
  well_formed t ->
  update t ts s = Some (t', snap, Some lap) ->
  (lap_time_sec lap >=? flit MIN_VALID_LAP_SEC)%F = true ->
  best_lap t' = faster (Some (lap_time_sec lap)) (best_lap t) /\
  exists segs,
    _split_segments (splits_sec lap) = Some segs /\
    forall i, (i < 3)%nat ->
      exists l b sg bs,
        splits_sec lap !! i = Some l /\
        best_splits t !! i = Some b /\
        best_splits t' !! i = Some (faster l b) /\
        segs !! i = Some sg /\
        best_split_segments t !! i = Some bs /\
        best_split_segments t' !! i = Some (faster sg bs).
Proof.
  intros (_ & _ & _ & Hb3 & Hs3) Hu Hv.
  update_inv Hu t; simpl in Hv; try congruence.
  simpl. split.
  { destruct (best_lap t) as [b|]; simpl; [|reflexivity].
    destruct (py_lt _ b); reflexivity. }
  destruct (_split_segments cur) as [segs|] eqn:Hsegs; simpl in Hbests;
    [|discriminate].
  exists segs. split; [reflexivity|].
  destruct bests as [bests' bsegs'].
  destruct (update_bests_lookup _ _ _ _ _ _ _ Hbests) as [[Hlb Hls] Hall].
  assert (Hcur : exists s1 s2 s3, cur = [s1; s2; s3] /\
            segs = [s1;
                    match s1, s2 with Some a, Some b => Some (b - a)%F | _, _ => None end;
                    match s2, s3 with Some a, Some b => Some (b - a)%F | _, _ => None end]).
  { unfold _split_segments in Hsegs.
    destruct cur as [|s1 [|s2 [|s3 [|? ?]]]]; try discriminate.
    injection Hsegs as <-. eauto. }
  destruct Hcur as (s1 & s2 & s3 & -> & ->).
  intros i Hi. destruct (Hall i) as (_ & H2 & H3). simpl.
  destruct (lookup_lt_is_Some_2 (best_splits t) i ltac:(lia)) as [b Hb].
  destruct (lookup_lt_is_Some_2 (best_split_segments t) i ltac:(lia)) as [bs Hbs].
  assert (Hnone : forall sg, [s1; s2; s3] !! i = Some None ->
            [s1; match s1, s2 with Some a, Some b => Some (b - a)%F | _, _ => None end;
             match s2, s3 with Some a, Some b => Some (b - a)%F | _, _ => None end] !! i
            = Some sg -> sg = None).
  { intros sg Hl Hsg. destruct i as [|[|[|i]]]; simpl in *; try lia.
    - congruence.
    - injection Hl as ->. destruct s1; congruence.
    - injection Hl as ->. destruct s2; congruence. }
  destruct (lookup_lt_is_Some_2 [s1; s2; s3] i ltac:(simpl; lia)) as [l Hl].
  destruct l as [v|].
  - destruct (H3 i v ltac:(lia) Hl) as (b1 & sg & Hb1 & Hb1' & Hsg & Hres).
    exists (Some v), b1, sg, bs. rewrite Hb in Hb1. injection Hb1 as <-.
    split; [exact Hl|]. split; [exact Hb|]. split; [exact Hb1'|].
    split; [exact Hsg|]. split; [exact Hbs|].
    destruct sg as [sv|].
    + destruct Hres as (bs1 & Hbs1 & Hres). rewrite Hbs in Hbs1.
      injection Hbs1 as <-. exact Hres.
    + rewrite Hres. exact Hbs.
  - destruct (H2 i ltac:(lia) Hl) as [Hb' Hs'].
    destruct (lookup_lt_is_Some_2
                [s1; match s1, s2 with Some a, Some b => Some (b - a)%F | _, _ => None end;
                 match s2, s3 with Some a, Some b => Some (b - a)%F | _, _ => None end]
                i ltac:(simpl; lia)) as [sg Hsg].
    pose proof (Hnone sg Hl Hsg) as ->.
    exists None, b, None, bs. simpl.
    split; [exact Hl|]. split; [exact Hb|]. split; [congruence|].
    split; [exact Hsg|]. split; [exact Hbs|]. congruence.
Qed.

(** X16: what [update] never does: it never changes the lap length or the
    split lines, never disarms an armed timing, completes a lap only when
    armed, counts exactly the laps it completes, numbers a completed lap
    with the new count, restarts the lap clock and clears the splits at a
    completion, and touches the last lap and its splits at no other time;
    the snapshot it returns is the one of the state it leaves. *)
Theorem update_frame (t t' : LapTiming F) ts s snap c :
  update t ts s = Some (t', snap, c) ->
  lap_len_m t' = lap_len_m t /\
  split_dist t' = split_dist t /\
  prev_s t' = Some s /\
  (armed t = true -> armed t' = true) /\
  lap_count t' = lap_count t + match c with Some _ => 1 | None => 0 end /\
  (forall lap, c = Some lap ->
     armed t = true /\ lap_number lap = lap_count t' /\
     lap_start_ts t' = ts /\ current_splits t' = [None; None; None]) /\
  (c = None -> last_lap t' = last_lap t /\ last_splits t' = last_splits t) /\
  snapshot t' ts = Some snap.
Proof.
  intros Hu. update_inv Hu t; simpl; rewrite ?Harm; split_and!;
    try done; try lia; intros lap' [= <-]; done.
Qed.

End Generic.

(** *** Runs in binary64 *)

(** A lap of a 3000 m circuit started at 1 s; the fix at 50 m comes at
    30 s and completes it. *)
Lemma update_valid_lap_bests_witness :
  exists t' snap lap,
    Timing.update short_lap_state 30%float 50%float = Some (t', snap, Some lap) /\
    best_lap t' = Some 29%float /\
    best_splits t' = [Some 3.5%float; Some 29%float; Some 29%float].
Proof.
  destruct (Timing.update short_lap_state 30%float 50%float)
    as [[[t' snap] [lap|]]|] eqn:Hu; try (vm_compute in Hu; discriminate Hu).
  exists t', snap, lap. split; [reflexivity|].
  destruct (update_valid_lap_bests short_lap_state t' 30%float 50%float snap lap)
    as [Hb _].
  - repeat split.
  - exact Hu.
  - vm_compute in Hu. injection Hu as _ _ <-. reflexivity.
  - vm_compute in Hu. injection Hu as <- _ <-. split; reflexivity.
Defined.

(** The same lap cut short at 9 s. *)
Lemma update_frame_witness :
  exists t' snap lap,
    Timing.update short_lap_state 9%float 50%float = Some (t', snap, Some lap) /\
    armed t' = true /\ lap_count t' = 5 /\ lap_number lap = 5.
Proof.
  destruct (Timing.update short_lap_state 9%float 50%float)
    as [[[t' snap] [lap|]]|] eqn:Hu; try (vm_compute in Hu; discriminate Hu).
  exists t', snap, lap. split; [reflexivity|].
  destruct (update_frame short_lap_state t' 9%float 50%float snap (Some lap) Hu)
    as (_ & _ & _ & Ha & Hc & Hl & _).
  split; [apply Ha; reflexivity|]. split; [exact Hc|].
  destruct (Hl lap eq_refl) as (_ & -> & _). exact Hc.
Defined.

(** A lap of a 2400 m circuit completed from a restored timing: armed at
    the start line, then a fix per 1000 m. *)
Lemma update_third_split_witness :
  exists t t' snap lap,
    run_updates (apply_recent (apply_benchmarks (new_timing 2400%float) None [] [])
                   None [] 0)
      [(0, 2300); (1, 10); (11, 1000); (21, 2000)]%float = Some t /\
    Timing.update t 25%float 15%float = Some (t', snap, Some lap) /\
    splits_sec lap = [Some 10%float; Some 20%float; Some 24%float] /\
    lap_time_sec lap = 24%float /\
    current_splits t' !! 2%nat = Some None.
Proof.
  destruct (run_updates (apply_recent (apply_benchmarks (new_timing 2400%float)
                                          None [] []) None [] 0)
              [(0, 2300); (1, 10); (11, 1000); (21, 2000)]%float)
    as [t|] eqn:Hrun; [|vm_compute in Hrun; discriminate Hrun].
  destruct (Timing.update t 25%float 15%float) as [[[t' snap] [lap|]]|] eqn:Hu;
    try (vm_compute in Hrun; injection Hrun as <-; vm_compute in Hu;
         discriminate Hu).
  exists t, t', snap, lap. split; [reflexivity|]. split; [exact Hu|].
  destruct (update_third_split t t' 25%float 15%float snap (Some lap)) as [Ho Hl].
  - vm_compute in Hrun. injection Hrun as <-. split; reflexivity.
  - exact Hu.
  - split; [|split; [|apply Ho]];
      vm_compute in Hrun; injection Hrun as <-; vm_compute in Hu;
      injection Hu as _ _ <-; reflexivity.
Defined.

(** The running lap at 1550 m, the next fix at 2100 m: the second split is
    taken, the first one stays. *)
Lemma update_captures_splits_witness :
  exists t' snap,
    Timing.update short_lap_state 9%float 2100%float = Some (t', snap, None) /\
    current_splits t' !! 0%nat = Some (Some 3.5%float) /\
    current_splits t' !! 1%nat = Some (Some 8%float).
Proof.
  destruct (Timing.update short_lap_state 9%float 2100%float)
    as [[[t' snap] [lap|]]|] eqn:Hu; try (vm_compute in Hu; discriminate Hu).
  exists t', snap. split; [reflexivity|].
  destruct (update_captures_splits short_lap_state t' 9%float 2100%float snap None
              1600%float 0%nat Hu eq_refl eq_refl ltac:(lia)) as (H0 & _ & _).
  destruct (update_captures_splits short_lap_state t' 9%float 2100%float snap None
              1600%float 1%nat Hu eq_refl eq_refl ltac:(lia)) as (_ & H1 & _).
  split; [apply H0; reflexivity|].
  destruct (H1 eq_refl) as (d & Hd & Ht). injection Hd as <-. exact Ht.
Defined.

End RestoreSpec.

(** ** Projection on the track *)
Module GeometrySpec.
Import Num Geometry Shape.

Section Track.

Context {F : Type} `{PyFloat F}.
Variable pow2 : F -> option F.
Variable fsqrt : F -> F.

Lemma nearest_total (tg : TrackGeometry F) px py i :
  length (xy tg) = S (length (seg_len tg)) ->
  0 <= i < Z.of_nat (length (seg_len tg)) ->
  exists t ex ey, nearest tg px py i = Some (t, ex, ey).
Proof.
  intros Hxy Hi. unfold nearest.
  destruct (lookup_lt_is_Some_2 (xy tg) (Z.to_nat i) ltac:(lia)) as [[x1 y1] ->].
  destruct (lookup_lt_is_Some_2 (xy tg) (Z.to_nat (i + 1)) ltac:(lia)) as [[x2 y2] ->].
  simpl. eauto.
Qed.

(** One candidate segment: the body of the loop raises exactly when one of
    its two squares overflows; otherwise a best distance is known after
    it, for this segment or for the one that was the best before. *)
Lemma project_segment_spec (tg : TrackGeometry F) px py acc i :
  length (xy tg) = S (length (seg_len tg)) ->
  0 <= i < Z.of_nat (length (seg_len tg)) ->
  (project_segment pow2 tg px py acc i = None <-> overflows pow2 tg px py i) /\
  (forall acc', project_segment pow2 tg px py acc i = Some acc' ->
     is_Some acc'.1.1 /\
     (acc'.1.2 = i \/ (is_Some acc.1.1 /\ acc'.1.2 = acc.1.2))).
Proof.
  intros Hxy Hi. destruct acc as [[best best_idx] best_t].
  destruct (nearest_total tg px py i Hxy Hi) as (t & ex & ey & Hn).
  unfold project_segment, overflows. rewrite Hn. cbn [mbind option_bind].
  destruct (pow2 ex) as [ex2|] eqn:Ex; cbn [mbind option_bind].
  - destruct (pow2 ey) as [ey2|] eqn:Ey; cbn [mbind option_bind].
    + split.
      * split.
        -- destruct best as [b|]; [destruct (py_lt _ b)|]; discriminate.
        -- intros (t' & ex' & ey' & [= <- <- <-] & [Hx|Hy]); congruence.
      * intros acc' Hacc. destruct best as [b|].
        -- destruct (py_lt _ b); injection Hacc as <-; cbn [fst snd];
             (split; [eauto|]); [left; reflexivity|right; eauto].
        -- injection Hacc as <-. cbn [fst snd]. split; [eauto|left; reflexivity].
    + split; [|discriminate]. split; [|reflexivity].
      intros _. exists t, ex, ey. auto.
  - split; [|discriminate]. split; [|reflexivity].
    intros _. exists t, ex, ey. auto.
Qed.

Lemma project_loop_spec (tg : TrackGeometry F) px py :
  length (xy tg) = S (length (seg_len tg)) ->
  forall idxs acc,
  Forall (fun i => 0 <= i < Z.of_nat (length (seg_len tg))) idxs ->
  (project_loop pow2 tg px py acc idxs = None
   <-> Exists (overflows pow2 tg px py) idxs) /\
  (forall acc', project_loop pow2 tg px py acc idxs = Some acc' ->
     (is_Some acc.1.1 -> is_Some acc'.1.1) /\
     (idxs <> [] -> is_Some acc'.1.1) /\
     (acc'.1.2 ∈ idxs \/ (is_Some acc.1.1 /\ acc'.1.2 = acc.1.2) \/
      (idxs = [] /\ acc' = acc))).
Proof.
  intros Hxy. induction idxs as [|i idxs IH]; intros acc Hall; cbn [project_loop].
  - split.
    + split; [discriminate|]. intros Hex. inversion Hex.
    + intros acc' [= <-]. split; [auto|]. split; [congruence|]. right. right. auto.
  - apply Forall_cons in Hall as [Hi Hall].
    destruct (project_segment_spec tg px py acc i Hxy Hi) as [Hnone Hsome].
    destruct (project_segment pow2 tg px py acc i) as [acc1|] eqn:Hseg;
      cbn [mbind option_bind].
    + destruct (Hsome acc1 eq_refl) as [Hs1 Hi1].
      destruct (IH acc1 Hall) as [IHnone IHsome].
      split.
      * rewrite IHnone. split.
        -- intros Hex. apply Exists_cons_tl. exact Hex.
        -- intros Hex. apply Exists_cons in Hex as [Hov|Hex]; [|exact Hex].
           apply Hnone in Hov. discriminate Hov.
      * intros acc' Hacc. destruct (IHsome acc' Hacc) as (Hk & _ & Hin).
        split; [auto|]. split; [auto|].
        destruct Hin as [Hin|[[_ He]|[-> ->]]].
        -- left. apply list_elem_of_further. exact Hin.
        -- rewrite He. destruct Hi1 as [->|[Hs Hi1]].
           ++ left. apply list_elem_of_here.
           ++ right. left. rewrite Hi1. auto.
        -- destruct Hi1 as [->|[Hs Hi1]].
           ++ left. apply list_elem_of_here.
           ++ right. left. auto.
    + split; [|discriminate]. split; [|reflexivity].
      intros _. apply Exists_cons_hd. apply Hnone. reflexivity.
Qed.

(** X18: on a track as the constructor builds it, and for every position
    and every hint, a negative or oversized one included, [project] raises
    exactly when a square [** 2] overflows on one of the seventeen
    candidate segments, those from eight before the hint to eight after it
    modulo the number of segments; when it returns, the segment index is a
    valid index and is one of these seventeen. *)
Theorem project_total (tg : TrackGeometry F) (lat lon : F) (hint_seg_idx : Z) :
  track_ok tg ->
  let n := Z.of_nat (length (seg_len tg)) in
  let p := to_xy tg lat lon in
  (project pow2 fsqrt tg lat lon hint_seg_idx = None <->
   exists k, -8 <= k <= 8 /\
     overflows pow2 tg p.1 p.2 ((hint_seg_idx + k) mod n)) /\
  (forall s_m seg_idx err_m,
     project pow2 fsqrt tg lat lon hint_seg_idx = Some (s_m, seg_idx, err_m) ->
     0 <= seg_idx < n /\
     exists k, -8 <= k <= 8 /\ seg_idx = (hint_seg_idx + k) mod n).
Proof.
  intros (Hn & Hxy & Hcum) n p. subst p. unfold project.
  destruct (to_xy tg lat lon) as [px py]. cbn [fst snd].
  fold n. destruct (n =? 0) eqn:En; [zbool; lia|].
  set (idxs := map (fun k => (hint_seg_idx + k) mod n) (seqZ (-8) 17)).
  assert (Hall : Forall (fun i => 0 <= i < n) idxs).
  { apply Forall_forall. intros i Hin. apply list_elem_of_fmap in Hin as (k & -> & _).
    apply Z.mod_pos_bound. lia. }
  assert (Hwin : forall P : Z -> Prop,
            Exists P idxs <-> exists k, -8 <= k <= 8 /\ P ((hint_seg_idx + k) mod n)).
  { intros P. rewrite Exists_exists. split.
    - intros (i & Hin & HP). apply list_elem_of_fmap in Hin as (k & -> & Hk).
      apply elem_of_seqZ in Hk. exists k. split; [lia|exact HP].
    - intros (k & Hk & HP). exists ((hint_seg_idx + k) mod n). split; [|exact HP].
      apply list_elem_of_fmap. exists k. split; [reflexivity|].
      apply elem_of_seqZ. lia. }
  destruct (project_loop_spec tg px py Hxy idxs (None, 0, flit 0) Hall)
    as [Hnone Hsome].
  destruct (project_loop pow2 tg px py (None, 0, flit 0) idxs)
    as [[[best best_idx] best_t]|] eqn:Hloop; cbn [mbind option_bind].
  - destruct (Hsome _ eq_refl) as (_ & _ & Hin). cbn [fst snd] in Hin.
    assert (Hidx : best_idx ∈ idxs).
    { destruct Hin as [Hin|[[Hs _]|[Hnil _]]]; [exact Hin| |discriminate Hnil].
      destruct Hs as [? Hs]. discriminate Hs. }
    pose proof (proj1 (Forall_forall _ _) Hall _ Hidx) as Hrange.
    unfold n in Hrange.
    destruct (lookup_lt_is_Some_2 (cum_len tg) (Z.to_nat best_idx) ltac:(lia)) as [c ->].
    destruct (lookup_lt_is_Some_2 (seg_len tg) (Z.to_nat best_idx) ltac:(lia)) as [l ->].
    cbn [mbind option_bind]. split.
    + split; [discriminate|]. intros Hex. apply Hwin in Hex.
      apply Hnone in Hex. discriminate Hex.
    + intros s_m seg_idx err_m [= _ <- _]. split; [exact Hrange|].
      apply list_elem_of_fmap in Hidx as (k & -> & Hk).
      apply elem_of_seqZ in Hk. exists k. split; [lia|reflexivity].
  - split; [|discriminate]. split; [|reflexivity].
    intros _. apply Hwin. apply Hnone. reflexivity.
Qed.

End Track.

(** The rectangle, a fix on the top side, and a hint far outside the
    range of indices: the window is that of the hint modulo 24, segments 0
    to 16. *)
Lemma project_total_witness :
  exists s_m err_m,
    project float_pow2 PrimFloat.sqrt Hud.rectangle (200 / 111132.92)%float
      (480 / 111412.84)%float (-1000) = Some (s_m, 16, err_m).
Proof.
  destruct (project float_pow2 PrimFloat.sqrt Hud.rectangle (200 / 111132.92)%float
              (480 / 111412.84)%float (-1000))
    as [[[s_m seg_idx] err_m]|] eqn:Hp; [|vm_compute in Hp; discriminate Hp].
  destruct (project_total float_pow2 PrimFloat.sqrt Hud.rectangle
              (200 / 111132.92)%float (480 / 111412.84)%float (-1000))
    as [_ Hsome].
  - repeat split; simpl; lia.
  - destruct (Hsome s_m seg_idx err_m Hp) as [Hrange _].
    exists s_m, err_m. vm_compute in Hp. injection Hp as _ <- _. reflexivity.
Defined.

(** A latitude of 1e200 on the rectangle: the square of the offset
    overflows and [project] raises. *)
Example project_overflow :
  project float_pow2 PrimFloat.sqrt Hud.rectangle 1e200%float 0%float 0 = None.
Proof. vm_compute. reflexivity. Qed.

End GeometrySpec.

(** ** The records store and accepted fixes *)
Module StoreSpec.
Import Num Timing Disk Records Geometry Hud Shape Restore TimingSpec RestoreSpec.

Section Store.

Context {F : Type} `{PyFloat F}.
Variable dumps : gmap string (DriverData F) -> string.

Lemma persist_lookup (st : DriverRecordsStore F) (disk : fs) :
  persist dumps st disk !! path st = Some (dumps (data st)) /\
  forall q, q <> path st -> persist dumps st disk !! q = disk !! q.
Proof.
  unfold persist, persist_ops, write_text, run_ops. cbn [fold_left apply_op].
  rewrite !lookup_insert_eq. split; [reflexivity|].
  intros q Hq. rewrite !lookup_insert_ne by congruence. reflexivity.
Qed.

Lemma add_lap_data_spec (st : DriverRecordsStore F) driver lap now :
  let st' := add_lap_data st driver lap now in
  let sid := driver_session_id st driver in
  path st' = path st /\
  driver_session_id st' driver = sid /\
  session_laps st' driver sid = session_laps st driver sid ++ [lap] /\
  (forall s, s <> sid -> session_laps st' driver s = session_laps st driver s) /\
  (forall d, d <> driver -> data st' !! d = data st !! d).
Proof.
  unfold add_lap_data, ensure_driver, driver_session_id, session_laps.
  destruct (data st !! driver) as [dd|] eqn:Hd; cbn [data path].
  - rewrite Hd. cbn [data path]. rewrite !lookup_insert_eq.
    cbn [current_session_id sessions]. rewrite lookup_insert_eq.
    split_and!; try reflexivity.
    + destruct (sessions dd !! current_session_id dd); reflexivity.
    + intros s Hs. rewrite lookup_insert_ne by congruence. reflexivity.
    + intros d Hne. rewrite lookup_insert_ne by congruence. reflexivity.
  - rewrite lookup_insert_eq. cbn [data path]. rewrite !lookup_insert_eq.
    unfold _empty_driver. cbn [current_session_id sessions].
    rewrite lookup_insert_eq, lookup_singleton_eq. cbn [laps].
    split_and!; try reflexivity.
    + intros s Hs. rewrite lookup_insert_ne by congruence.
      rewrite lookup_singleton_ne by congruence. reflexivity.
    + intros d Hne. rewrite !lookup_insert_ne by congruence. reflexivity.
Qed.

(** X19: [add_lap] appends the lap to the current session of the driver,
    after the laps already there, creating the driver (with session 1) or
    the session when missing; it changes no other session and no other
    driver, keeps the current session number, and leaves on disk, at the
    path of the store, the serialized document of the new state, with
    every other file as it was. *)
Theorem add_lap_spec (st : DriverRecordsStore F) (disk : fs) driver lap now :
  let st' := (add_lap dumps st disk driver lap now).1 in
  let disk' := (add_lap dumps st disk driver lap now).2 in
  let sid := driver_session_id st driver in
  path st' = path st /\
  driver_session_id st' driver = sid /\
  session_laps st' driver sid = session_laps st driver sid ++ [lap] /\
  (forall s, s <> sid -> session_laps st' driver s = session_laps st driver s) /\
  (forall d, d <> driver -> data st' !! d = data st !! d) /\
  disk' !! path st = Some (dumps (data st')) /\
  (forall q, q <> path st -> disk' !! q = disk !! q).
Proof.
  intros st' disk' sid. subst st' disk' sid. unfold add_lap. cbn [fst snd].
  destruct (add_lap_data_spec st driver lap now) as (Hp & Hs & Hl & Ho & Hd).
  destruct (persist_lookup (add_lap_data st driver lap now) disk) as [Hw Hq].
  rewrite Hp in Hw, Hq. split_and!; assumption.
Qed.

(** X20: [reset_session] opens the session numbered one more than the
    current one (session 2 for a driver it has to create), makes it the
    current session, leaves it without laps and every other session and
    driver as they were, and writes the new document to disk; the next lap
    added for the driver is the first lap of the new session. *)
Theorem reset_session_spec (st : DriverRecordsStore F) (disk : fs) driver now :
  let st' := (reset_session dumps st disk driver now).1.1 in
  let disk' := (reset_session dumps st disk driver now).1.2 in
  let next_id := (reset_session dumps st disk driver now).2 in
  next_id = driver_session_id st driver + 1 /\
  driver_session_id st' driver = next_id /\
  session_laps st' driver next_id = [] /\
  (forall s, s <> next_id -> session_laps st' driver s = session_laps st driver s) /\
  (forall d, d <> driver -> data st' !! d = data st !! d) /\
  disk' !! path st = Some (dumps (data st')) /\
  (forall lap now',
     session_laps (add_lap_data st' driver lap now') driver next_id = [lap]).
Proof.
  intros st' disk' next_id. subst st' disk' next_id.
  set (sid := driver_session_id st driver).
  assert (Hshape : exists st2,
    reset_session dumps st disk driver now = (st2, persist dumps st2 disk, sid + 1) /\
    path st2 = path st /\
    driver_session_id st2 driver = sid + 1 /\
    session_laps st2 driver (sid + 1) = [] /\
    (forall s, s <> sid + 1 -> session_laps st2 driver s = session_laps st driver s) /\
    (forall d, d <> driver -> data st2 !! d = data st !! d)).
  { subst sid.
    unfold reset_session, ensure_driver, driver_session_id, session_laps.
    destruct (data st !! driver) as [dd|] eqn:Hd.
    - rewrite Hd. eexists. split; [reflexivity|]. cbn [data path].
      rewrite !lookup_insert_eq. cbn [current_session_id sessions].
      rewrite lookup_insert_eq. split_and!; try reflexivity.
      + intros s Hs. rewrite lookup_insert_ne by congruence. reflexivity.
      + intros d Hne. rewrite lookup_insert_ne by congruence. reflexivity.
    - cbn [data path]. rewrite lookup_insert_eq.
      eexists. split; [reflexivity|]. cbn [data path].
      rewrite !lookup_insert_eq. unfold _empty_driver.
      cbn [current_session_id sessions].
      rewrite lookup_insert_eq. split_and!; try reflexivity.
      + intros s Hs. rewrite lookup_insert_ne by congruence.
        destruct (decide (s = 1)) as [->|Hs1].
        * rewrite lookup_singleton_eq. reflexivity.
        * rewrite lookup_singleton_ne by congruence. reflexivity.
      + intros d Hne. rewrite !lookup_insert_ne by congruence. reflexivity. }
  destruct Hshape as (st2 & -> & Hp & Hid & Hl & Hs & Hd). cbn [fst snd].
  destruct (persist_lookup st2 disk) as [Hw _]. rewrite Hp in Hw.
  split_and!; try assumption; try reflexivity.
  intros lap now'.
  destruct (add_lap_data_spec st2 driver lap now') as (_ & _ & Hl2 & _).
  rewrite Hid in Hl2. rewrite Hl2, Hl. reflexivity.
Qed.

End Store.

End StoreSpec.

Module SharedSpec.
Import Num Timing Disk Records Geometry Hud Shape Restore TimingSpec RestoreSpec
  StoreSpec.

Section Accepted.

Context {F : Type} `{PyFloat F}.
Variable pow2 : F -> option F.
Variable fsqrt : F -> F.
Variable dumps : gmap string (DriverData F) -> string.

(** The split events of one update: each is for an index whose split was
    open before and is taken now. *)
Lemma split_events_inv (prev cur : list (option F)) driver sid lc ts base :
  forall idxs evs,
  split_events idxs prev cur driver sid lc ts base = Some evs ->
  Forall (fun e => exists i v,
            i ∈ idxs /\ emitted_split e = Some (Z.of_nat i + 1) /\
            prev !! i = Some None /\ cur !! i = Some (Some v)) evs.
Proof.
  induction idxs as [|i idxs IH]; intros evs Hrun; simpl in Hrun.
  - injection Hrun as <-. constructor.
  - destruct (prev !! i) as [old_v|] eqn:Ho; simpl in Hrun; [|discriminate].
    destruct (cur !! i) as [new_v|] eqn:Hn; simpl in Hrun; [|discriminate].
    match type of Hrun with
    | context [mbind _ ?m] => destruct m as [here|] eqn:Hhere
    end; simpl in Hrun; [|discriminate].
    destruct (split_events idxs prev cur driver sid lc ts base) as [later|];
      simpl in Hrun; [|discriminate].
    injection Hrun as <-. apply Forall_app. split.
    + destruct old_v as [ov|]; [injection Hhere as <-; constructor|].
      destruct new_v as [v|]; [|injection Hhere as <-; constructor].
      match type of Hhere with
      | context [mbind _ ?m] => destruct m as [seg_time|]
      end; simpl in Hhere; [|discriminate].
      destruct (f_to_int (ts * flit 1000000000)%F) as [at_ns|];
        simpl in Hhere; [|discriminate].
      injection Hhere as <-.
      repeat apply Forall_cons_2; [..|constructor];
        exists i, v; (split; [apply list_elem_of_here|]); auto.
    + eapply Forall_impl; [exact (IH _ eq_refl)|]. intros e (i0 & v & Hin & He).
      exists i0, v. split; [apply list_elem_of_further; exact Hin|exact He].
Qed.

(** On lists of three items the events are derived without an exception
    as soon as [int(ts_sec * 1_000_000_000)] returns. *)
Lemma split_events_total (prev cur : list (option F)) driver sid lc ts base at_ns :
  length prev = 3%nat -> length cur = 3%nat ->
  f_to_int (ts * flit 1000000000)%F = Some at_ns ->
  forall idxs, Forall (fun i => i < 3)%nat idxs ->
  exists evs, split_events idxs prev cur driver sid lc ts base = Some evs.
Proof.
  intros Hp Hc Hns. induction idxs as [|i idxs IH]; intros Hall; simpl.
  - eauto.
  - apply Forall_cons in Hall as [Hi Hall].
    destruct (IH Hall) as (later & ->).
    destruct (lookup_lt_is_Some_2 prev i ltac:(lia)) as [old_v ->].
    destruct (lookup_lt_is_Some_2 cur i ltac:(lia)) as [new_v ->].
    simpl.
    destruct old_v as [ov|]; [simpl; eauto|].
    destruct new_v as [v|]; [|simpl; eauto].
    destruct i as [|j]; [simpl; rewrite Hns; simpl; eauto|].
    destruct (lookup_lt_is_Some_2 cur j ltac:(lia)) as [b ->]. simpl.
    rewrite Hns. simpl. eauto.
Qed.

(** When [int(ts_sec * 1_000_000_000)] raises, the events are derived only
    if there is none. *)
Lemma split_events_silent (prev cur : list (option F)) driver sid lc ts base :
  f_to_int (ts * flit 1000000000)%F = None ->
  forall idxs evs,
  split_events idxs prev cur driver sid lc ts base = Some evs -> evs = [].
Proof.
  intros Hns. induction idxs as [|i idxs IH]; intros evs Hrun; simpl in Hrun.
  - injection Hrun as <-. reflexivity.
  - destruct (prev !! i) as [old_v|]; simpl in Hrun; [|discriminate].
    destruct (cur !! i) as [new_v|]; simpl in Hrun; [|discriminate].
    match type of Hrun with
    | context [mbind _ ?m] => destruct m as [here|] eqn:Hhere
    end; simpl in Hrun; [|discriminate].
    destruct (split_events idxs prev cur driver sid lc ts base) as [later|];
      simpl in Hrun; [|discriminate].
    injection Hrun as <-. rewrite (IH later eq_refl), app_nil_r.
    destruct old_v as [ov|]; [injection Hhere as <-; reflexivity|].
    destruct new_v as [v|]; [|injection Hhere as <-; reflexivity].
    match type of Hhere with
    | context [mbind _ ?m] => destruct m as [seg_time|]
    end; simpl in Hhere; [|discriminate].
    rewrite Hns in Hhere. discriminate Hhere.
Qed.

(** What an accepted fix leaves, from the pieces it is made of. *)
Lemma update_accepted_shape (st : SharedState F) (payload : Payload F) now
    s_m seg_idx err_m ts_sec t t' snap c evs :
  project pow2 fsqrt (track st) (lat payload) (lon payload) (last_seg_idx st)
    = Some (s_m, seg_idx, err_m) ->
  (err_m >? flit MAX_TRACK_ERROR_M)%F = false ->
  fix_time payload now = Some ts_sec ->
  timings st !! active_driver st = Some t ->
  Timing.update t ts_sec s_m = Some (t', snap, c) ->
  let driver := active_driver st in
  let records1 := ensure_driver (records st) driver now in
  let sid := driver_session_id records1 driver in
  split_events [0; 1; 2]%nat (current_splits t) (current_splits t') driver sid
    (lap_count t') ts_sec (events_topic_base st) = Some evs ->
  Hud.update pow2 fsqrt dumps st payload now
  = match c with
    | Some lap =>
      at_ns ← f_to_int (ts_sec * flit 1000000000)%F;
      Some (mkShared
              (Some (mkRow payload s_m
                       (if armed t' then Some (lap_progress_m t') else None)
                       err_m driver))
              (seq st + 1)
              (deque_append (history_size st) (history st) (lat payload, lon payload))
              (history_size st) (track st) driver
              (add_lap dumps records1 (disk st) driver (mkEntry lap driver sid) now).1
              (<[driver := t']> (timings st)) seg_idx (events_topic_base st)
              (Some snap)
              (add_lap dumps records1 (disk st) driver (mkEntry lap driver sid) now).2
              (emitted st ++ evs
               ++ [PublishLap (events_topic_base st ++ "/" ++ driver ++ "/laps")
                     (mkEntry lap driver sid);
                   InfluxLap (mkEntry lap driver sid) at_ns]))
    | None =>
      Some (mkShared
              (Some (mkRow payload s_m
                       (if armed t' then Some (lap_progress_m t') else None)
                       err_m driver))
              (seq st + 1)
              (deque_append (history_size st) (history st) (lat payload, lon payload))
              (history_size st) (track st) driver records1
              (<[driver := t']> (timings st)) seg_idx (events_topic_base st)
              (Some snap) (disk st) (emitted st ++ evs ++ []))
    end.
Proof.
  intros Hproj Herr Hts Ht Hu driver records1 sid Hev.
  subst driver records1 sid.
  unfold Hud.update. rewrite Hproj. cbn [mbind option_bind]. rewrite Herr.
  rewrite Hts. cbn [mbind option_bind].
  rewrite Ht. cbn [mbind option_bind].
  rewrite Hu. cbn [mbind option_bind].
  rewrite Hev. cbn [mbind option_bind].
  destruct c as [lap|]; [|reflexivity].
  destruct (f_to_int (ts_sec * flit 1000000000)%F); reflexivity.
Qed.

(** X21: a fix the projection puts within [MAX_TRACK_ERROR_M] of the
    track, for an active driver whose timing has its lists of three.  A
    [ts_ns] too large for a float makes [update] raise.  When the time of
    the fix is a float [ts_sec] and [int(ts_sec * 1_000_000_000)] returns,
    the fix is taken: [update] returns, counts the fix, keeps the segment
    index as the next hint, steps the timing of the active driver and of
    no other, records the row and the snapshot, keeps the trail within its
    size with the fix last, touches the records of no other driver, and
    adds to what it has emitted without changing what was there; without a
    completed lap the disk is untouched, with one the lap is the last of
    the current session of the driver and the records file holds the
    serialized new state.  When [int(ts_sec * 1_000_000_000)] raises,
    [update] returns only if it has nothing to emit. *)
Theorem update_accepted (st : SharedState F) (payload : Payload F) now
    s_m seg_idx err_m t :
  project pow2 fsqrt (track st) (lat payload) (lon payload) (last_seg_idx st)
    = Some (s_m, seg_idx, err_m) ->
  (err_m >? flit MAX_TRACK_ERROR_M)%F = false ->
  timings st !! active_driver st = Some t ->
  well_formed t ->
  (fix_time payload now = None ->
   Hud.update pow2 fsqrt dumps st payload now = None) /\
  (forall ts_sec at_ns,
     fix_time payload now = Some ts_sec ->
     f_to_int (ts_sec * flit 1000000000)%F = Some at_ns ->
     exists st' t' snap c,
       Timing.update t ts_sec s_m = Some (t', snap, c) /\
       Hud.update pow2 fsqrt dumps st payload now = Some st' /\
       seq st' = seq st + 1 /\
       last_seg_idx st' = seg_idx /\
       active_driver st' = active_driver st /\
       timings st' = <[active_driver st := t']> (timings st) /\
       _timing_snapshot st' = Some snap /\
       latest st' = Some (mkRow payload s_m
                            (if armed t' then Some (lap_progress_m t') else None)
                            err_m (active_driver st)) /\
       (1 <= history_size st ->
        py_last (history st') = Some (lat payload, lon payload) /\
        (Z.of_nat (length (history st)) <= history_size st ->
         Z.of_nat (length (history st')) <= history_size st)) /\
       (forall d, d <> active_driver st ->
          data (records st') !! d = data (records st) !! d) /\
       emitted st `prefix_of` emitted st' /\
       match c with
       | None => disk st' = disk st
       | Some lap =>
         let sid := driver_session_id (records st) (active_driver st) in
         py_last (session_laps (records st') (active_driver st) sid)
           = Some (mkEntry lap (active_driver st) sid) /\
         disk st' !! path (records st) = Some (dumps (data (records st')))
       end) /\
  (forall ts_sec st',
     fix_time payload now = Some ts_sec ->
     f_to_int (ts_sec * flit 1000000000)%F = None ->
     Hud.update pow2 fsqrt dumps st payload now = Some st' ->
     emitted st' = emitted st).
Proof.
  intros Hproj Herr Ht Hwf. split; [|split].
  { intros Hts. unfold Hud.update. rewrite Hproj. cbn [mbind option_bind].
    rewrite Herr, Hts. reflexivity. }
  2:{ intros ts_sec st' Hts Hns Hupd.
      destruct (update_total t ts_sec s_m Hwf) as (t' & snap & c & Hu & _).
      unfold Hud.update in Hupd. rewrite Hproj in Hupd.
      cbn [mbind option_bind] in Hupd. rewrite Herr, Hts in Hupd.
      cbn [mbind option_bind] in Hupd. rewrite Ht in Hupd.
      cbn [mbind option_bind] in Hupd. rewrite Hu in Hupd.
      cbn [mbind option_bind] in Hupd.
      match type of Hupd with
      | context [split_events ?a ?b ?c ?d ?e ?f ?g ?h] =>
        destruct (split_events a b c d e f g h) as [evs|] eqn:Hev
      end; cbn [mbind option_bind] in Hupd; [|discriminate].
      apply (split_events_silent _ _ _ _ _ _ _ Hns) in Hev. subst evs.
      destruct c as [lap|]; cbn [mbind option_bind] in Hupd.
      - rewrite Hns in Hupd. discriminate Hupd.
      - injection Hupd as <-. cbn [emitted]. rewrite !app_nil_r. reflexivity. }
  intros ts_sec at_ns Hts Hns.
  destruct (update_total t ts_sec s_m Hwf)
    as (t' & snap & c & Hu & Hwf').
  destruct Hwf as (_ & Hc3 & _). destruct Hwf' as (_ & Hc3' & _).
  destruct (split_events_total (current_splits t) (current_splits t')
              (active_driver st)
              (driver_session_id
                 (ensure_driver (records st) (active_driver st) now)
                 (active_driver st))
              (lap_count t') ts_sec (events_topic_base st) at_ns
              Hc3 Hc3' Hns [0; 1; 2]%nat ltac:(repeat constructor))
    as (evs & Hev).
  pose proof (update_accepted_shape st payload now _ _ _ _ _ _ _ _ _
                Hproj Herr Hts Ht Hu Hev) as Hshape.
  cbv zeta in Hshape.
  assert (Hens : forall d, d <> active_driver st ->
            data (ensure_driver (records st) (active_driver st) now) !! d
            = data (records st) !! d).
  { intros d Hd. unfold ensure_driver.
    destruct (data (records st) !! active_driver st); [reflexivity|].
    cbn [data]. apply lookup_insert_ne. congruence. }
  assert (Hsid : driver_session_id
                   (ensure_driver (records st) (active_driver st) now)
                   (active_driver st)
                 = driver_session_id (records st) (active_driver st)).
  { unfold ensure_driver, driver_session_id.
    destruct (data (records st) !! active_driver st) eqn:Hd; [rewrite Hd; reflexivity|].
    cbn [data]. rewrite lookup_insert_eq. reflexivity. }
  assert (Hpath : path (ensure_driver (records st) (active_driver st) now)
                  = path (records st)).
  { unfold ensure_driver.
    destruct (data (records st) !! active_driver st); reflexivity. }
  assert (Hhist : 1 <= history_size st ->
    py_last (deque_append (history_size st) (history st) (lat payload, lon payload))
    = Some (lat payload, lon payload) /\
    (Z.of_nat (length (history st)) <= history_size st ->
     Z.of_nat (length (deque_append (history_size st) (history st)
                         (lat payload, lon payload))) <= history_size st)).
  { intros Hsz. unfold deque_append.
    destruct (history_size st =? 0) eqn:E0; zbool; [lia|].
    destruct (Z.of_nat (length (history st)) >=? history_size st) eqn:E1; zbool.
    + split; [apply FrameSpec.py_last_snoc|]. intros Hle.
      rewrite length_app, length_drop. simpl. lia.
    + split; [apply FrameSpec.py_last_snoc|]. intros Hle.
      rewrite length_app. simpl. lia. }
  destruct c as [lap|].
  - rewrite Hns in Hshape. cbn [mbind option_bind] in Hshape.
    destruct (add_lap_data_spec
                (ensure_driver (records st) (active_driver st) now)
                (active_driver st)
                (mkEntry lap (active_driver st)
                   (driver_session_id
                      (ensure_driver (records st) (active_driver st) now)
                      (active_driver st))) now)
      as (Hp & _ & Hl & _ & Ho).
    destruct (persist_lookup dumps
                (add_lap_data
                   (ensure_driver (records st) (active_driver st) now)
                   (active_driver st)
                   (mkEntry lap (active_driver st)
                      (driver_session_id
                         (ensure_driver (records st) (active_driver st) now)
                         (active_driver st))) now) (disk st)) as [Hw _].
    rewrite Hp, Hpath in Hw.
    eexists _, t', snap, (Some lap). split; [exact Hu|]. split; [exact Hshape|].
    cbn [seq last_seg_idx active_driver timings _timing_snapshot latest history
         records emitted disk].
    unfold add_lap. cbn [fst snd].
    split; [reflexivity|]. split; [reflexivity|]. split; [reflexivity|].
    split; [reflexivity|]. split; [reflexivity|]. split; [reflexivity|].
    split; [exact Hhist|].
    split; [intros d Hd; rewrite (Ho d Hd); apply Hens; exact Hd|].
    split; [apply prefix_app_r; reflexivity|].
    cbv zeta. rewrite <- Hsid. split; [|exact Hw].
    rewrite Hl. apply FrameSpec.py_last_snoc.
  - eexists _, t', snap, None. split; [exact Hu|]. split; [exact Hshape|].
    cbn [seq last_seg_idx active_driver timings _timing_snapshot latest history
         records emitted disk].
    split_and!; try reflexivity.
    + exact Hhist.
    + exact Hens.
    + apply prefix_app_r. reflexivity.
Qed.

(** X22: the split events [update] emits are for the first and the
    second split only.  The third split line is the finish line: the
    third split is taken in the call that completes the lap, which clears
    the splits before the events are derived, so that no event for split 3
    is published or written to InfluxDB; the third split reaches the
    outside with the lap event alone. *)
Theorem update_emits_no_third_split (st st' : SharedState F)
    (payload : Payload F) now t :
  timings st !! active_driver st = Some t ->
  third_split_open t ->
  Hud.update pow2 fsqrt dumps st payload now = Some st' ->
  exists new,
    emitted st' = emitted st ++ new /\
    Forall (fun e => emitted_split e = None \/ emitted_split e = Some 1
                     \/ emitted_split e = Some 2) new.
Proof.
  intros Ht Ho Hupd. unfold Hud.update in Hupd.
  destruct (project pow2 fsqrt _ _ _ _) as [[[s_m seg_idx] err_m]|];
    cbn [mbind option_bind] in Hupd; [|discriminate].
  destruct (py_lt (flit MAX_TRACK_ERROR_M) err_m).
  { injection Hupd as <-. exists []. rewrite app_nil_r. split; [reflexivity|constructor]. }
  destruct (fix_time payload now) as [ts_sec|];
    cbn [mbind option_bind] in Hupd; [|discriminate].
  rewrite Ht in Hupd. cbn [mbind option_bind] in Hupd.
  destruct (Timing.update t ts_sec s_m) as [[[t' snap] c]|] eqn:Hu;
    cbn [mbind option_bind] in Hupd; [|discriminate].
  destruct (update_keeps_third_split _ _ _ _ _ _ Ho Hu) as [[_ Ho'] _].
  match type of Hupd with
  | context [split_events ?a ?b ?c ?d ?e ?f ?g ?h] =>
    destruct (split_events a b c d e f g h) as [evs|] eqn:Hev
  end; cbn [mbind option_bind] in Hupd; [|discriminate].
  apply split_events_inv in Hev.
  assert (Hevs : Forall (fun e => emitted_split e = None \/ emitted_split e = Some 1
                                  \/ emitted_split e = Some 2) evs).
  { eapply Forall_impl; [exact Hev|].
    intros e (i & v & Hin & -> & _ & Hcur). right.
    destruct i as [|[|[|i]]].
    - left. reflexivity.
    - right. reflexivity.
    - congruence.
    - exfalso. repeat (apply elem_of_cons in Hin as [Hin|Hin]; [discriminate|]).
      inversion Hin. }
  destruct c as [lap|]; cbn [mbind option_bind] in Hupd.
  - destruct (f_to_int (ts_sec * flit 1000000000)%F) as [at_ns|];
      cbn [mbind option_bind] in Hupd; [|discriminate].
    injection Hupd as <-; cbn [emitted].
    eexists; (split; [reflexivity|]); apply Forall_app; (split; [exact Hevs|]).
    repeat constructor.
  - injection Hupd as <-; cbn [emitted].
    eexists; (split; [reflexivity|]); apply Forall_app; (split; [exact Hevs|]).
    constructor.
Qed.

End Accepted.

(** A fix on the bottom side of the rectangle, 500 m from the start. *)
Lemma update_accepted_witness :
  exists st',
    Hud.update float_pow2 PrimFloat.sqrt no_dumps hud0 (fix_at 500 0) 0%float
      = Some st' /\
    seq st' = 1 /\ disk st' = ∅.
Proof.
  destruct (project float_pow2 PrimFloat.sqrt (track hud0) (lat (fix_at 500 0))
              (lon (fix_at 500 0)) (last_seg_idx hud0))
    as [[[s_m seg_idx] err_m]|] eqn:Hproj; [|vm_compute in Hproj; discriminate Hproj].
  destruct (update_accepted float_pow2 PrimFloat.sqrt no_dumps hud0 (fix_at 500 0)
              0%float s_m seg_idx err_m (new_timing 2400%float) Hproj)
    as (_ & Htaken & _).
  - vm_compute in Hproj. injection Hproj as _ _ <-. reflexivity.
  - reflexivity.
  - repeat split.
  - destruct (Htaken 5%float 5000000000)
      as (st' & t' & snap & c & Hu & Hupd & Hseq & _ & _ & _ & _ & _ & _ & _ & _ & Hc).
    + vm_compute. reflexivity.
    + vm_compute. reflexivity.
    + exists st'. split; [exact Hupd|]. split; [exact Hseq|].
      destruct c as [lap|]; [vm_compute in Hu; discriminate Hu|exact Hc].
Defined.

(** The same fix with a time stamp of [10 ** 400] nanoseconds, which no
    float holds: [update] raises. *)
Example update_huge_ts_ns :
  Hud.update float_pow2 PrimFloat.sqrt no_dumps hud0
    (mkPayload (lat (fix_at 500 0)) (lon (fix_at 500 0)) (Some (10 ^ 400)))
    0%float = None.
Proof. vm_compute. reflexivity. Qed.

(** The lap under way reaches the first split line: the two events of
    split 1 are emitted. *)
Lemma update_emits_no_third_split_witness :
  exists st' e1 e2,
    Hud.update float_pow2 PrimFloat.sqrt no_dumps hud_running (fix_at 900 0) 0%float
      = Some st' /\
    emitted st' = [e1; e2] /\
    emitted_split e1 = Some 1 /\ emitted_split e2 = Some 1.
Proof.
  destruct (Hud.update float_pow2 PrimFloat.sqrt no_dumps hud_running (fix_at 900 0)
              0%float)
    as [st'|] eqn:Hupd; [|vm_compute in Hupd; discriminate Hupd].
  destruct (update_emits_no_third_split float_pow2 PrimFloat.sqrt no_dumps
              hud_running st' (fix_at 900 0) 0%float
              (mkTiming 2400%float [800; 1600; 2400]%float 0 true 1%float 700%float
                 [None; None; None] [None; None; None] [None; None; None]
                 [None; None; None] None None (Some 700%float))
              eq_refl ltac:(split; reflexivity) Hupd) as (new & Hnew & _).
  vm_compute in Hupd. injection Hupd as <-.
  eexists _, _, _. split; [reflexivity|]. split; [reflexivity|].
  split; reflexivity.
Defined.

End SharedSpec.

(** ** Keys of the decoded parameters *)
Module ParamsSpec.
Import Text Expr Params ExprSpec.

Section Decoder.

Context {F : Type}.
Variable float_of_int : Z -> F.
Variable py_round : F -> Z -> F.

Lemma decode_loop_dom data : forall (params : list (RRParam (F:=F))) m u r m' u' r',
  decode_loop float_of_int py_round data (m, u, r) params = Some (m', u', r') ->
  dom m' = dom m ∪ list_to_set (topic <$> decoded_params data params) /\
  dom u' = dom u ∪ list_to_set (topic <$> decoded_params data params) /\
  dom r' = dom r ∪ list_to_set (name <$> decoded_params data params).
Proof.
  induction params as [|p params IH]; intros m u r m' u' r' Hrun;
    cbn [decode_loop] in Hrun.
  - injection Hrun as <- <- <-. unfold decoded_params. simpl.
    split_and!; set_solver.
  - destruct (decode_param float_of_int py_round data (m, u, r) p)
      as [[[m1 u1] r1]|] eqn:E1; [|discriminate].
    apply IH in Hrun as (Hm & Hu & Hr).
    unfold decode_param in E1. unfold decoded_params.
    rewrite filter_cons.
    destruct (bytes_for_param data p) as [bs|] eqn:Hb.
    + destruct (decide (is_Some (Some bs))) as [_|Hn];
        [|exfalso; apply Hn; eauto].
      destruct (raw_value float_of_int p bs) as [raw|]; [|discriminate].
      injection E1 as <- <- <-.
      rewrite Hm, Hu, Hr, !dom_insert_L, !fmap_cons, !list_to_set_cons.
      fold (decoded_params data params). split_and!; set_solver.
    + destruct (decide (is_Some (None : option (list Z)))) as [[? Hs]|_];
        [discriminate|].
      injection E1 as <- <- <-. auto.
Qed.

(** X23: the three dicts [decode_rr_params] returns are keyed alike: the
    metrics and the units by the topics, the resolved values by the names,
    of exactly the parameters whose bytes are all in the address map; a
    parameter with a byte missing leaves no key.  On the boolean fast path
    the raw value is the float of the selected bit, zero or one. *)
Theorem decode_rr_params_keys (data : gmap Z Z)
    (params : list (RRParam (F:=F))) metrics units resolved :
  decode_rr_params float_of_int py_round data params
    = Some (metrics, units, resolved) ->
  dom metrics = list_to_set (topic <$> decoded_params data params) /\
  dom units = dom metrics /\
  dom resolved = list_to_set (name <$> decoded_params data params) /\
  (forall k, k ∈ dom metrics <->
     exists p, p ∈ params /\ topic p = k /\ is_Some (bytes_for_param data p)) /\
  (forall p bs raw, is_bool_bit p = true ->
     raw_value float_of_int p bs = Some raw ->
     raw = float_of_int 0 \/ raw = float_of_int 1).
Proof.
  intros Hrun. unfold decode_rr_params in Hrun.
  apply decode_loop_dom in Hrun as (Hm & Hu & Hr).
  rewrite dom_empty_L, union_empty_l_L in Hm.
  rewrite dom_empty_L, union_empty_l_L in Hu.
  rewrite dom_empty_L, union_empty_l_L in Hr.
  split_and!; [exact Hm|congruence|exact Hr| |].
  - intros k. rewrite Hm, elem_of_list_to_set, list_elem_of_fmap.
    unfold decoded_params. split.
    + intros (p & -> & Hp). apply list_elem_of_filter in Hp as [Hs Hin]. eauto.
    + intros (p & Hin & <- & Hs). exists p. split; [reflexivity|].
      apply list_elem_of_filter. auto.
  - intros p bs raw Hbool Hraw. unfold raw_value in Hraw.
    destruct (decode_raw_value bs (storagetype p)); [|discriminate].
    rewrite Hbool in Hraw. destruct bs as [|b0 bs]; [discriminate|].
    injection Hraw as <-.
    assert (Hland : forall x, Z.land x 1 = x mod 2).
    { intros x. change 1 with (Z.ones 1). rewrite Z.land_ones by lia.
      reflexivity. }
    rewrite Hland.
    pose proof (Z.mod_pos_bound (Z.shiftr b0 (bit p - 1)) 2 ltac:(lia)) as Hb.
    destruct (Z.eq_dec (Z.shiftr b0 (bit p - 1) mod 2) 0) as [->|Hne];
      [left; reflexivity|].
    replace (Z.shiftr b0 (bit p - 1) mod 2) with 1 by lia. right. reflexivity.
Qed.

End Decoder.

(** The engine-load parameter with its byte at address 8 in the map. *)
Lemma decode_rr_params_keys_witness :
  exists metrics units resolved,
    decode_rr_params (fun n : Z => n) (fun x _ => x) {[ 8 := 200 ]} [ternary_param]
      = Some (metrics, units, resolved) /\
    dom units = dom metrics /\
    dom metrics = {[ "engine_load"%string ]}.
Proof.
  destruct (decode_rr_params (fun n : Z => n) (fun x _ => x) {[ 8 := 200 ]}
              [ternary_param]) as [[[metrics units] resolved]|] eqn:Hrun;
    [|vm_compute in Hrun; discriminate Hrun].
  exists metrics, units, resolved. split; [reflexivity|].
  destruct (decode_rr_params_keys _ _ _ _ _ _ _ Hrun) as (Hm & Hu & _).
  split; [exact Hu|]. rewrite Hm. unfold decoded_params.
  rewrite filter_cons. destruct (decide _) as [_|Hn].
  - simpl. set_solver.
  - exfalso. apply Hn. vm_compute. eauto.
Defined.

Section Legacy.

Context {F : Type}.

Lemma param_addrs_elem (params : list (ParamDef F)) a :
  a ∈ param_addrs params <->
  exists p i, p ∈ params /\ 0 <= i < pd_size p /\ a = pd_addr p + i.
Proof.
  unfold param_addrs. rewrite list_elem_of_In, in_flat_map. split.
  - intros (p & Hp & Ha). apply in_map_iff in Ha as (i & <- & Hi).
    apply list_elem_of_In, elem_of_seqZ in Hi. apply list_elem_of_In in Hp.
    exists p, i. split; [exact Hp|]. split; [lia|reflexivity].
  - intros (p & i & Hp & Hi & ->). exists p. split; [apply list_elem_of_In; exact Hp|].
    apply in_map_iff. exists i. split; [reflexivity|].
    apply list_elem_of_In, elem_of_seqZ. lia.
Qed.

Lemma bytes_for_params_elem (params : list (ParamDef F)) a :
  a ∈ bytes_for_params params <-> a ∈ param_addrs params.
Proof.
  unfold bytes_for_params. rewrite merge_sort_Permutation.
  apply elem_of_remove_dups.
Qed.

Lemma strictly_sorted (l : list Z) :
  StronglySorted Z.le l -> NoDup l -> StronglySorted Z.lt l.
Proof.
  induction 1 as [|x l Hs IH Hall]; intros Hnd; [constructor|].
  apply NoDup_cons in Hnd as [Hx Hnd]. constructor; [auto|].
  apply Forall_forall. intros y Hy.
  pose proof (proj1 (Forall_forall _ _) Hall y Hy) as Hle.
  destruct (Z.eq_dec x y) as [->|Hne]; [contradiction|lia].
Qed.

Lemma raw_is_Some (data : gmap Z Z) (p : ParamDef F) :
  is_Some (mapM (fun i => data !! (pd_addr p + i)) (seqZ 0 (pd_size p))) <->
  forall i, 0 <= i < pd_size p -> is_Some (data !! (pd_addr p + i)).
Proof.
  rewrite mapM_is_Some, Forall_forall. split.
  - intros Hall i Hi. apply (Hall i). apply elem_of_seqZ. lia.
  - intros Hall i Hi. apply elem_of_seqZ in Hi. apply Hall. lia.
Qed.

Lemma decode_params_loop_total (data : gmap Z Z) :
  forall (params : list (ParamDef F)) acc,
  (forall p i, p ∈ params -> 0 <= i < pd_size p ->
     is_Some (data !! (pd_addr p + i))) ->
  (forall p raw, p ∈ params -> length raw = Z.to_nat (pd_size p) ->
     is_Some (decoder p raw)) ->
  exists decoded,
    decode_params_loop data params acc = Some decoded /\
    dom decoded = dom acc ∪ list_to_set (pd_name <$> params).
Proof.
  induction params as [|p params IH]; intros acc Hdata Hdec; simpl.
  - eexists. split; [reflexivity|]. set_solver.
  - destruct (proj2 (raw_is_Some data p)) as [raw Hraw].
    { intros i Hi. apply Hdata; [apply list_elem_of_here|exact Hi]. }
    rewrite Hraw. simpl.
    destruct (Hdec p raw) as [v Hv]; [apply list_elem_of_here| |].
    { pose proof (length_mapM _ _ _ Hraw) as Hlen. rewrite length_seqZ in Hlen.
      lia. }
    rewrite Hv. simpl.
    destruct (IH (<[pd_name p := (v, pd_unit p)]> acc)) as (decoded & -> & Hdom).
    { intros q i Hq. apply Hdata. apply list_elem_of_further. exact Hq. }
    { intros q r Hq. apply Hdec. apply list_elem_of_further. exact Hq. }
    eexists. split; [reflexivity|]. rewrite Hdom, dom_insert_L. set_solver.
Qed.

Lemma decode_params_loop_missing (data : gmap Z Z) :
  forall (params : list (ParamDef F)) acc p i,
  p ∈ params -> 0 <= i < pd_size p -> data !! (pd_addr p + i) = None ->
  decode_params_loop data params acc = None.
Proof.
  induction params as [|q params IH]; intros acc p i Hp Hi Hnone; simpl.
  - inversion Hp.
  - destruct (mapM _ (seqZ 0 (pd_size q))) as [raw|] eqn:Hraw; simpl;
      [|reflexivity].
    destruct (decoder q raw) as [v|]; simpl; [|reflexivity].
    apply elem_of_cons in Hp as [->|Hp]; [|eapply IH; eauto].
    exfalso. assert (Hs : is_Some (data !! (pd_addr q + i))).
    { apply (proj1 (raw_is_Some data q)); [rewrite Hraw; eauto|exact Hi]. }
    rewrite Hnone in Hs. destruct Hs as [? Hs]. discriminate Hs.
Qed.

(** X24: [bytes_for_params] lists, in strictly increasing order and so
    without repeats, exactly the addresses [addr + i], [i < size], of the
    parameters.  When the address map holds a byte for each of them (and
    the decoders accept as many bytes as their size), [decode_params]
    returns a value and a unit under the name of every parameter; when one
    of them is missing it raises. *)
Theorem bytes_for_params_spec (params : list (ParamDef F)) (data : gmap Z Z) :
  StronglySorted Z.lt (bytes_for_params params) /\
  (forall a, a ∈ bytes_for_params params <->
     exists p i, p ∈ params /\ 0 <= i < pd_size p /\ a = pd_addr p + i) /\
  ((forall a, a ∈ bytes_for_params params -> is_Some (data !! a)) ->
   (forall p raw, p ∈ params -> length raw = Z.to_nat (pd_size p) ->
      is_Some (decoder p raw)) ->
   exists decoded,
     decode_params data params = Some decoded /\
     dom decoded = list_to_set (pd_name <$> params)) /\
  (forall a, a ∈ bytes_for_params params -> data !! a = None ->
     decode_params data params = None).
Proof.
  split_and!.
  - apply strictly_sorted.
    + unfold bytes_for_params. apply StronglySorted_merge_sort; apply _.
    + unfold bytes_for_params. rewrite merge_sort_Permutation.
      apply NoDup_remove_dups.
  - intros a. rewrite bytes_for_params_elem. apply param_addrs_elem.
  - intros Hdata Hdec.
    destruct (decode_params_loop_total data params ∅) as (decoded & Hrun & Hdom).
    + intros p i Hp Hi. apply Hdata, bytes_for_params_elem, param_addrs_elem.
      eauto.
    + exact Hdec.
    + exists decoded. split; [exact Hrun|]. rewrite Hdom, dom_empty_L. set_solver.
  - intros a Ha Hnone.
    apply bytes_for_params_elem, param_addrs_elem in Ha as (p & i & Hp & Hi & ->).
    eapply decode_params_loop_missing; eauto.
Qed.

End Legacy.

End ParamsSpec.

(** ** Diagnostic trouble codes *)
Module DtcSpec.
Import Dtc.

Lemma land_bit (b n : Z) :
  0 <= n -> (Z.land b (Z.shiftl 1 n) =? 0) = negb (Z.testbit b n).
Proof.
  intros Hn. rewrite Z.shiftl_1_l.
  destruct (Z.testbit b n) eqn:Hb; simpl.
  - apply Z.eqb_neq. intros H0.
    assert (Ht : Z.testbit (Z.land b (2 ^ n)) n = true).
    { rewrite Z.land_spec, Hb, Z.pow2_bits_true by lia. reflexivity. }
    rewrite H0, Z.bits_0 in Ht. discriminate.
  - apply Z.eqb_eq. apply Z.bits_inj'. intros m Hm.
    rewrite Z.land_spec, Z.bits_0, Z.pow2_bits_eqb by lia.
    destruct (Z.eqb_spec n m) as [->|]; [rewrite Hb; reflexivity|].
    apply andb_false_r.
Qed.

Lemma pairs_ok_spec pairs :
  pairs_ok pairs = true ->
  pairs <> [] /\
  Forall (fun p => 142 <= p.1 <= 615 /\ p.1 < p.2 /\ p.2 <= 620) pairs /\
  NoDup (pairs.*1 ++ pairs.*2) /\
  (length pairs <= 76)%nat.
Proof.
  unfold pairs_ok. rewrite !andb_true_iff.
  intros [[[H1 H2] H3] H4].
  apply bool_decide_eq_true_1 in H1, H3. apply Nat.leb_le in H4.
  split_and!; try assumption.
  apply Forall_forall. intros p Hp. rewrite forallb_forall in H2.
  specialize (H2 p (proj1 (list_elem_of_In _ _) Hp)).
  rewrite !andb_true_iff in H2. destruct H2 as [[[Ha Hb] Hc] Hd]. zbool. lia.
Qed.

(** X25: [flagbyte_bit] is the bit test of the flag byte, and false for an
    index outside the flag bytes or a bit outside [0..7].  Whatever the
    flag bytes, [enumerate_supported_dtc_addr_pairs] returns at least one
    and at most 76 pairs, each with its current address in
    [0x8E .. 0x267] and its historic address above it and at most [0x26C],
    and no address occurs twice, be it as current or as historic; a
    control unit that is not OBD2 gets the eleven pairs from [0x8E] with
    the historic address 22 above. *)
Theorem enumerate_pairs_spec (flagbytes : list Z) :
  let r := enumerate_supported_dtc_addr_pairs flagbytes in
  (forall byte_index bit_index,
     flagbyte_bit flagbytes byte_index bit_index
     = match flagbytes !! Z.to_nat byte_index with
       | Some b => (0 <=? byte_index) && (0 <=? bit_index) && (bit_index <=? 7)
                   && Z.testbit b bit_index
       | None => false
       end) /\
  r.1 = negb (flagbyte_bit flagbytes 29 7) /\
  r.2 <> [] /\
  Forall (fun p => 142 <= p.1 <= 615 /\ p.1 < p.2 /\ p.2 <= 620) r.2 /\
  NoDup (r.2.*1 ++ r.2.*2) /\
  (length r.2 <= 76)%nat /\
  (r.1 = false -> r.2 = map (fun a => (a, a + 22)) (seqZ 142 11)).
Proof.
  intros r. split.
  { intros byte_index bit_index. unfold flagbyte_bit.
    destruct (byte_index <? 0) eqn:E1; simpl.
    - zbool. replace (0 <=? byte_index) with false by (symmetry; apply Z.leb_gt; lia).
      destruct (flagbytes !! Z.to_nat byte_index); reflexivity.
    - zbool. replace (0 <=? byte_index) with true by (symmetry; apply Z.leb_le; lia).
      destruct (byte_index >=? Z.of_nat (length flagbytes)) eqn:E2; zbool.
      + rewrite lookup_ge_None_2 by lia. reflexivity.
      + destruct (lookup_lt_is_Some_2 flagbytes (Z.to_nat byte_index) ltac:(lia))
          as [b ->].
        destruct (bit_index <? 0) eqn:E3; simpl; zbool.
        * replace (0 <=? bit_index) with false by (symmetry; apply Z.leb_gt; lia).
          reflexivity.
        * replace (0 <=? bit_index) with true by (symmetry; apply Z.leb_le; lia).
          destruct (bit_index >? 7) eqn:E4; zbool; simpl.
          -- replace (bit_index <=? 7) with false by (symmetry; apply Z.leb_gt; lia).
             reflexivity.
          -- replace (bit_index <=? 7) with true by (symmetry; apply Z.leb_le; lia).
             rewrite land_bit by lia. rewrite negb_involutive. reflexivity. }
  assert (Hok : r.1 = negb (flagbyte_bit flagbytes 29 7) /\ pairs_ok r.2 = true /\
                (r.1 = false -> r.2 = map (fun a => (a, a + 22)) (seqZ 142 11))).
  { subst r. unfold enumerate_supported_dtc_addr_pairs.
    generalize (flagbyte_bit flagbytes 29 7).
    generalize (flagbyte_bit flagbytes 29 4 || flagbyte_bit flagbytes 29 6).
    generalize (flagbyte_bit flagbytes 28 0).
    generalize (flagbyte_bit flagbytes 39 7).
    generalize (flagbyte_bit flagbytes 39 6).
    generalize (flagbyte_bit flagbytes 39 5).
    generalize (flagbyte_bit flagbytes 39 4).
    generalize (flagbyte_bit flagbytes 50 6).
    generalize (flagbyte_bit flagbytes 50 5).
    generalize (Z.of_nat (length flagbytes) >? 32).
    generalize (Z.of_nat (length flagbytes) >? 48).
    intros l48 l32 b505 b506 b394 b395 b396 b397 b280 b294 b297.
    destruct b297; cbn [negb fst snd].
    - split; [reflexivity|]. split; [vm_compute; reflexivity|]. intros _. reflexivity.
    - destruct l32.
      + destruct l48.
        * destruct b294, b280, b397, b396, b395, b394, b506, b505;
            (split; [reflexivity|]); (split; [vm_compute; reflexivity|discriminate]).
        * destruct b294, b280, b397, b396, b395, b394;
            (split; [reflexivity|]); (split; [vm_compute; reflexivity|discriminate]).
      + destruct b294, b280;
          (split; [reflexivity|]); (split; [vm_compute; reflexivity|discriminate]). }
  destruct Hok as (Hfmt & Hok & Hnon).
  destruct (pairs_ok_spec _ Hok) as (H1 & H2 & H3 & H4).
  split_and!; assumption.
Qed.

#[local] Instance hit_le_total : Total hit_le.
Proof.
  intros h1 h2. unfold hit_le, hit_leb.
  pose proof (String.compare_antisym (hit_code h1) (hit_code h2)) as Hc.
  destruct (String.compare (hit_code h1) (hit_code h2)) eqn:Ec1;
    destruct (String.compare (hit_code h2) (hit_code h1)) eqn:Ec2;
    try discriminate Hc; auto.
  destruct (hit_addr h1 <? hit_addr h2) eqn:E1;
    destruct (hit_addr h2 <? hit_addr h1) eqn:E2; auto.
  destruct (hit_bit h1 <? hit_bit h2) eqn:E3;
    destruct (hit_bit h2 <? hit_bit h1) eqn:E4; auto.
  apply String.leb_total.
Qed.

Section Hits.

Variable unknown_title : Z -> Z -> Z -> string.

Lemma hit_of_bit_shape defs curr hist addr bit h :
  h ∈ hit_of_bit unknown_title defs curr hist addr bit ->
  hit_addr h = addr /\ hit_bit h = bit /\ hit_code h <> EmptyString.
Proof.
  unfold hit_of_bit. destruct (defs !! (curr, hist, bit)) as [entry|].
  - destruct (String.eqb (code entry) "" && String.eqb (title entry) "") eqn:E.
    + intros Hin. inversion Hin.
    + intros Hin. apply list_elem_of_singleton in Hin as ->. simpl.
      split_and!; try reflexivity.
      destruct (code entry); simpl; discriminate.
  - intros Hin. apply list_elem_of_singleton in Hin as ->. simpl.
    split_and!; try reflexivity. discriminate.
Qed.

Lemma hits_of_pair_elem values defs use_hist curr hist h :
  h ∈ hits_of_pair unknown_title values defs use_hist (curr, hist) <->
  exists bit0 databyte,
    0 <= bit0 < 8 /\
    values !! (if use_hist then hist else curr) = Some databyte /\
    Z.testbit databyte bit0 = true /\
    h ∈ hit_of_bit unknown_title defs curr hist
          (if use_hist then hist else curr) (bit0 + 1).
Proof.
  unfold hits_of_pair.
  destruct (values !! (if use_hist then hist else curr)) as [databyte|].
  - rewrite list_elem_of_In, in_flat_map. split.
    + intros (bit0 & Hb & Hin). apply list_elem_of_In, elem_of_seqZ in Hb.
      rewrite land_bit in Hin by lia.
      destruct (Z.testbit databyte bit0) eqn:Ht; simpl in Hin; [|contradiction].
      exists bit0, databyte. split; [lia|]. split; [reflexivity|].
      split; [exact Ht|]. apply list_elem_of_In. exact Hin.
    + intros (bit0 & d & Hb & Hd & Ht & Hin). injection Hd as <-.
      exists bit0. split; [apply list_elem_of_In, elem_of_seqZ; lia|].
      rewrite land_bit by lia. rewrite Ht. simpl. apply list_elem_of_In. exact Hin.
  - split; [intros Hin; inversion Hin|].
    intros (bit0 & d & _ & Hd & _). discriminate.
Qed.

Lemma hits_of_pair_length values defs use_hist pair :
  (length (hits_of_pair unknown_title values defs use_hist pair) <= 8)%nat.
Proof.
  destruct pair as [curr hist]. unfold hits_of_pair.
  destruct (values !! _) as [databyte|]; [|simpl; lia].
  assert (Hone : forall bit0,
    (length (if (Z.land databyte (Z.shiftl 1 bit0) =? 0)%Z then []
             else hit_of_bit unknown_title defs curr hist
                    (if use_hist then hist else curr) (bit0 + 1)%Z) <= 1)%nat).
  { intros bit0. destruct (_ =? 0); [simpl; lia|].
    unfold hit_of_bit. destruct (defs !! _) as [e|]; [|simpl; lia].
    destruct (_ && _); simpl; lia. }
  change (seqZ 0 8) with [0; 1; 2; 3; 4; 5; 6; 7].
  cbn [flat_map]. rewrite !length_app.
  pose proof (Hone 0). pose proof (Hone 1). pose proof (Hone 2).
  pose proof (Hone 3). pose proof (Hone 4). pose proof (Hone 5).
  pose proof (Hone 6). pose proof (Hone 7). simpl length at 9. lia.
Qed.

(** X26: [decode_dtc_hits] returns its hits sorted by code, address, bit
    and title.  A hit is in the list exactly when, for one of the pairs
    and one of the eight bits, the byte read at the address of the pair
    (the historic one for [use_hist]) has the bit set and the definitions
    do not silence it; so every hit has a bit number in [1..8], a code
    that is not empty and an address that was read, an address that was
    not read yields no hit, and there are at most eight hits per pair. *)
Theorem decode_dtc_hits_spec (pairs : list (Z * Z)) (values : gmap Z Z)
    (defs : gmap (Z * Z * Z) DtcEntry) (use_hist : bool) :
  let hits := decode_dtc_hits unknown_title pairs values defs use_hist in
  Sorted hit_le hits /\
  (forall h, h ∈ hits <->
     exists curr hist bit0 databyte,
       (curr, hist) ∈ pairs /\ 0 <= bit0 < 8 /\
       values !! (if use_hist then hist else curr) = Some databyte /\
       Z.testbit databyte bit0 = true /\
       h ∈ hit_of_bit unknown_title defs curr hist
             (if use_hist then hist else curr) (bit0 + 1)) /\
  (forall h, h ∈ hits ->
     1 <= hit_bit h <= 8 /\ hit_code h <> EmptyString /\
     is_Some (values !! hit_addr h)) /\
  (length hits <= 8 * length pairs)%nat.
Proof.
  intros hits. subst hits. unfold decode_dtc_hits.
  assert (Helem : forall h,
    h ∈ merge_sort hit_le
          (flat_map (hits_of_pair unknown_title values defs use_hist) pairs) <->
    exists curr hist bit0 databyte,
      (curr, hist) ∈ pairs /\ 0 <= bit0 < 8 /\
      values !! (if use_hist then hist else curr) = Some databyte /\
      Z.testbit databyte bit0 = true /\
      h ∈ hit_of_bit unknown_title defs curr hist
            (if use_hist then hist else curr) (bit0 + 1)).
  { intros h. rewrite merge_sort_Permutation, list_elem_of_In, in_flat_map. split.
    - intros ([curr hist] & Hp & Hin).
      apply list_elem_of_In, hits_of_pair_elem in Hin
        as (bit0 & d & Hb & Hd & Ht & Hin).
      exists curr, hist, bit0, d. split; [apply list_elem_of_In; exact Hp|]. auto.
    - intros (curr & hist & bit0 & d & Hp & Hb & Hd & Ht & Hin).
      exists (curr, hist). split; [apply list_elem_of_In; exact Hp|].
      apply list_elem_of_In, hits_of_pair_elem. eauto 10. }
  split_and!.
  - apply Sorted_merge_sort. apply _.
  - exact Helem.
  - intros h Hh. apply Helem in Hh
      as (curr & hist & bit0 & d & Hp & Hb & Hd & Ht & Hin).
    apply hit_of_bit_shape in Hin as (-> & -> & Hc).
    split; [lia|]. split; [exact Hc|]. rewrite Hd. eauto.
  - rewrite merge_sort_Permutation. clear Helem.
    induction pairs as [|p pairs IH]; [simpl; lia|].
    cbn [flat_map]. rewrite length_app.
    pose proof (hits_of_pair_length values defs use_hist p). cbn [length]. lia.
Qed.

End Hits.

End DtcSpec.

(** ** Topics and profiles *)
Module ProfileSpec.
Import Text Expr Profile.

Lemma alnum_not_underscore c : is_slug_alnum c = true -> is_underscore c = false.
Proof.
  unfold is_slug_alnum, is_underscore. intros Ha.
  destruct (Ascii.eqb_spec c "_") as [->|]; [discriminate Ha|reflexivity].
Qed.

Lemma sub_non_alnum_slug : forall s b,
  all_slug (sub_non_alnum b s) = true /\
  no_double_underscore b (sub_non_alnum b s) = true.
Proof.
  induction s as [|c s IH]; intros b; simpl; [auto|].
  destruct (is_slug_alnum c) eqn:Ea.
  - simpl. rewrite Ea, (alnum_not_underscore c Ea). simpl. apply IH.
  - destruct b; [apply IH|]. simpl. apply IH.
Qed.

Lemma sub_underscores_slug : forall s b,
  (all_slug s = true -> all_slug (sub_underscores b s) = true) /\
  no_double_underscore b (sub_underscores b s) = true.
Proof.
  induction s as [|c s IH]; intros b; simpl; [auto|].
  destruct (is_underscore c) eqn:Eu.
  - rewrite orb_true_r. simpl. destruct b.
    + apply IH.
    + simpl. split; [apply IH|apply IH].
  - simpl. rewrite Eu, orb_false_r. split; [|apply IH].
    intros Ha. apply andb_true_iff in Ha as [-> Ha]. simpl. apply IH. exact Ha.
Qed.

Lemma no_double_weaken : forall s b,
  no_double_underscore b s = true -> no_double_underscore false s = true.
Proof.
  intros [|c s] b; simpl; [auto|].
  destruct (is_underscore c); [|auto].
  intros H. apply andb_true_iff in H as [_ H]. exact H.
Qed.

Lemma no_double_tail c s b :
  no_double_underscore b (String c s) = true ->
  no_double_underscore false s = true.
Proof.
  simpl. destruct (is_underscore c).
  - intros H. apply andb_true_iff in H as [_ H]. eapply no_double_weaken; eauto.
  - auto.
Qed.

Lemma lstrip_slug : forall s,
  (all_slug s = true -> all_slug (lstrip_underscores s) = true) /\
  (forall b, no_double_underscore b s = true ->
             no_double_underscore false (lstrip_underscores s) = true) /\
  starts_with_underscore (lstrip_underscores s) = false /\
  (ends_with_underscore s = false ->
   ends_with_underscore (lstrip_underscores s) = false).
Proof.
  induction s as [|c s IH]; [simpl; auto|].
  destruct IH as (IH1 & IH2 & IH3 & IH4).
  cbn [lstrip_underscores]. destruct (is_underscore c) eqn:Eu.
  - split_and!.
    + intros Ha. simpl in Ha. apply andb_true_iff in Ha as [_ Ha]. auto.
    + intros b Hn. apply (IH2 false). eapply no_double_tail; eauto.
    + exact IH3.
    + intros He. apply IH4. destruct s; [simpl in He; congruence|exact He].
  - split_and!; auto.
    intros b Hn. eapply no_double_weaken; eauto.
Qed.

Lemma rstrip_slug : forall s,
  (all_slug s = true -> all_slug (rstrip_underscores s) = true) /\
  (forall b, no_double_underscore b s = true ->
             no_double_underscore b (rstrip_underscores s) = true) /\
  ends_with_underscore (rstrip_underscores s) = false.
Proof.
  induction s as [|c s IH]; [simpl; auto|].
  destruct IH as (IH1 & IH2 & IH3).
  cbn [rstrip_underscores].
  destruct (rstrip_underscores s) as [|d r] eqn:Er.
  - destruct (is_underscore c) eqn:Eu; split_and!; simpl; auto.
    + intros Ha. apply andb_true_iff in Ha as [-> _]. reflexivity.
    + intros b Hn. rewrite Eu. reflexivity.
  - split_and!.
    + intros Ha. simpl in Ha. apply andb_true_iff in Ha as [Hc Ha].
      change (all_slug (String c (String d r)))
        with ((is_slug_alnum c || is_underscore c) && all_slug (String d r)).
      rewrite Hc. cbn [andb]. apply IH1. exact Ha.
    + intros b Hn.
      change (no_double_underscore b (String c (String d r)))
        with (if is_underscore c
              then negb b && no_double_underscore true (String d r)
              else no_double_underscore false (String d r)).
      simpl in Hn. destruct (is_underscore c).
      * apply andb_true_iff in Hn as [-> Hn]. cbn [andb]. apply IH2. exact Hn.
      * apply IH2. exact Hn.
    + exact IH3.
Qed.

(** X27: whatever the name, [slugify_metric] returns a topic that is not
    empty, is made of the letters [a-z], the digits and the underscore
    only, holds no two underscores in a row, and neither starts nor ends
    with an underscore. *)
Theorem slugify_metric_shape (name : string) :
  let topic := slugify_metric name in
  is_empty topic = false /\
  all_slug topic = true /\
  no_double_underscore false topic = true /\
  starts_with_underscore topic = false /\
  ends_with_underscore topic = false.
Proof.
  intros topic. subst topic. unfold slugify_metric.
  set (t := replace "voltage" "v" _).
  set (u := strip_underscores (sub_underscores false (sub_non_alnum false t))).
  assert (Hu : all_slug u = true /\ no_double_underscore false u = true /\
               starts_with_underscore u = false /\
               ends_with_underscore u = false).
  { unfold u, strip_underscores.
    destruct (sub_non_alnum_slug t false) as [Ha _].
    destruct (sub_underscores_slug (sub_non_alnum false t) false) as [Hb Hn].
    specialize (Hb Ha).
    destruct (rstrip_slug (sub_underscores false (sub_non_alnum false t)))
      as (R1 & R2 & R3).
    destruct (lstrip_slug
                (rstrip_underscores (sub_underscores false (sub_non_alnum false t))))
      as (L1 & L2 & L3 & L4).
    split_and!; [apply L1, R1, Hb|apply (L2 false), R2, Hn|exact L3|apply L4, R3]. }
  destruct (String.eqb u "battery_voltage").
  - repeat split.
  - destruct u as [|c u']; [repeat split|]. exact (conj eq_refl Hu).
Qed.

Lemma drop_digits_app (ds rest : list ascii) :
  Forall (fun c => is_digit c = true) ds ->
  match rest with c :: _ => is_digit c = false | [] => True end ->
  drop_digits (ds ++ rest) = rest.
Proof.
  intros Hd Hr. induction Hd as [|d ds Hdig _ IH]; simpl.
  - destruct rest as [|c rest]; [reflexivity|]. simpl. rewrite Hr. reflexivity.
  - rewrite Hdig. exact IH.
Qed.

Lemma digit_not_newline c : is_digit c = true -> Ascii.eqb c "010" = false.
Proof.
  intros Hd. destruct (Ascii.eqb_spec c "010") as [->|]; [discriminate Hd|reflexivity].
Qed.

(** A topic followed by an underscore and digits loses them. *)
Lemma strip_numeric_suffix_numbered (base digits : list ascii) :
  digits <> [] -> Forall (fun c => is_digit c = true) digits ->
  strip_numeric_suffix (base ++ "_"%char :: digits) = base.
Proof.
  intros Hne Hd. unfold strip_numeric_suffix.
  assert (Hrev : reverse (base ++ "_"%char :: digits)
                 = reverse digits ++ "_"%char :: reverse base).
  { rewrite reverse_app, reverse_cons, <- app_assoc. reflexivity. }
  destruct (reverse digits) as [|d r] eqn:Er.
  { apply (f_equal reverse) in Er. rewrite reverse_involutive in Er.
    contradiction. }
  assert (Hdr : Forall (fun c => is_digit c = true) (d :: r)).
  { rewrite <- Er. apply Forall_reverse. exact Hd. }
  apply Forall_cons in Hdr as [Hdig Hr].
  rewrite Hrev. cbn [app]. rewrite (digit_not_newline d Hdig).
  rewrite Hrev. cbn [app]. rewrite Hdig.
  rewrite (drop_digits_app r ("_"%char :: reverse base) Hr eq_refl).
  simpl. rewrite app_nil_r. apply reverse_involutive.
Qed.

Lemma list_ascii_app (s1 s2 : string) :
  list_ascii_of_string (s1 ++ s2)
  = list_ascii_of_string s1 ++ list_ascii_of_string s2.
Proof. induction s1 as [|c s1 IH]; simpl; [reflexivity|]. rewrite IH. reflexivity. Qed.

Section Select.

Context {F : Type}.

Lemma filter_sublist (f : RRParam (F:=F) -> bool) (l : list (RRParam (F:=F))) :
  sublist (List.filter f l) l.
Proof.
  induction l as [|x l IH]; simpl; [constructor|].
  destruct (f x); [apply sublist_skip|apply sublist_cons]; exact IH.
Qed.

Lemma numbered_is_fast (p : RRParam (F:=F)) base digits :
  in_fast base = true -> digits <> EmptyString ->
  Forall (fun c => is_digit c = true) (list_ascii_of_string digits) ->
  topic p = (base ++ "_" ++ digits)%string ->
  is_fast_param p = true.
Proof.
  intros Hb Hne Hd Ht. unfold is_fast_param, base_topic. rewrite Ht.
  rewrite list_ascii_app.
  change (list_ascii_of_string ("_" ++ digits))
    with ("_"%char :: list_ascii_of_string digits).
  rewrite strip_numeric_suffix_numbered.
  - rewrite string_of_list_ascii_of_string, Hb. apply orb_true_r.
  - destruct digits; [contradiction|discriminate].
  - exact Hd.
Qed.

(** X28: [select_profile_params] returns the parameters in their order,
    without adding any, and returns at least one whenever it is given one.
    A profile other than ["fast"] keeps them all.  For ["fast"] it keeps
    exactly those whose topic, or whose topic without a numeric suffix
    [_<digits>], is a fast topic, unless there is none, when it keeps them
    all; a fast topic followed by an underscore and digits counts as
    fast. *)
Theorem select_profile_params_spec (params : list (RRParam (F:=F)))
    (profile : string) :
  let selected := select_profile_params params profile in
  sublist selected params /\
  (params <> [] -> selected <> []) /\
  (profile <> "fast"%string -> selected = params) /\
  (profile = "fast"%string ->
   (exists p, p ∈ params /\ is_fast_param p = true) ->
   forall p, p ∈ selected <-> p ∈ params /\ is_fast_param p = true) /\
  (profile = "fast"%string ->
   (forall p, p ∈ params -> is_fast_param p = false) -> selected = params) /\
  (forall (p : RRParam (F:=F)) base digits,
     in_fast base = true -> digits <> EmptyString ->
     Forall (fun c => is_digit c = true) (list_ascii_of_string digits) ->
     topic p = (base ++ "_" ++ digits)%string ->
     is_fast_param p = true).
Proof.
  intros selected. subst selected. unfold select_profile_params.
  destruct (String.eqb_spec profile "fast") as [->|Hne]; cbn [negb].
  - assert (Hf : forall p, p ∈ List.filter is_fast_param params <->
                           p ∈ params /\ is_fast_param p = true).
    { intros p. rewrite !list_elem_of_In. apply filter_In. }
    pose proof (filter_sublist is_fast_param params) as Hsub.
    destruct (List.filter is_fast_param params) as [|q sel] eqn:Ef.
    + split_and!.
      * reflexivity.
      * auto.
      * intros H. contradiction.
      * intros _ (p & Hp & Hfast). exfalso.
        pose proof (proj2 (Hf p) (conj Hp Hfast)) as Hin. inversion Hin.
      * reflexivity.
      * apply numbered_is_fast.
    + split_and!.
      * exact Hsub.
      * discriminate.
      * intros H. contradiction.
      * intros _ _. exact Hf.
      * intros _ Hnone. exfalso.
        destruct (proj1 (Hf q) (list_elem_of_here _ _)) as [Hq Hfast].
        rewrite (Hnone q Hq) in Hfast. discriminate.
      * apply numbered_is_fast.
  - split_and!.
    + reflexivity.
    + auto.
    + reflexivity.
    + intros H. contradiction.
    + intros H. contradiction.
    + apply numbered_is_fast.
Qed.

End Select.

End ProfileSpec.

(** ** Escaping for InfluxDB *)
Module InfluxSpec.
Import Expr Influx.

(** Replacing one character by its escape is escaping that character. *)
Lemma replace_one (c : ascii) (s : string) :
  replace (one c) (escaped c) s = escape_each (fun d => Ascii.eqb d c) s.
Proof.
  unfold replace, one, escaped. induction s as [|d s IH]; [reflexivity|].
  cbn [replace_from escape_each String.prefix String.length Nat.sub].
  rewrite Ascii.eqb_sym.
  destruct (Ascii.eqb_spec c d) as [->|Hne].
  - destruct (ascii_dec d d) as [_|Hn]; [|contradiction].
    replace (String.prefix "" s) with true by (destruct s; reflexivity).
    unfold one in *. cbn [String.append]. rewrite IH. reflexivity.
  - destruct (ascii_dec c d) as [He|_]; [contradiction|].
    rewrite IH. reflexivity.
Qed.

Lemma escape_each_inj (special : ascii -> bool) :
  special backslash = true ->
  forall a b, escape_each special a = escape_each special b -> a = b.
Proof.
  intros Hb. induction a as [|c a IH]; intros [|d b] Heq; simpl in Heq.
  - reflexivity.
  - destruct (special d); discriminate.
  - destruct (special c); discriminate.
  - destruct (special c) eqn:Ec; destruct (special d) eqn:Ed.
    + injection Heq as <- Heq. f_equal. apply IH. exact Heq.
    + injection Heq as <- Heq. congruence.
    + injection Heq as -> Heq. congruence.
    + injection Heq as <- Heq. f_equal. apply IH. exact Heq.
Qed.

(** X29: the chained replacements of [_esc_tag] (and of
    [_esc_field_str]) amount to escaping character by character: each
    backslash, comma, space and equals sign (each backslash and double
    quote) gets one backslash before it and nothing else changes, the
    backslashes added by one replacement not being escaped again by the
    next.  So two different texts never escape to the same text. *)
Theorem esc_tag_spec (v : string) :
  _esc_tag v = escape_each tag_special v /\
  _esc_field_str v = escape_each field_special v /\
  (forall w, _esc_tag v = _esc_tag w -> v = w) /\
  (forall w, _esc_field_str v = _esc_field_str w -> v = w).
Proof.
  assert (Htag : forall s, _esc_tag s = escape_each tag_special s).
  { intros s. unfold _esc_tag. rewrite !replace_one.
    induction s as [|c s IH]; [reflexivity|].
    destruct (Ascii.eqb c backslash) eqn:E1;
      [apply Ascii.eqb_eq in E1 as ->; cbn; rewrite IH; reflexivity|].
    destruct (Ascii.eqb c ",") eqn:E2;
      [apply Ascii.eqb_eq in E2 as ->; cbn; rewrite IH; reflexivity|].
    destruct (Ascii.eqb c " ") eqn:E3;
      [apply Ascii.eqb_eq in E3 as ->; cbn; rewrite IH; reflexivity|].
    destruct (Ascii.eqb c "=") eqn:E4;
      [apply Ascii.eqb_eq in E4 as ->; cbn; rewrite IH; reflexivity|].
    unfold tag_special.
    repeat (cbn [escape_each orb]; rewrite ?E1, ?E2, ?E3, ?E4).
    rewrite IH. reflexivity. }
  assert (Hfield : forall s, _esc_field_str s = escape_each field_special s).
  { intros s. unfold _esc_field_str. rewrite !replace_one.
    induction s as [|c s IH]; [reflexivity|].
    destruct (Ascii.eqb c backslash) eqn:E1;
      [apply Ascii.eqb_eq in E1 as ->; cbn; rewrite IH; reflexivity|].
    destruct (Ascii.eqb c quote) eqn:E2;
      [apply Ascii.eqb_eq in E2 as ->; cbn; rewrite IH; reflexivity|].
    unfold field_special.
    repeat (cbn [escape_each orb]; rewrite ?E1, ?E2).
    rewrite IH. reflexivity. }
  split_and!.
  - apply Htag.
  - apply Hfield.
  - intros w. rewrite !Htag. apply escape_each_inj. reflexivity.
  - intros w. rewrite !Hfield. apply escape_each_inj. reflexivity.
Qed.

End InfluxSpec.
